(** * Footprint: the encrypted evidence store

    A shallow embedding of the core of the footprint MCP server
    (crypto/encrypt.ts, crypto/decrypt.ts, crypto/key-derivation.ts,
    storage/database.ts, storage/export.ts, tools/list-footprints.ts,
    tools/verify-footprint.ts, lib/tool-wrapper.ts) and the properties of
    its specification.

    Conventions.
    - A JavaScript string is the list of its UTF-16 code units, each a [Z]
      in [0, 65535]; a [Uint8Array] / [Buffer] is a list of bytes, each a
      [Z] in [0, 255].
    - A JavaScript number that the code uses as a count, limit or offset is
      a [Z].
    - A function that may throw returns a [result]; [Throw] carries the
      message of the [Error].  A rejected promise is a [Throw] too.
    - Code that reads or writes the SQLite table runs in the monad [DB]
      over a [World]: the table, the clock and a schedule of I/O faults.
    - A string goes into the table as UTF-8 and comes back as text
      ([to_text]: an unpaired surrogate has become U+FFFD); SQLite
      compares TEXT values by their bytes, matches LIKE by characters up
      to the first NUL, and walks the index on the timestamp for
      [ORDER BY]. *)

From Stdlib Require Import ZArith List Bool Lia Permutation.
From Stdlib Require Import Strings.String Strings.Ascii DecimalString.
From stdpp Require Import base decidable option list sorting gmap.
Import ListNotations.

Local Open Scope Z_scope.
Set Warnings "-register-all".

(* ================================================================== *)
(** ** JavaScript strings *)
(* ================================================================== *)

Abbreviation jsstring := (list Z) (only parsing).
Abbreviation bytes := (list Z) (only parsing).

(** A string literal of the source, as code units (ASCII literals only). *)
Definition js (s : string) : jsstring :=
  map (fun a => Z.of_N (N_of_ascii a)) (list_ascii_of_string s).

(** [`${n}`] for an integer [n]: its decimal digits. *)
Definition Z_to_js (n : Z) : jsstring :=
  js (NilZero.string_of_int (Z.to_int n)).

Definition comma : Z := 44.
Definition percent : Z := 37.
Definition underscore : Z := 95.
Definition newline : Z := 10.

(** [s.length === 0] / falsiness of a string. *)
Definition str_empty (s : jsstring) : bool :=
  match s with [] => true | _ => false end.

(** Truthiness of [string | null]: non-null and non-empty. *)
Definition truthy (o : option jsstring) : bool :=
  match o with Some (_ :: _) => true | _ => false end.

Definition str_eqb (a b : jsstring) : bool := bool_decide (a = b).

(** ECMAScript WhiteSpace and LineTerminator code units, the ones
    [String.prototype.trim] strips. *)
Definition is_ws (c : Z) : bool :=
  (c =? 9) || (c =? 10) || (c =? 11) || (c =? 12) || (c =? 13) || (c =? 32)
  || (c =? 160) || (c =? 5760) || ((8192 <=? c) && (c <=? 8202))
  || (c =? 8232) || (c =? 8233) || (c =? 8239) || (c =? 8287)
  || (c =? 12288) || (c =? 65279).

Fixpoint trim_start (s : jsstring) : jsstring :=
  match s with
  | [] => []
  | c :: s' => if is_ws c then trim_start s' else s
  end.

(** [s.trim()] *)
Definition trim (s : jsstring) : jsstring :=
  rev (trim_start (rev (trim_start s))).

(** [s.split(',')]: never empty, the empty string gives one empty piece. *)
Fixpoint split_comma (s : jsstring) : list jsstring :=
  match s with
  | [] => [[]]
  | c :: s' =>
      if c =? comma then [] :: split_comma s'
      else match split_comma s' with
           | [] => [[c]]
           | w :: ws => (c :: w) :: ws
           end
  end.

(** [l.join(sep)] *)
Fixpoint join (sep : jsstring) (l : list jsstring) : jsstring :=
  match l with
  | [] => []
  | [w] => w
  | w :: ws => w ++ sep ++ join sep ws
  end.

(** [[...new Set(l)]]: the distinct elements in order of first occurrence. *)
Definition set_add (acc : list jsstring) (x : jsstring) : list jsstring :=
  if bool_decide (x ∈ acc) then acc else acc ++ [x].

Definition set_of (l : list jsstring) : list jsstring :=
  fold_left set_add l [].

(** The tags of a stored tag string, as [addTags] and [getTagCounts] parse
    it: [s.split(',').map(t => t.trim()).filter(t => t)]. *)
Definition tokens (s : jsstring) : list jsstring :=
  List.filter (fun t => negb (str_empty t)) (map trim (split_comma s)).

Definition tokens_of (o : option jsstring) : list jsstring :=
  match o with
  | Some s => if str_empty s then [] else tokens s
  | None => []
  end.

(* ================================================================== *)
(** ** Results and exceptions *)
(* ================================================================== *)

Inductive result (A : Type) : Type :=
| Ok (a : A)
| Throw (message : jsstring).
Arguments Ok {A} a.
Arguments Throw {A} message.

Definition is_ok {A} (r : result A) : bool :=
  match r with Ok _ => true | Throw _ => false end.

(** [try { body } catch (error) { throw new Error(`${prefix}${error.message}`) }] *)
Definition rethrow {A} (prefix : jsstring) (r : result A) : result A :=
  match r with
  | Ok a => Ok a
  | Throw m => Throw (prefix ++ m)
  end.

(* ================================================================== *)
(** ** TextEncoder and TextDecoder (UTF-8)

    [new TextEncoder().encode(s)] and [new TextDecoder().decode(b)] are
    platform functions; they are modelled after the WHATWG Encoding
    Standard: the encoder works on the scalar values of the string (an
    unpaired surrogate becomes U+FFFD), the decoder is the UTF-8 decoder in
    replacement mode, and a [TextDecoder] built without options drops a
    leading byte order mark. *)
(* ================================================================== *)

Definition is_high (c : Z) : bool := (0xD800 <=? c) && (c <=? 0xDBFF).
Definition is_low (c : Z) : bool := (0xDC00 <=? c) && (c <=? 0xDFFF).
Definition REPLACEMENT : Z := 0xFFFD.
Definition BOM : Z := 0xFEFF.

(** The scalar values of a string (conversion to a USVString). *)
Fixpoint scalar_values (s : jsstring) : list Z :=
  match s with
  | [] => []
  | c :: s' =>
      if is_high c then
        match s' with
        | d :: s'' =>
            if is_low d
            then (0x10000 + Z.shiftl (c - 0xD800) 10 + (d - 0xDC00)) :: scalar_values s''
            else REPLACEMENT :: scalar_values s'
        | [] => [REPLACEMENT]
        end
      else if is_low c then REPLACEMENT :: scalar_values s'
      else c :: scalar_values s'
  end.

(** The UTF-8 encoder, one scalar value. *)
Definition utf8_encode_cp (cp : Z) : bytes :=
  if cp <? 0x80 then [cp]
  else if cp <? 0x800 then
    [Z.lor 0xC0 (Z.shiftr cp 6); Z.lor 0x80 (Z.land cp 0x3F)]
  else if cp <? 0x10000 then
    [Z.lor 0xE0 (Z.shiftr cp 12);
     Z.lor 0x80 (Z.land (Z.shiftr cp 6) 0x3F);
     Z.lor 0x80 (Z.land cp 0x3F)]
  else
    [Z.lor 0xF0 (Z.shiftr cp 18);
     Z.lor 0x80 (Z.land (Z.shiftr cp 12) 0x3F);
     Z.lor 0x80 (Z.land (Z.shiftr cp 6) 0x3F);
     Z.lor 0x80 (Z.land cp 0x3F)].

(** [new TextEncoder().encode(s)] *)
Definition TextEncoder_encode (s : jsstring) : bytes :=
  flat_map utf8_encode_cp (scalar_values s).

(** The state of the UTF-8 decoder. *)
Record utf8_state : Type := mk_utf8 {
  u_code_point : Z;
  u_bytes_seen : Z;
  u_bytes_needed : Z;
  u_lower : Z;
  u_upper : Z
}.

Definition utf8_init : utf8_state := mk_utf8 0 0 0 0x80 0xBF.

(** The decoder's handler for a byte when no bytes are needed. *)
Definition utf8_lead (b : Z) : utf8_state * list Z :=
  if (0 <=? b) && (b <=? 0x7F) then (utf8_init, [b])
  else if (0xC2 <=? b) && (b <=? 0xDF) then
    (mk_utf8 (Z.land b 0x1F) 0 1 0x80 0xBF, [])
  else if (0xE0 <=? b) && (b <=? 0xEF) then
    (mk_utf8 (Z.land b 0xF) 0 2
       (if b =? 0xE0 then 0xA0 else 0x80)
       (if b =? 0xED then 0x9F else 0xBF), [])
  else if (0xF0 <=? b) && (b <=? 0xF4) then
    (mk_utf8 (Z.land b 0x7) 0 3
       (if b =? 0xF0 then 0x90 else 0x80)
       (if b =? 0xF4 then 0x8F else 0xBF), [])
  else (utf8_init, [REPLACEMENT]).

(** The decoder's handler: the new state and the code points emitted.  A
    byte outside the expected range ends the sequence with U+FFFD and is
    handled again as a first byte. *)
Definition utf8_step (st : utf8_state) (b : Z) : utf8_state * list Z :=
  if u_bytes_needed st =? 0 then utf8_lead b
  else if negb ((u_lower st <=? b) && (b <=? u_upper st)) then
    let '(st', out) := utf8_lead b in (st', REPLACEMENT :: out)
  else
    let cp := Z.lor (Z.shiftl (u_code_point st) 6) (Z.land b 0x3F) in
    let seen := u_bytes_seen st + 1 in
    if seen =? u_bytes_needed st then (utf8_init, [cp])
    else (mk_utf8 cp seen (u_bytes_needed st) 0x80 0xBF, []).

Fixpoint utf8_run (st : utf8_state) (bs : bytes) : list Z :=
  match bs with
  | [] => if u_bytes_needed st =? 0 then [] else [REPLACEMENT]
  | b :: bs' => let '(st', out) := utf8_step st b in out ++ utf8_run st' bs'
  end.

(** A code point as UTF-16 code units. *)
Definition utf16_of_cp (cp : Z) : jsstring :=
  if cp <? 0x10000 then [cp]
  else [0xD800 + Z.shiftr (cp - 0x10000) 10; 0xDC00 + Z.land (cp - 0x10000) 0x3FF].

Definition drop_bom (cps : list Z) : list Z :=
  match cps with
  | c :: cps' => if c =? BOM then cps' else cps
  | [] => []
  end.

(** [new TextDecoder().decode(b)]: never throws ([fatal] is false). *)
Definition TextDecoder_decode (b : bytes) : jsstring :=
  flat_map utf16_of_cp (drop_bom (utf8_run utf8_init b)).

(** A string without unpaired surrogates. *)
Fixpoint well_formed (s : jsstring) : bool :=
  match s with
  | [] => true
  | c :: s' =>
      if is_high c then
        match s' with
        | d :: s'' => is_low d && well_formed s''
        | [] => false
        end
      else negb (is_low c) && (0 <=? c) && (c <=? 0xFFFF) && well_formed s'
  end.

Definition starts_with_bom (s : jsstring) : bool :=
  match s with c :: _ => c =? BOM | [] => false end.

(** A string as a TEXT value of the database.  better-sqlite3 binds a
    JavaScript string as its UTF-8 bytes, an unpaired surrogate written as
    U+FFFD as the encoder above does, and builds the string of a TEXT
    column from its UTF-8 bytes: [to_text s] is the string that comes
    back for [s]. *)
Definition to_text (s : jsstring) : jsstring :=
  flat_map utf16_of_cp (scalar_values s).

(* ================================================================== *)
(** ** The platform

    What the program takes from its libraries and its runtime: the AEAD
    cipher of @noble/ciphers, Argon2id of @noble/hashes, SHA-256 of
    node:crypto, [JSON.stringify], [Date.prototype.toISOString] and the
    serializer of JSZip.  They are parameters of the embedding. *)
(* ================================================================== *)

(** A JSON value, for the objects the export serializes. *)
Inductive json : Type :=
| JNull
| JBool (b : bool)
| JNumber (n : Z)
| JString (s : jsstring)
| JArray (items : list json)
| JObject (fields : list (jsstring * json)).

(** The data of one archive entry: [zip.file(name, data)] takes a
    [Uint8Array] or a string. *)
Inductive zipdata : Type :=
| Binary (b : bytes)
| Text (s : jsstring).

Class Platform : Type := {
  (** [xchacha20poly1305(key, nonce).encrypt(plaintext)] *)
  cipher_encrypt : bytes -> bytes -> bytes -> bytes;
  (** [xchacha20poly1305(key, nonce).decrypt(ciphertext)]; [Throw] when the
      authentication tag does not verify. *)
  cipher_decrypt : bytes -> bytes -> bytes -> result bytes;
  (** [argon2id(password, salt, { m, t, p, dkLen })] *)
  argon2id : jsstring -> bytes -> Z -> Z -> Z -> Z -> result bytes;
  (** [createHash('sha256').update(data).digest('hex')] on bytes *)
  sha256_hex : bytes -> jsstring;
  (** [JSON.stringify(value, null, 2)] *)
  JSON_stringify : json -> jsstring;
  (** [new Date().toISOString()] at a reading of the clock *)
  toISOString : nat -> jsstring;
  (** [zip.generateAsync({ type: 'uint8array', compression: 'DEFLATE' })] *)
  zip_generate : gmap jsstring zipdata -> bytes
}.

(** The contracts of the two cryptographic libraries that the properties
    below rest on. *)
Class PlatformLaws (P : Platform) : Prop := {
  (** AEAD correctness: opening what was sealed under the same 32-byte key
      and 24-byte nonce gives the plaintext back. *)
  cipher_correct : forall key nonce plaintext,
    length key = 32%nat -> length nonce = 24%nat ->
    cipher_decrypt key nonce (cipher_encrypt key nonce plaintext) = Ok plaintext;
  (** Argon2id with the default parameters and a 16-byte salt returns a key
      of the requested 32 bytes. *)
  argon2id_default : forall password salt,
    length salt = 16%nat ->
    exists key, argon2id password salt 65536 3 4 32 = Ok key /\ length key = 32%nat
}.

(** A hash of a string is the hash of its UTF-8 encoding. *)
Definition sha256_hex_string `{Platform} (s : jsstring) : jsstring :=
  sha256_hex (TextEncoder_encode s).

(* ================================================================== *)
(** ** lib/crypto *)
(* ================================================================== *)

(** The entropy source behind [randomBytes]: an unbounded supply of bytes
    and the position reached. *)
Record Entropy : Type := mk_entropy {
  supply : nat -> Z;
  position : nat
}.

(** [randomBytes(n)] *)
Definition randomBytes (n : nat) (g : Entropy) : bytes * Entropy :=
  (map (fun i => supply g (position g + i)%nat mod 256) (seq 0 n),
   mk_entropy (supply g) (position g + n)%nat).

Record EncryptedData : Type := mk_encrypted {
  ciphertext : bytes;
  enc_nonce : bytes
}.

(** crypto/encrypt.ts, [encrypt] *)
Definition encrypt `{Platform} (plaintext : jsstring) (key : bytes) (g : Entropy)
  : result EncryptedData * Entropy :=
  if negb (length key =? 32)%nat then (Throw (js "Key must be 32 bytes"), g)
  else
    let '(nonce, g') := randomBytes 24 g in
    let plaintextBytes := TextEncoder_encode plaintext in
    let ciphertext := cipher_encrypt key nonce plaintextBytes in
    (Ok (mk_encrypted ciphertext nonce), g').

(** crypto/decrypt.ts, [decrypt]; the [console.error] of the catch block
    writes to the log only. *)
Definition decrypt `{Platform} (ciphertext nonce key : bytes) : result jsstring :=
  if negb (length key =? 32)%nat then Throw (js "Key must be 32 bytes")
  else if negb (length nonce =? 24)%nat then Throw (js "Nonce must be 24 bytes")
  else
    match cipher_decrypt key nonce ciphertext with
    | Ok plaintextBytes => Ok (TextDecoder_decode plaintextBytes)
    | Throw _ => Throw (js "Decryption failed: invalid key or tampered data")
    end.

(** crypto/types.ts *)
Record DerivedKey : Type := mk_derived {
  dk_key : bytes;
  dk_salt : bytes
}.

Record KeyDerivationParams : Type := mk_kdf {
  memory : Z;
  iterations : Z;
  parallelism : Z;
  keyLength : Z
}.

Definition DEFAULT_KDF_PARAMS : KeyDerivationParams := mk_kdf 65536 3 4 32.

(** [Partial<KeyDerivationParams>]: a field is present or left out. *)
Record PartialKdfParams : Type := mk_partial_kdf {
  p_memory : option Z;
  p_iterations : option Z;
  p_parallelism : option Z;
  p_keyLength : option Z
}.

(** The default argument [params = {}]. *)
Definition no_params : PartialKdfParams := mk_partial_kdf None None None None.

(** [{ ...DEFAULT_KDF_PARAMS, ...params }] *)
Definition merge_params (d : KeyDerivationParams) (p : PartialKdfParams)
  : KeyDerivationParams :=
  mk_kdf (default (memory d) (p_memory p))
         (default (iterations d) (p_iterations p))
         (default (parallelism d) (p_parallelism p))
         (default (keyLength d) (p_keyLength p)).

(** crypto/key-derivation.ts, [deriveKey] *)
Definition deriveKey `{Platform} (password : jsstring) (params : PartialKdfParams)
  (g : Entropy) : result DerivedKey * Entropy :=
  if str_empty password then (Throw (js "Password cannot be empty"), g)
  else
    let kdfParams := merge_params DEFAULT_KDF_PARAMS params in
    let '(salt, g') := randomBytes 16 g in
    match argon2id password salt (memory kdfParams) (iterations kdfParams)
            (parallelism kdfParams) (keyLength kdfParams) with
    | Ok key => (Ok (mk_derived key salt), g')
    | Throw m => (Throw m, g')
    end.

(** crypto/key-derivation.ts, [rederiveKey] *)
Definition rederiveKey `{Platform} (password : jsstring) (salt : bytes)
  (params : PartialKdfParams) : result DerivedKey :=
  if str_empty password then Throw (js "Password cannot be empty")
  else
    let kdfParams := merge_params DEFAULT_KDF_PARAMS params in
    if negb (length salt =? 16)%nat then Throw (js "Salt must be 16 bytes")
    else
      match argon2id password salt (memory kdfParams) (iterations kdfParams)
              (parallelism kdfParams) (keyLength kdfParams) with
      | Ok key => Ok (mk_derived key salt)
      | Throw m => Throw m
      end.

(* ================================================================== *)
(** ** lib/storage/database.ts: the table and the monad *)
(* ================================================================== *)

(** A row of the table [evidences]; [rowToEvidence] copies it field by
    field, so the row and the [Evidence] object are one record here.  The
    field [id] of the source is [ev_id]. *)
Record Evidence : Type := mk_evidence {
  ev_id : jsstring;
  timestamp : jsstring;
  conversationId : jsstring;
  llmProvider : jsstring;
  encryptedContent : bytes;
  nonce : bytes;
  contentHash : jsstring;
  messageCount : Z;
  gitCommitHash : option jsstring;
  gitTimestamp : option jsstring;
  tags : option jsstring;
  createdAt : jsstring;
  updatedAt : jsstring
}.

#[global] Instance Evidence_eq_dec : EqDecision Evidence.
Proof. solve_decision. Defined.

(** The database handle and what surrounds it: the rows of the table in
    rowid order, the faults the next statements will meet ([Some m]: the
    statement throws an [SqliteError] with message [m]; an exhausted
    schedule means no more faults), and the reading of the clock. *)
Record World : Type := mk_world {
  evidences : list Evidence;
  faults : list (option jsstring);
  clock : nat
}.

Definition DB (A : Type) : Type := World -> result A * World.

Definition ret {A} (a : A) : DB A := fun w => (Ok a, w).

Definition throw {A} (message : jsstring) : DB A := fun w => (Throw message, w).

Definition bind {A B} (m : DB A) (k : A -> DB B) : DB B :=
  fun w =>
    match m w with
    | (Ok a, w') => k a w'
    | (Throw e, w') => (Throw e, w')
    end.

Notation "'let*' x ':=' m 'in' k" := (bind m (fun x => k))
  (at level 10, x pattern, m at level 100, k at level 200).

(** [try { m } catch (error) { throw new Error(prefix + error.message) }] *)
Definition try_catch {A} (prefix : jsstring) (m : DB A) : DB A :=
  fun w => let '(r, w') := m w in (rethrow prefix r, w').

(** Running one prepared statement: it meets the next scheduled fault. *)
Definition statement : DB unit :=
  fun w =>
    match faults w with
    | [] => (Ok tt, w)
    | None :: fs => (Ok tt, mk_world (evidences w) fs (clock w))
    | Some m :: fs => (Throw m, mk_world (evidences w) fs (clock w))
    end.

(** [stmt.get] / [stmt.all]: a query over the rows. *)
Definition select {A} (q : list Evidence -> A) : DB A :=
  let* _ := statement in fun w => (Ok (q (evidences w)), w).

(** [stmt.run]: an update of the rows; the result is [changes]. *)
Definition run (u : list Evidence -> list Evidence * Z) : DB Z :=
  let* _ := statement in
  fun w => let '(rows, changes) := u (evidences w) in
           (Ok changes, mk_world rows (faults w) (clock w)).

(** [new Date().toISOString()] *)
Definition Date_now `{Platform} : DB jsstring :=
  fun w => (Ok (toISOString (clock w)),
            mk_world (evidences w) (faults w) (S (clock w))).

(** [db.transaction(fn)()] of better-sqlite3: BEGIN, the body, COMMIT; when
    the body or the COMMIT throws, ROLLBACK restores the rows and the
    exception goes on. *)
Definition transaction {A} (body : DB A) : DB A :=
  fun w =>
    match statement w with
    | (Throw e, w0) => (Throw e, w0)
    | (Ok _, w0) =>
        match body w0 with
        | (Throw e, w1) => (Throw e, mk_world (evidences w0) (faults w1) (clock w1))
        | (Ok a, w1) =>
            match statement w1 with
            | (Ok _, w2) => (Ok a, w2)
            | (Throw e, w2) => (Throw e, mk_world (evidences w0) (faults w2) (clock w2))
            end
        end
    end.

(* ------------------------------------------------------------------ *)
(** *** SQL: TEXT values, LIKE, ORDER BY, LIMIT and OFFSET *)

(** Comparison of TEXT values in SQLite's BINARY collation: [memcmp] on
    the UTF-8 bytes, and on a common prefix the shorter value first. *)
Fixpoint bytes_leb (a b : bytes) : bool :=
  match a, b with
  | [], _ => true
  | _ :: _, [] => false
  | x :: a', y :: b' => (x <? y) || ((x =? y) && bytes_leb a' b')
  end.

(** [a <= b] on TEXT values. *)
Definition str_leb (a b : jsstring) : bool :=
  bytes_leb (TextEncoder_encode a) (TextEncoder_encode b).

(** SQLite folds the case of ASCII letters in LIKE. *)
Definition sql_lower (c : Z) : Z :=
  if (65 <=? c) && (c <=? 90) then c + 32 else c.

(** The matching of LIKE, on characters: [%] matches any run of
    characters, [_] any one character, no escape character; other
    characters match up to ASCII case. *)
Fixpoint like_chars (pattern : list Z) : list Z -> bool :=
  match pattern with
  | [] => fun s => match s with [] => true | _ :: _ => false end
  | c :: pattern' =>
      if c =? percent then
        fix any (s : list Z) : bool :=
          like_chars pattern' s || match s with [] => false | _ :: s' => any s' end
      else
        fun s =>
          match s with
          | [] => false
          | d :: s' =>
              ((c =? underscore) || (sql_lower c =? sql_lower d))
              && like_chars pattern' s'
          end
  end.

(** LIKE reads its two operands as C strings: each ends at its first
    NUL. *)
Fixpoint c_string (chars : list Z) : list Z :=
  match chars with
  | [] => []
  | c :: chars' => if c =? 0 then [] else c :: c_string chars'
  end.

(** The characters of a TEXT value as LIKE reads them: the code points of
    its UTF-8 bytes up to the first NUL. *)
Definition like_operand (s : jsstring) : list Z :=
  c_string (scalar_values s).

(** [s LIKE pattern], for a pattern that SQLite accepts (it fails the
    statement for one of more than 50000 bytes, see [fits_like]). *)
Definition like (pattern s : jsstring) : bool :=
  like_chars (like_operand pattern) (like_operand s).

(** [column LIKE pattern] on a nullable column: NULL is never selected. *)
Definition like_null (pattern : jsstring) (v : option jsstring) : bool :=
  match v with Some s => like pattern s | None => false end.

(** The index [idx_timestamp]: the rows by timestamp, the rows of one
    timestamp by rowid.  [index_insert] puts a row behind the entries that
    are not later than it. *)
Fixpoint index_insert (r : Evidence) (index : list Evidence) : list Evidence :=
  match index with
  | [] => [r]
  | e :: rest =>
      if str_leb (timestamp e) (timestamp r) then e :: index_insert r rest
      else r :: e :: rest
  end.

(** [ORDER BY timestamp ASC] of rows in rowid order: rows of one timestamp
    stay in rowid order (the index, and SQLite's own sorter, which keeps
    the order of its input among equal keys). *)
Definition order_by_timestamp (rows : list Evidence) : list Evidence :=
  fold_left (fun index r => index_insert r index) rows [].

(** The order of [ORDER BY timestamp DESC], as a relation. *)
Definition newer_first (a b : Evidence) : Prop :=
  str_leb (timestamp b) (timestamp a).

#[global] Instance newer_first_dec : RelDecision newer_first.
Proof. intros a b. unfold newer_first. apply _. Defined.

(** [ORDER BY timestamp DESC]: SQLite walks [idx_timestamp] backwards, so
    of two rows of one timestamp the one inserted last comes first. *)
Definition order_by_timestamp_desc (rows : list Evidence) : list Evidence :=
  rev (order_by_timestamp rows).

(** [LIMIT limit OFFSET offset]: a negative limit is no limit, a negative
    offset is no offset. *)
Definition sql_limit (limit offset : Z) (rows : list Evidence) : list Evidence :=
  let rest := drop (Z.to_nat offset) rows in
  if limit <? 0 then rest else take (Z.to_nat limit) rest.

(** The pagination clause that [list] and [search] append. *)
Definition paginate (limit : option Z) (offset : Z) (rows : list Evidence)
  : list Evidence :=
  match limit with
  | Some l => if 0 <? offset then sql_limit l offset rows else sql_limit l 0 rows
  | None => if 0 <? offset then sql_limit (-1) offset rows else rows
  end.

(* ------------------------------------------------------------------ *)
(** *** The operations of [EvidenceDatabase]

    The free text that a caller hands to a statement (a conversation id,
    a provider, tags, a search text) is stored, and compared, as text
    ([to_text]).  The other strings are ASCII by what they are, and ASCII
    is text as it is: the ids are values of [crypto.randomUUID()], the
    time stamps values of [toISOString], the hashes hexadecimal digests
    and commit hashes of git.  An id parameter that is not text is the id
    of no row either way, and is compared as it is. *)

(** [findById] *)
Definition findById (id : jsstring) : DB (option Evidence) :=
  try_catch (js "Failed to find evidence by ID: ")
    (select (fun rows => List.find (fun r => str_eqb (ev_id r) id) rows)).

Record ListOptions : Type := mk_list_options {
  lo_limit : option Z;
  lo_offset : option Z
}.

(** [list]; the method is [db_list] here. *)
Definition db_list (options : ListOptions) : DB (list Evidence) :=
  try_catch (js "Failed to list evidences: ")
    (let limit := lo_limit options in
     let offset := default 0 (lo_offset options) in
     select (fun rows => paginate limit offset (order_by_timestamp_desc rows))).

Record SearchOptions : Type := mk_search_options {
  query : option jsstring;
  so_tags : option (list jsstring);
  dateFrom : option jsstring;
  dateTo : option jsstring;
  so_limit : option Z;
  so_offset : option Z
}.

(** [(conversationId LIKE ? OR tags LIKE ?)] with [%query%] *)
Definition query_condition (q : jsstring) (r : Evidence) : bool :=
  let searchPattern := [percent] ++ trim q ++ [percent] in
  like searchPattern (conversationId r) || like_null searchPattern (tags r).

(** [(tags LIKE ? OR tags LIKE ? OR tags LIKE ? OR tags = ?)] for one tag *)
Definition tag_condition (tag : jsstring) (r : Evidence) : bool :=
  let trimmedTag := trim tag in
  like_null (trimmedTag ++ [comma; percent]) (tags r)
  || like_null ([percent; comma] ++ trimmedTag ++ [comma; percent]) (tags r)
  || like_null ([percent; comma] ++ trimmedTag) (tags r)
  || bool_decide (tags r = Some (to_text trimmedTag)).

(** The WHERE clause that [search] builds: the conditions joined by AND. *)
Definition where_clause (o : SearchOptions) (r : Evidence) : bool :=
  (match query o with
   | Some q => if negb (str_empty q) && negb (str_empty (trim q))
               then query_condition q r else true
   | None => true
   end)
  && (match so_tags o with
      | Some ts => forallb (fun tag => tag_condition tag r) ts
      | None => true
      end)
  && (match dateFrom o with
      | Some d => if str_empty d then true else str_leb d (timestamp r)
      | None => true
      end)
  && (match dateTo o with
      | Some d => if str_empty d then true else str_leb (timestamp r) d
      | None => true
      end).

(** [search] *)
Definition search (o : SearchOptions) : DB (list Evidence) :=
  try_catch (js "Failed to search evidences: ")
    (select (fun rows =>
       paginate (so_limit o) (default 0 (so_offset o))
         (order_by_timestamp_desc (List.filter (where_clause o) rows)))).

(** [UPDATE evidences SET tags = ?, updatedAt = ? WHERE id = ?] *)
Definition set_tags (id : jsstring) (new_tags : option jsstring) (now : jsstring)
  (r : Evidence) : Evidence :=
  if str_eqb (ev_id r) id then
    mk_evidence (ev_id r) (timestamp r) (conversationId r) (llmProvider r)
      (encryptedContent r) (nonce r) (contentHash r) (messageCount r)
      (gitCommitHash r) (gitTimestamp r) (option_map to_text new_tags)
      (createdAt r) now
  else r.

Definition update_tags_sql (id : jsstring) (new_tags : option jsstring)
  (now : jsstring) (rows : list Evidence) : list Evidence * Z :=
  (map (set_tags id new_tags now) rows,
   Z.of_nat (length (List.filter (fun r => str_eqb (ev_id r) id) rows))).

(** [updateTags] *)
Definition updateTags `{Platform} (id : jsstring) (new_tags : option jsstring)
  : DB bool :=
  try_catch (js "Failed to update tags: ")
    (let* now := Date_now in
     let* changes := run (update_tags_sql id new_tags now) in
     ret (0 <? changes)).

(** [addTags] *)
Definition addTags `{Platform} (id : jsstring) (new_tags : list jsstring) : DB unit :=
  try_catch (js "Failed to add tags: ")
    (if (length new_tags =? 0)%nat then throw (js "Tags array cannot be empty")
     else
       let validTags :=
         List.filter (fun t => negb (str_empty t)) (map trim new_tags) in
       if (length validTags =? 0)%nat
       then throw (js "All provided tags are empty or whitespace")
       else
         let* evidence := findById id in
         match evidence with
         | None => throw (js "Evidence with id " ++ id ++ js " not found")
         | Some e =>
             let existingTags := tokens_of (tags e) in
             let mergedTags := set_of (existingTags ++ validTags) in
             let* now := Date_now in
             let* _ := run (update_tags_sql id (Some (join [comma] mergedTags)) now) in
             ret tt
         end).

(** The search of [renameTag] and [removeTag]: [this.search({ tags: [tag] })] *)
Definition by_tag (tag : jsstring) : SearchOptions :=
  mk_search_options None (Some [tag]) None None None None.

(** The tag string that [renameTag] writes for a row with tag string [s]. *)
Definition renamed_tags (oldTag newTag s : jsstring) : jsstring :=
  let tags := map trim (split_comma s) in
  let newTags := map (fun t => if str_eqb t oldTag then newTag else t) tags in
  join [comma] newTags.

(** The loop of [renameTag] over the rows found. *)
Fixpoint rename_loop `{Platform} (oldTag newTag : jsstring) (found : list Evidence)
  (updatedCount : Z) : DB Z :=
  match found with
  | [] => ret updatedCount
  | evidence :: rest =>
      match tags evidence with
      | Some (c :: s) =>
          let* updated :=
            updateTags (ev_id evidence) (Some (renamed_tags oldTag newTag (c :: s))) in
          rename_loop oldTag newTag rest
            (if updated then updatedCount + 1 else updatedCount)
      | _ => rename_loop oldTag newTag rest updatedCount
      end
  end.

(** [renameTag] *)
Definition renameTag `{Platform} (oldTag newTag : jsstring) : DB Z :=
  try_catch (js "Failed to rename tag: ")
    (transaction
       (let* found := search (by_tag oldTag) in
        rename_loop oldTag newTag found 0)).

(** The tags that [removeTag] writes for a row with tag string [s]. *)
Definition removed_tags (tag s : jsstring) : option jsstring :=
  let tags := List.filter (fun t => negb (str_eqb t tag)) (map trim (split_comma s)) in
  if (0 <? length tags)%nat then Some (join [comma] tags) else None.

(** The loop of [removeTag] over the rows found. *)
Fixpoint remove_loop `{Platform} (tag : jsstring) (found : list Evidence)
  (updatedCount : Z) : DB Z :=
  match found with
  | [] => ret updatedCount
  | evidence :: rest =>
      match tags evidence with
      | Some (c :: s) =>
          let* updated := updateTags (ev_id evidence) (removed_tags tag (c :: s)) in
          remove_loop tag rest (if updated then updatedCount + 1 else updatedCount)
      | _ => remove_loop tag rest updatedCount
      end
  end.

(** [removeTag] *)
Definition removeTag `{Platform} (tag : jsstring) : DB Z :=
  try_catch (js "Failed to remove tag: ")
    (transaction
       (let* found := search (by_tag tag) in
        remove_loop tag found 0)).

(* ================================================================== *)
(** ** lib/storage/export.ts *)
(* ================================================================== *)

(** [filter] and [map] with a callback that reads the database. *)
Fixpoint filterM {A} (p : A -> DB bool) (l : list A) : DB (list A) :=
  match l with
  | [] => ret []
  | x :: l' =>
      let* keep := p x in
      let* rest := filterM p l' in
      ret (if keep then x :: rest else rest)
  end.

Fixpoint mapM {A B} (f : A -> DB B) (l : list A) : DB (list B) :=
  match l with
  | [] => ret []
  | x :: l' =>
      let* y := f x in
      let* rest := mapM f l' in
      ret (y :: rest)
  end.

(** The file holds two copies of [exportEvidences]: the earlier one names
    things after evidences, the later one after footprints.  They differ
    in these strings only. *)
Inductive ExportVariant : Type := EvidenceExport | FootprintExport.

Definition noun (v : ExportVariant) : jsstring :=
  match v with EvidenceExport => js "Evidence" | FootprintExport => js "Footprint" end.

Definition nouns (v : ExportVariant) : jsstring :=
  match v with EvidenceExport => js "evidences" | FootprintExport => js "footprints" end.

Definition file_stem (v : ExportVariant) : jsstring :=
  match v with
  | EvidenceExport => js "evidence-export-"
  | FootprintExport => js "footprint-export-"
  end.

Definition ids_parameter (v : ExportVariant) : jsstring :=
  match v with EvidenceExport => js "evidenceIds" | FootprintExport => js "ids" end.

Definition count_field (v : ExportVariant) : jsstring :=
  match v with
  | EvidenceExport => js "evidenceCount"
  | FootprintExport => js "footprintCount"
  end.

Record ExportOptions : Type := mk_export_options {
  ids : option (list jsstring);
  includeGitInfo : option bool
}.

(** [ExportResult]; the earlier copy calls the count [evidenceCount]. *)
Record ExportResult : Type := mk_export_result {
  filename : jsstring;
  zipData : bytes;
  checksum : jsstring;
  footprintCount : Z
}.

Definition EXPORT_FORMAT_VERSION : jsstring := js "1.0.0".
Definition MAX_EXPORT_SIZE_MB : Z := 100.

Definition json_nullable (o : option jsstring) : json :=
  match o with Some s => JString s | None => JNull end.

(** The object written to [manifest.json]. *)
Definition manifest (v : ExportVariant) (exportDate : jsstring) (count : Z)
  (includeGit : bool) : json :=
  JObject [(js "version", JString EXPORT_FORMAT_VERSION);
           (js "exportDate", JString exportDate);
           (count_field v, JNumber count);
           (js "includeGitInfo", JBool includeGit)].

(** The object written to [metadata.json]. *)
Definition metadata (fp : Evidence) : json :=
  JObject [(js "id", JString (ev_id fp));
           (js "timestamp", JString (timestamp fp));
           (js "conversationId", JString (conversationId fp));
           (js "llmProvider", JString (llmProvider fp));
           (js "contentHash", JString (contentHash fp));
           (js "messageCount", JNumber (messageCount fp));
           (js "tags", json_nullable (tags fp));
           (js "nonce", JArray (map JNumber (nonce fp)))].

(** The object written to [git-info.json]. *)
Definition gitInfo (commit stamp : jsstring) : json :=
  JObject [(js "gitCommitHash", JString commit); (js "gitTimestamp", JString stamp)].

(** One line of the checksum manifest: the hash, two spaces, the path. *)
Definition checksum_line (hash path : jsstring) : jsstring :=
  hash ++ js "  " ++ path.

Definition folder_of (v : ExportVariant) (fp : Evidence) : jsstring :=
  nouns v ++ js "/" ++ ev_id fp.

(** The archive under construction: the entries of the JSZip object (a
    later [zip.file] of the same name replaces the earlier one) and the
    checksum lines collected so far. *)
Definition archive : Type := gmap jsstring zipdata * list jsstring.

(** One round of the loop [for (const fp of footprints)]. *)
Definition add_footprint `{Platform} (v : ExportVariant) (includeGit : bool)
  (a : archive) (fp : Evidence) : archive :=
  let '(zip, checksumEntries) := a in
  let fpFolder := folder_of v fp in
  let zip := <[fpFolder ++ js "/encrypted-data" := Binary (encryptedContent fp)]> zip in
  let dataChecksum := sha256_hex (encryptedContent fp) in
  let checksumEntries :=
    checksumEntries ++ [checksum_line dataChecksum (fpFolder ++ js "/encrypted-data")] in
  let metadataJson := JSON_stringify (metadata fp) in
  let zip := <[fpFolder ++ js "/metadata.json" := Text metadataJson]> zip in
  let metadataChecksum := sha256_hex_string metadataJson in
  let checksumEntries :=
    checksumEntries ++ [checksum_line metadataChecksum (fpFolder ++ js "/metadata.json")] in
  match gitCommitHash fp, gitTimestamp fp with
  | Some (c :: commit), Some (t :: stamp) =>
      if includeGit then
        let gitInfoJson := JSON_stringify (gitInfo (c :: commit) (t :: stamp)) in
        let zip := <[fpFolder ++ js "/git-info.json" := Text gitInfoJson]> zip in
        let gitChecksum := sha256_hex_string gitInfoJson in
        (zip, checksumEntries ++ [checksum_line gitChecksum (fpFolder ++ js "/git-info.json")])
      else (zip, checksumEntries)
  | _, _ => (zip, checksumEntries)
  end.

(** The text of [checksum.txt]. *)
Definition checksumContent (checksumEntries : list jsstring) : jsstring :=
  join [newline]
    ([js "SHA-256 Checksums"; js "================="; js ""] ++ checksumEntries).

(** The entries of the finished archive. *)
Definition build_zip `{Platform} (v : ExportVariant) (includeGit : bool)
  (exportDate : jsstring) (footprints : list Evidence) : gmap jsstring zipdata :=
  let zip : gmap jsstring zipdata :=
    <[js "manifest.json" :=
        Text (JSON_stringify
                (manifest v exportDate (Z.of_nat (length footprints)) includeGit))]> ∅ in
  let '(zip, checksumEntries) :=
    fold_left (add_footprint v includeGit) footprints (zip, []) in
  <[js "checksum.txt" := Text (checksumContent checksumEntries)]> zip.

(** [reduce((sum, e) => sum + e.encryptedContent.length, 0)] *)
Definition payload_bytes (footprints : list Evidence) : Z :=
  fold_left (fun sum e => sum + Z.of_nat (length (encryptedContent e))) footprints 0.

(** [(sum / (1024 * 1024)).toFixed(1)]: the quotient rounded to one
    decimal, halves upwards. *)
Definition megabytes_toFixed1 (sum : Z) : jsstring :=
  let tenths := (10 * sum + 524288) / 1048576 in
  Z_to_js (tenths / 10) ++ js "." ++ Z_to_js (tenths mod 10).

(** [isoString.split('T')[0]] *)
Fixpoint before_T (s : jsstring) : jsstring :=
  match s with
  | [] => []
  | c :: s' => if c =? 84 then [] else c :: before_T s'
  end.

(** [exportEvidences] *)
Definition exportEvidences `{Platform} (v : ExportVariant) (options : ExportOptions)
  : DB ExportResult :=
  try_catch (js "Failed to export " ++ nouns v ++ js ": ")
    (let includeGit := default false (includeGitInfo options) in
     let* footprints :=
       match ids options with
       | Some ids =>
           let* notFound :=
             filterM (fun id => let* found := findById id in
                                ret (negb (bool_decide (is_Some found)))) ids in
           if (0 <? length notFound)%nat
           then throw (noun v ++ js " IDs not found: " ++ join (js ", ") notFound)
           else
             mapM (fun id =>
                     let* found := findById id in
                     match found with
                     | None => throw (noun v ++ js " " ++ id ++ js " not found")
                     | Some footprint => ret footprint
                     end) ids
       | None => db_list (mk_list_options None None)
       end in
     let sum := payload_bytes footprints in
     if MAX_EXPORT_SIZE_MB * 1048576 <? sum
     then throw (js "Export size (" ++ megabytes_toFixed1 sum ++ js "MB) exceeds limit ("
                 ++ Z_to_js MAX_EXPORT_SIZE_MB
                 ++ js "MB). Please export in smaller batches using the "
                 ++ ids_parameter v ++ js " parameter.")
     else
       let* exportDate := Date_now in
       let zip := build_zip v includeGit exportDate footprints in
       let zipData := zip_generate zip in
       let zipChecksum := sha256_hex zipData in
       let* stamp := Date_now in
       let filename := file_stem v ++ before_T stamp ++ js ".zip" in
       ret (mk_export_result filename zipData zipChecksum (Z.of_nat (length footprints)))).

(* ================================================================== *)
(** ** lib/tool-wrapper.ts and lib/tool-response.ts *)
(* ================================================================== *)

(** [wrapToolHandler] *)
Definition wrapToolHandler {A} (toolName suggestedAction : jsstring) (handler : DB A)
  : DB A :=
  fun w =>
    match handler w with
    | (Ok a, w') => (Ok a, w')
    | (Throw errorMessage, w') =>
        (Throw (js "[Tool: " ++ toolName ++ js "] " ++ errorMessage
                ++ js ". Suggested action: " ++ suggestedAction), w')
    end.

(** A tool response: the texts of its content items and the structured
    content. *)
Record ToolResponse (T : Type) : Type := mk_response {
  content : list jsstring;
  structuredContent : T
}.
Arguments mk_response {T} content structuredContent.
Arguments content {T} t.
Arguments structuredContent {T} t.

(** [createToolResponse] *)
Definition createToolResponse {T} (message : jsstring) (structured : T)
  : ToolResponse T :=
  mk_response [message] structured.

(** [formatBulletList] with the default indent; a value is already
    rendered, [None] is a null or undefined value. *)
Definition formatBulletList (items : list (jsstring * option jsstring)) : jsstring :=
  join [newline]
    (omap (fun item => match snd item with
                       | Some value => Some (js "- " ++ fst item ++ js ": " ++ value)
                       | None => None
                       end) items).

Definition check_mark : jsstring := [0x2705].
Definition cross_mark : jsstring := [0x274C].

(** [formatSuccessResponse] *)
Definition formatSuccessResponse {T} (title : jsstring)
  (details : list (jsstring * option jsstring)) (structured : T) : ToolResponse T :=
  createToolResponse (check_mark ++ js " " ++ title ++ [newline] ++ formatBulletList details)
    structured.

(* ================================================================== *)
(** ** tools/list-footprints.ts *)
(* ================================================================== *)

Record ListParams : Type := mk_list_params {
  lp_limit : option Z;
  lp_offset : option Z
}.

Record FootprintSummary : Type := mk_summary {
  fs_id : jsstring;
  fs_timestamp : jsstring;
  fs_conversationId : jsstring;
  fs_llmProvider : jsstring;
  fs_messageCount : Z;
  fs_tags : option jsstring
}.

Record ListResult : Type := mk_list_result {
  footprints : list FootprintSummary;
  total : Z
}.

Definition summary (fp : Evidence) : FootprintSummary :=
  mk_summary (ev_id fp) (timestamp fp) (conversationId fp) (llmProvider fp)
    (messageCount fp) (tags fp).

(** [value || fallback] for an optional number. *)
Definition number_or (o : option Z) (fallback : jsstring) : jsstring :=
  match o with
  | Some n => if n =? 0 then fallback else Z_to_js n
  | None => fallback
  end.

(** The handler that [createListFootprintsHandler] returns. *)
Definition list_footprints (params : ListParams) : DB (ToolResponse ListResult) :=
  wrapToolHandler (js "list-footprints")
    (js "Ensure limit is positive and offset is non-negative.")
    (if match lp_limit params with Some l => l <=? 0 | None => false end
     then throw (js "Limit must be positive")
     else if match lp_offset params with Some o => o <? 0 | None => false end
     then throw (js "Offset cannot be negative")
     else
       let* found := db_list (mk_list_options (lp_limit params) (lp_offset params)) in
       let mappedFootprints := map summary found in
       ret (formatSuccessResponse (js "Footprint list retrieved successfully")
              [(js "Count", Some (Z_to_js (Z.of_nat (length found)) ++ js " footprint(s)"));
               (js "Limit", Some (number_or (lp_limit params) (js "No limit")));
               (js "Offset", Some (number_or (lp_offset params) (js "0")))]
              (mk_list_result mappedFootprints (Z.of_nat (length found))))).

(* ================================================================== *)
(** ** tools/verify-footprint.ts *)
(* ================================================================== *)

Record ContentIntegrity : Type := mk_content_integrity {
  ci_passed : bool;
  ci_hash : jsstring
}.

Record GitTimestamp : Type := mk_git_timestamp {
  gt_passed : bool;
  gt_commitHash : option jsstring;
  gt_timestamp : option jsstring
}.

Record EncryptionStatus : Type := mk_encryption_status {
  es_passed : bool;
  es_algorithm : jsstring
}.

Record Checks : Type := mk_checks {
  contentIntegrity : ContentIntegrity;
  gitTimestampCheck : GitTimestamp;
  encryptionStatus : EncryptionStatus
}.

Record VerifyResult : Type := mk_verify_result {
  vr_id : jsstring;
  verified : bool;
  checks : Checks;
  legalReadiness : bool;
  verifiedAt : jsstring
}.

Definition status_symbol (passed : bool) : jsstring :=
  if passed then [0x2713] else [0x2717].

(** The handler that [createVerifyFootprintHandler] returns;
    [getDerivedKey] is the server's key cache. *)
Definition verify_footprint `{Platform} (getDerivedKey : DB bytes) (id : jsstring)
  : DB (ToolResponse VerifyResult) :=
  wrapToolHandler (js "verify-footprint")
    (js "Verify the footprint ID exists and encryption password is correct.")
    (let* found := findById id in
     match found with
     | None => throw (js "Footprint with ID " ++ id ++ js " not found")
     | Some fp =>
         let* key := getDerivedKey in
         let '(integrity, encryption) :=
           match decrypt (encryptedContent fp) (nonce fp) key with
           | Ok decryptedContent =>
               let computedHash := sha256_hex_string decryptedContent in
               (mk_content_integrity (str_eqb computedHash (contentHash fp)) computedHash,
                mk_encryption_status true (js "XChaCha20-Poly1305"))
           | Throw _ =>
               (mk_content_integrity false (js ""),
                mk_encryption_status false (js "XChaCha20-Poly1305"))
           end in
         let git :=
           mk_git_timestamp (truthy (gitCommitHash fp) && truthy (gitTimestamp fp))
             (gitCommitHash fp) (gitTimestamp fp) in
         let all := mk_checks integrity git encryption in
         let verified := ci_passed integrity && gt_passed git && es_passed encryption in
         let legalReadiness := verified in
         let statusText :=
           if verified then
             check_mark ++ js " Footprint " ++ id ++ js " verified successfully"
             ++ [newline] ++ js "- Content: " ++ status_symbol (ci_passed integrity)
             ++ js " Integrity preserved"
             ++ [newline] ++ js "- Git: " ++ status_symbol (gt_passed git)
             ++ js " Timestamp verified"
             ++ [newline] ++ js "- Encryption: " ++ status_symbol (es_passed encryption)
             ++ js " XChaCha20-Poly1305"
           else
             cross_mark ++ js " Footprint " ++ id ++ js " verification failed"
             ++ [newline] ++ js "- Content: " ++ status_symbol (ci_passed integrity)
             ++ js " Integrity check"
             ++ [newline] ++ js "- Git: " ++ status_symbol (gt_passed git)
             ++ js " Timestamp check"
             ++ [newline] ++ js "- Encryption: " ++ status_symbol (es_passed encryption)
             ++ js " Decryption check" in
         let* now := Date_now in
         ret (createToolResponse statusText
                (mk_verify_result id verified all legalReadiness now))
     end).

(* ================================================================== *)
(** ** A platform to run the definitions on

    A small instance of [Platform] for evaluating the embedding on
    concrete inputs.  Its cipher appends a 16-byte tag made of key and
    nonce bytes and checks it on opening; its key derivation, hash and
    serializers are simple total functions of their inputs. *)
(* ================================================================== *)

Definition sample_tag (key nonce : bytes) : bytes := take 8 key ++ take 8 nonce.

Definition sample_encrypt (key nonce plaintext : bytes) : bytes :=
  plaintext ++ sample_tag key nonce.

Definition sample_decrypt (key nonce sealed : bytes) : result bytes :=
  let n := (length sealed - 16)%nat in
  if (16 <=? length sealed)%nat && bool_decide (drop n sealed = sample_tag key nonce)
  then Ok (take n sealed)
  else Throw (js "invalid tag").

Definition sample_argon2id (password : jsstring) (salt : bytes) (m t p dkLen : Z)
  : result bytes :=
  Ok (map (fun i => (nth i (salt ++ password) 0 + m + t + p + Z.of_nat i) mod 256)
        (seq 0 (Z.to_nat dkLen))).

Definition sample_sha256_hex (data : bytes) : jsstring :=
  Z_to_js (fold_left (fun h x => (31 * h + x) mod 65521) data 7).

Fixpoint sample_stringify (value : json) : jsstring :=
  match value with
  | JNull => js "null"
  | JBool true => js "true"
  | JBool false => js "false"
  | JNumber n => Z_to_js n
  | JString s => [34] ++ s ++ [34]
  | JArray items => js "[" ++ join [comma] (map sample_stringify items) ++ js "]"
  | JObject fields =>
      js "{"
      ++ join [comma]
           (map (fun kv => [34] ++ fst kv ++ [34] ++ js ":" ++ sample_stringify (snd kv))
              fields)
      ++ js "}"
  end.

Definition sample_toISOString (tick : nat) : jsstring :=
  js "2026-01-01T00:00:00." ++ Z_to_js (Z.of_nat tick) ++ js "Z".

Definition sample_zip_generate (zip : gmap jsstring zipdata) : bytes :=
  flat_map (fun entry => fst entry ++ match snd entry with
                                      | Binary b => b
                                      | Text s => s
                                      end) (map_to_list zip).

Definition sample_platform : Platform := {|
  cipher_encrypt := sample_encrypt;
  cipher_decrypt := sample_decrypt;
  argon2id := sample_argon2id;
  sha256_hex := sample_sha256_hex;
  JSON_stringify := sample_stringify;
  toISOString := sample_toISOString;
  zip_generate := sample_zip_generate
|}.

Definition sample_key : bytes := map Z.of_nat (seq 1 32).

Definition sample_entropy : Entropy := mk_entropy (fun i => Z.of_nat (7 * i + 3)) 0.

(** Rows and worlds for the examples: a record that holds the sealed text
    "Hello world", and a world without scheduled faults. *)
Definition sample_row (id stamp : string) (tag : option jsstring) : Evidence :=
  mk_evidence (js id) (js stamp) (js "conv") (js "provider")
    (sample_encrypt sample_key (map Z.of_nat (seq 0 24)) (TextEncoder_encode (js "Hello world")))
    (map Z.of_nat (seq 0 24))
    (sample_sha256_hex (TextEncoder_encode (js "Hello world"))) 2 None None
    tag (js stamp) (js stamp).

Definition sample_world (rows : list Evidence) : World := mk_world rows [] 0.

(** A record whose stored ciphertext is too short to carry a tag. *)
Definition tampered_row : Evidence :=
  mk_evidence (js "r1") (js "2026-01-01") (js "conv") (js "provider")
    [1; 2; 3] (map Z.of_nat (seq 0 24)) (js "00") 2 None None None
    (js "2026-01-01") (js "2026-01-01").

(** A world whose fourth statement fails: BEGIN, the search and the first
    UPDATE of a loop pass, the second UPDATE throws. *)
Definition failing_world : World :=
  mk_world [sample_row "r1" "2026-01-01" (Some (js "api,draft"));
            sample_row "r2" "2026-01-02" (Some (js "api"));
            sample_row "r3" "2026-01-03" (Some (js "apigee"))]
    [None; None; None; Some (js "disk I/O error")] 0.

(* ================================================================== *)
(** ** Vocabulary of the properties *)
(* ================================================================== *)

(** A tag without the separator, and a tag that [trim] leaves as it is. *)
Definition comma_free (s : jsstring) : Prop := Forall (fun c => c <> comma) s.

Definition trimmed (s : jsstring) : Prop := trim s = s.

Definition starts_clean (s : jsstring) : Prop :=
  match s with [] => True | c :: _ => is_ws c = false end.

(** A string that a TEXT column can hold: without unpaired surrogates, so
    that it is stored as it is; and a string without NUL, which LIKE
    reads to its end. *)
Definition text (s : jsstring) : Prop := well_formed s = true.

Definition nul_free (s : jsstring) : Prop := Forall (fun c => c <> 0) s.

(** The tag strings of a table are text, as the strings of a database
    file are. *)
Definition text_tags (rows : list Evidence) : Prop :=
  Forall (fun r => forall s, tags r = Some s -> text s) rows.

(** SQLite runs LIKE for a pattern of at most 50000 bytes and fails the
    statement for a longer one ("LIKE or GLOB pattern too complex"), which
    the model leaves out: what is said of a search by tag that returns is
    said for a tag whose patterns, four bytes longer at most, are within
    the limit. *)
Definition fits_like (tag : jsstring) : Prop :=
  Z.of_nat (length (TextEncoder_encode (trim tag))) + 4 <= 50000.

(** The row that a tag rewrite leaves for [r]: its tag string [s] replaced
    by [f s], stored as text, and [updatedAt] set; a row without a tag
    string stays. *)
Definition rewrite_row (f : jsstring -> option jsstring) (now : jsstring)
  (r : Evidence) : Evidence :=
  match tags r with
  | Some (c :: s) =>
      mk_evidence (ev_id r) (timestamp r) (conversationId r) (llmProvider r)
        (encryptedContent r) (nonce r) (contentHash r) (messageCount r)
        (gitCommitHash r) (gitTimestamp r) (option_map to_text (f (c :: s)))
        (createdAt r) now
  | _ => r
  end.

(** A table after a tag rewrite of the rows that [selected] picks. *)
Definition rewritten (selected : Evidence -> bool) (f : jsstring -> option jsstring)
  (before after : list Evidence) : Prop :=
  Forall2 (fun r r' => if selected r then exists now, r' = rewrite_row f now r
                       else r' = r) before after.

(** The loop shared by [renameTag] and [removeTag]. *)
Fixpoint tag_loop `{Platform} (f : jsstring -> option jsstring)
  (found : list Evidence) (updatedCount : Z) : DB Z :=
  match found with
  | [] => ret updatedCount
  | evidence :: rest =>
      match tags evidence with
      | Some (c :: s) =>
          let* updated := updateTags (ev_id evidence) (f (c :: s)) in
          tag_loop f rest (if updated then updatedCount + 1 else updatedCount)
      | _ => tag_loop f rest updatedCount
      end
  end.

(** The rows while the loop runs: each row of the snapshot [rows], with
    the rewrite applied to those the loop has stamped. *)
Definition stamped (f : jsstring -> option jsstring)
  (stamp : Evidence -> option jsstring) (r : Evidence) : Evidence :=
  match stamp r with
  | Some now => rewrite_row f now r
  | None => r
  end.

(** [renameTag] and [removeTag] as one operation: the transaction around
    the search by tag and the loop. *)
Definition retag `{Platform} (prefix tag : jsstring) (f : jsstring -> option jsstring)
  : DB Z :=
  try_catch prefix
    (transaction (let* found := search (by_tag tag) in tag_loop f found 0)).

(** The rows that [renameTag] and [removeTag] rewrite and count. *)
Definition selected (tag : jsstring) (r : Evidence) : bool :=
  tag_condition tag r && truthy (tags r).

(** A tag that is not the empty string. *)
Abbreviation nonblank := (fun t : jsstring => negb (str_empty t)).

(** What [renameTag] does to one tag. *)
Definition replace_tag (oldTag newTag t : jsstring) : jsstring :=
  if str_eqb t oldTag then newTag else t.

(** A world of three tagged records. *)
Definition tagged_world : World :=
  sample_world [sample_row "r1" "2026-01-01" (Some (js "api,draft"));
                sample_row "r2" "2026-01-02" (Some (js "API,x"));
                sample_row "r3" "2026-01-03" (Some (js "apigee"))].


(** The hash that the checksum manifest gives for the data of an entry. *)
Definition file_hash `{Platform} (data : zipdata) : jsstring :=
  match data with
  | Binary b => sha256_hex b
  | Text s => sha256_hex_string s
  end.

(** The files that the export writes for one record, in order. *)
Definition record_files `{Platform} (v : ExportVariant) (includeGit : bool)
  (fp : Evidence) : list (jsstring * zipdata) :=
  [(folder_of v fp ++ js "/encrypted-data", Binary (encryptedContent fp));
   (folder_of v fp ++ js "/metadata.json", Text (JSON_stringify (metadata fp)))]
  ++ match gitCommitHash fp, gitTimestamp fp with
     | Some (c :: commit), Some (t :: stamp) =>
         if includeGit
         then [(folder_of v fp ++ js "/git-info.json",
                Text (JSON_stringify (gitInfo (c :: commit) (t :: stamp))))]
         else []
     | _, _ => []
     end.

(** The line of the checksum manifest for a file. *)
Definition file_line `{Platform} (file : jsstring * zipdata) : jsstring :=
  checksum_line (file_hash (snd file)) (fst file).

(** [zip.file(name, data)] *)
Definition write_file (zip : gmap jsstring zipdata) (file : jsstring * zipdata)
  : gmap jsstring zipdata :=
  <[fst file := snd file]> zip.

(** The records that an export by ids reads: the row of each id, in the
    order of the ids. *)
Definition records_of (rows : list Evidence) (ids : list jsstring) : list Evidence :=
  omap (fun id => List.find (fun r => str_eqb (ev_id r) id) rows) ids.

(** The records that [exportEvidences] packs, without I/O faults. *)
Definition exported (options : ExportOptions) (rows : list Evidence) : list Evidence :=
  match ids options with
  | Some idl => records_of rows idl
  | None => order_by_timestamp_desc rows
  end.

(** Scalar values: code points that are not surrogates. *)
Definition scalar (cp : Z) : Prop :=
  0 <= cp < 0x110000 /\ ~ (0xD800 <= cp <= 0xDFFF).

(* ================================================================== *)
(** * The rest of the store

    The operations of the server around the ones above: the remaining
    methods of [EvidenceDatabase], [verifyKey], the salt storage and the
    key cache of the server, and the handlers of the other tools. *)
(* ================================================================== *)

(* ------------------------------------------------------------------ *)
(** ** crypto/key-derivation.ts: [verifyKey] *)

(** [timingSafeEqual(a, b)] of node:crypto: a [RangeError] when the byte
    lengths differ. *)
Definition timingSafeEqual (a b : bytes) : result bool :=
  if (length a =? length b)%nat then Ok (bool_decide (a = b))
  else Throw (js "Input buffers must have the same byte length").

(** [verifyKey]; its [catch] turns the error of [timingSafeEqual] into
    [false]. *)
Definition verifyKey `{Platform} (password : jsstring) (salt expectedKey : bytes)
  (params : PartialKdfParams) : result bool :=
  if str_empty password then Throw (js "Password cannot be empty")
  else if negb (length salt =? 16)%nat then Throw (js "Salt must be 16 bytes")
  else if negb (length expectedKey =? 32)%nat
  then Throw (js "Expected key must be 32 bytes")
  else
    let kdfParams := merge_params DEFAULT_KDF_PARAMS params in
    match argon2id password salt (memory kdfParams) (iterations kdfParams)
            (parallelism kdfParams) (keyLength kdfParams) with
    | Ok derived =>
        match timingSafeEqual derived expectedKey with
        | Ok same => Ok same
        | Throw _ => Ok false
        end
    | Throw m => Throw m
    end.

(* ------------------------------------------------------------------ *)
(** ** lib/storage/database.ts: the other methods *)

(** The argument of [create]: an [Evidence] without [id], [createdAt] and
    [updatedAt]. *)
Record NewEvidence : Type := mk_new_evidence {
  ne_timestamp : jsstring;
  ne_conversationId : jsstring;
  ne_llmProvider : jsstring;
  ne_encryptedContent : bytes;
  ne_nonce : bytes;
  ne_contentHash : jsstring;
  ne_messageCount : Z;
  ne_gitCommitHash : option jsstring;
  ne_gitTimestamp : option jsstring;
  ne_tags : option jsstring
}.

(** The row that [INSERT INTO evidences (...) VALUES (?, ..., ?)] stores
    for the values bound: the free text of the caller (conversation id,
    provider, tags) as text, the rest as it is. *)
Definition inserted_row (id : jsstring) (evidence : NewEvidence) (now : jsstring)
  : Evidence :=
  mk_evidence id (ne_timestamp evidence)
    (to_text (ne_conversationId evidence)) (to_text (ne_llmProvider evidence))
    (ne_encryptedContent evidence) (ne_nonce evidence)
    (ne_contentHash evidence) (ne_messageCount evidence)
    (ne_gitCommitHash evidence) (ne_gitTimestamp evidence)
    (option_map to_text (ne_tags evidence)) now now.

(** The INSERT statement: the column [id] is the primary key, so a row
    whose id is taken is refused; a new row goes to the end of the table. *)
Definition insert_sql (id : jsstring) (evidence : NewEvidence) (now : jsstring)
  : DB unit :=
  let* _ := statement in
  fun w =>
    if bool_decide (id ∈ map ev_id (evidences w))
    then (Throw (js "UNIQUE constraint failed: evidences.id"), w)
    else (Ok tt, mk_world (evidences w ++ [inserted_row id evidence now])
                   (faults w) (clock w)).

(** [create]; [uuid] is what [crypto.randomUUID()] returns in this call. *)
Definition create `{Platform} (uuid : jsstring) (evidence : NewEvidence) : DB jsstring :=
  let id := uuid in
  let* now := Date_now in
  try_catch (js "Failed to create evidence: ")
    (let* _ := insert_sql id evidence now in
     ret id).

(** The order of [ORDER BY timestamp ASC], as a relation. *)
Definition older_first (a b : Evidence) : Prop :=
  str_leb (timestamp a) (timestamp b).

#[global] Instance older_first_dec : RelDecision older_first.
Proof. intros a b. unfold older_first. apply _. Defined.

(** [findByConversationId] *)
Definition findByConversationId (id : jsstring) : DB (list Evidence) :=
  try_catch (js "Failed to find evidences by conversationId: ")
    (select (fun rows =>
       order_by_timestamp
         (List.filter (fun r => str_eqb (conversationId r) (to_text id)) rows))).

(** [UPDATE evidences SET gitCommitHash = ?, gitTimestamp = ?, updatedAt = ?
    WHERE id = ?] *)
Definition set_git (id commit stamp now : jsstring) (r : Evidence) : Evidence :=
  if str_eqb (ev_id r) id then
    mk_evidence (ev_id r) (timestamp r) (conversationId r) (llmProvider r)
      (encryptedContent r) (nonce r) (contentHash r) (messageCount r)
      (Some commit) (Some stamp) (tags r) (createdAt r) now
  else r.

Definition update_git_sql (id commit stamp now : jsstring) (rows : list Evidence)
  : list Evidence * Z :=
  (map (set_git id commit stamp now) rows,
   Z.of_nat (length (List.filter (fun r => str_eqb (ev_id r) id) rows))).

(** [updateGitInfo] *)
Definition updateGitInfo `{Platform} (id commit stamp : jsstring) : DB unit :=
  try_catch (js "Failed to update git info: ")
    (let* now := Date_now in
     let* changes := run (update_git_sql id commit stamp now) in
     if changes =? 0 then throw (js "Evidence with id " ++ id ++ js " not found")
     else ret tt).

(** [DELETE FROM evidences WHERE id = ?] and [... WHERE id IN (?, ..., ?)] *)
Definition delete_sql (idl : list jsstring) (rows : list Evidence)
  : list Evidence * Z :=
  (List.filter (fun r => negb (bool_decide (ev_id r ∈ idl))) rows,
   Z.of_nat (length (List.filter (fun r => bool_decide (ev_id r ∈ idl)) rows))).

(** [delete]; the method is [db_delete] here. *)
Definition db_delete (id : jsstring) : DB bool :=
  try_catch (js "Failed to delete evidence: ")
    (let* changes := run (delete_sql [id]) in
     ret (0 <? changes)).

(** [deleteMany] *)
Definition deleteMany (idl : list jsstring) : DB Z :=
  if (length idl =? 0)%nat then ret 0
  else try_catch (js "Failed to delete evidences: ") (run (delete_sql idl)).

(** A JavaScript [Map] with string keys: its entries in insertion order. *)
Fixpoint Map_get {V} (m : list (jsstring * V)) (key : jsstring) : option V :=
  match m with
  | [] => None
  | (k, v) :: rest => if str_eqb k key then Some v else Map_get rest key
  end.

Fixpoint Map_set {V} (m : list (jsstring * V)) (key : jsstring) (value : V)
  : list (jsstring * V) :=
  match m with
  | [] => [(key, value)]
  | (k, v) :: rest =>
      if str_eqb k key then (k, value) :: rest else (k, v) :: Map_set rest key value
  end.

(** [n || 0] for an optional number. *)
Definition or_zero (o : option Z) : Z :=
  match o with
  | Some n => if n =? 0 then 0 else n
  | None => 0
  end.

(** [tagCounts.set(tag, (tagCounts.get(tag) || 0) + 1)] *)
Definition count_tag (tagCounts : list (jsstring * Z)) (tag : jsstring)
  : list (jsstring * Z) :=
  Map_set tagCounts tag (or_zero (Map_get tagCounts tag) + 1).

(** [SELECT tags FROM evidences WHERE tags IS NOT NULL AND tags != ''] *)
Definition tag_strings (rows : list Evidence) : list jsstring :=
  omap (fun r => match tags r with
                 | Some (c :: s) => Some (c :: s)
                 | _ => None
                 end) rows.

(** [getTagCounts] *)
Definition getTagCounts : DB (list (jsstring * Z)) :=
  try_catch (js "Failed to get tag counts: ")
    (select (fun rows =>
       fold_left (fun tagCounts s => fold_left count_tag (tokens s) tagCounts)
         (tag_strings rows) [])).

(* ------------------------------------------------------------------ *)
(** ** lib/storage/salt-storage.ts *)

(** The database file as the salt storage sees it: the handle of
    [EvidenceDatabase] and the table [crypto_keys], which holds the row of
    id 1 or nothing. *)
Record Store : Type := mk_store {
  handle : World;
  crypto_keys : option bytes
}.

Definition SDB (A : Type) : Type := Store -> result A * Store.

(** A prepared statement on [crypto_keys]: it meets the faults of the
    handle. *)
Definition key_statement : SDB unit :=
  fun s => let '(r, w) := statement (handle s) in (r, mk_store w (crypto_keys s)).

Definition SALT_EXISTS : jsstring := js "Salt already exists in database".

(** [storeSalt]: its [catch] lets the error of a second salt through as it
    is and wraps every other one. *)
Definition storeSalt (salt : bytes) : SDB unit :=
  fun s =>
    if negb (length salt =? 16)%nat then (Throw (js "Salt must be 16 bytes"), s)
    else
      let '(r, s') :=
        match key_statement s with
        | (Throw e, s1) => (Throw e, s1)
        | (Ok _, s1) =>
            match crypto_keys s1 with
            | Some _ => (Throw SALT_EXISTS, s1)
            | None =>
                match key_statement s1 with
                | (Throw e, s2) => (Throw e, s2)
                | (Ok _, s2) => (Ok tt, mk_store (handle s2) (Some salt))
                end
            end
        end in
      (match r with
       | Ok a => Ok a
       | Throw m =>
           if str_eqb m SALT_EXISTS then Throw m
           else Throw (js "Failed to store salt: " ++ m)
       end, s').

(** [retrieveSalt] *)
Definition retrieveSalt : SDB (option bytes) :=
  fun s =>
    match key_statement s with
    | (Ok _, s1) => (Ok (crypto_keys s1), s1)
    | (Throw e, s1) => (Throw (js "Failed to retrieve salt: " ++ e), s1)
    end.

(** [hasSalt]: an error of the database reads as no salt. *)
Definition hasSalt : SDB bool :=
  fun s =>
    match key_statement s with
    | (Ok _, s1) => (Ok (bool_decide (is_Some (crypto_keys s1))), s1)
    | (Throw _, s1) => (Ok false, s1)
    end.

(* ------------------------------------------------------------------ *)
(** ** index.ts: the key cache of [FootprintServer] *)

(** The fields of the server that [getDerivedKey] works on, between two
    calls: by then a promise in [keyDerivationPromise] has settled. *)
Record Server : Type := mk_server {
  password : jsstring;
  store : Store;
  derivedKey : option bytes;
  keyDerivationPromise : option (result bytes);
  entropy : Entropy
}.

(** [getDerivedKey], one call awaited to its end.  The body of the inner
    async function runs up to its first [await] before the assignment to
    [keyDerivationPromise]: when [retrieveSalt] throws, the [finally] has
    already run and the assignment then stores the rejected promise; on
    the other paths the [finally] runs after the assignment and clears the
    field. *)
Definition getDerivedKey `{Platform} (sv : Server) : result bytes * Server :=
  match derivedKey sv with
  | Some key => (Ok key, sv)
  | None =>
      match keyDerivationPromise sv with
      | Some settled => (settled, sv)
      | None =>
          match retrieveSalt (store sv) with
          | (Throw e, s1) =>
              (Throw e, mk_server (password sv) s1 None (Some (Throw e)) (entropy sv))
          | (Ok (Some existingSalt), s1) =>
              match rederiveKey (password sv) existingSalt no_params with
              | Ok result =>
                  (Ok (dk_key result),
                   mk_server (password sv) s1 (Some (dk_key result)) None (entropy sv))
              | Throw e => (Throw e, mk_server (password sv) s1 None None (entropy sv))
              end
          | (Ok None, s1) =>
              match deriveKey (password sv) no_params (entropy sv) with
              | (Ok result, g) =>
                  match storeSalt (dk_salt result) s1 with
                  | (Ok _, s2) =>
                      (Ok (dk_key result),
                       mk_server (password sv) s2 (Some (dk_key result)) None g)
                  | (Throw e, s2) =>
                      (Throw e, mk_server (password sv) s2 None None g)
                  end
              | (Throw e, g) => (Throw e, mk_server (password sv) s1 None None g)
              end
          end
      end
  end.

(** [clearDerivedKey] *)
Definition clearDerivedKey (sv : Server) : Server :=
  mk_server (password sv) (store sv) None (keyDerivationPromise sv) (entropy sv).

(* ------------------------------------------------------------------ *)
(** ** tools/capture-footprint.ts *)

(** What [getCurrentCommit] returns, as far as the handler reads it. *)
Record GitInfo : Type := mk_git_info {
  commitHash : jsstring;
  gi_timestamp : jsstring
}.

Record CaptureEvidenceParams : Type := mk_capture_params {
  cp_conversationId : jsstring;
  cp_llmProvider : jsstring;
  cp_content : jsstring;
  cp_messageCount : Z;
  cp_tags : option jsstring
}.

Record CaptureResult : Type := mk_capture_result {
  cr_id : jsstring;
  cr_timestamp : jsstring;
  cr_gitCommitHash : option jsstring;
  cr_success : bool
}.

(** [/[\x00\n\r,]/.test(s)] *)
Definition has_separator (s : jsstring) : bool :=
  existsb (fun c => (c =? 0) || (c =? 10) || (c =? 13) || (c =? comma)) s.

(** [value || null] for an optional string. *)
Definition or_null (o : option jsstring) : option jsstring :=
  match o with
  | Some (c :: s) => Some (c :: s)
  | _ => None
  end.

(** The block [if (params.tags) { ... }]: the value of [params.tags] after
    it, or the error of the first tag that the loop rejects. *)
Definition sanitize_tags (given : option jsstring) : result (option jsstring) :=
  match given with
  | Some (c :: s) =>
      let tags := tokens (c :: s) in
      if (length tags =? 0)%nat
      then Throw (js "All provided tags are empty or whitespace")
      else
        match List.find has_separator tags with
        | Some tag =>
            Throw (js "Invalid tag format: " ++ [34] ++ tag ++ [34]
                   ++ js ". Tags cannot contain null bytes, newlines, or commas.")
        | None => Ok (Some (join [comma] tags))
        end
  | _ => Ok given
  end.

(** The handler that [createCaptureFootprintHandler] returns.  [g] is the
    entropy source as the call finds it, [uuid] what [crypto.randomUUID()]
    returns in [db.create] and [gitInfo] what [getCurrentCommit()]
    returns, which never throws. *)
Definition capture_footprint `{Platform} (getKey : DB bytes) (g : Entropy)
  (gitInfo : option GitInfo) (uuid : jsstring) (params : CaptureEvidenceParams)
  : DB (ToolResponse CaptureResult) :=
  wrapToolHandler (js "capture-footprint")
    (js "Check content is not empty, messageCount is positive, and tags format is valid.")
    (if str_empty (cp_content params) || (length (trim (cp_content params)) =? 0)%nat
     then throw (js "Content cannot be empty")
     else if cp_messageCount params <=? 0
     then throw (js "Message count must be positive")
     else if has_separator (cp_conversationId params)
     then throw (js "Conversation ID cannot contain null bytes, newlines, or commas")
     else
       match sanitize_tags (cp_tags params) with
       | Throw m => throw m
       | Ok tags =>
           let* key := getKey in
           match fst (encrypt (cp_content params) key g) with
           | Throw m => throw m
           | Ok encrypted =>
               let commit := or_null (option_map commitHash gitInfo) in
               let contentHash := sha256_hex_string (cp_content params) in
               let* timestamp := Date_now in
               let* id :=
                 create uuid
                   (mk_new_evidence timestamp (cp_conversationId params)
                      (cp_llmProvider params) (ciphertext encrypted)
                      (enc_nonce encrypted) contentHash (cp_messageCount params)
                      commit (or_null (option_map gi_timestamp gitInfo))
                      (or_null tags)) in
               ret (formatSuccessResponse (js "Evidence captured successfully")
                      [(js "ID", Some id);
                       (js "Timestamp", Some timestamp);
                       (js "Git Commit", Some (default (js "N/A") commit));
                       (js "Message Count", Some (Z_to_js (cp_messageCount params)))]
                      (mk_capture_result id timestamp commit true))
           end
       end).

(* ------------------------------------------------------------------ *)
(** ** tools/get-footprint.ts *)

Record GetResult : Type := mk_get_result {
  gr_id : jsstring;
  gr_timestamp : jsstring;
  gr_conversationId : jsstring;
  gr_llmProvider : jsstring;
  gr_content : jsstring;
  gr_messageCount : Z;
  gr_gitInfo : option GitInfo;
  gr_tags : option jsstring
}.

(** The handler that [createGetFootprintHandler] returns (the later copy
    of the file, which speaks of footprints). *)
Definition get_footprint `{Platform} (getKey : DB bytes) (id : jsstring)
  : DB (ToolResponse GetResult) :=
  wrapToolHandler (js "get-footprint")
    (js "Verify the footprint ID exists and password is correct.")
    (let* found := findById id in
     match found with
     | None => throw (js "Footprint not found: " ++ id)
     | Some fp =>
         let* key := getKey in
         match decrypt (encryptedContent fp) (nonce fp) key with
         | Throw m => throw m
         | Ok decrypted =>
             let gitInfo :=
               match gitCommitHash fp, gitTimestamp fp with
               | Some (c :: commit), Some (t :: stamp) =>
                   Some (mk_git_info (c :: commit) (t :: stamp))
               | _, _ => None
               end in
             ret (formatSuccessResponse (js "Footprint retrieved successfully")
                    [(js "ID", Some (ev_id fp));
                     (js "Timestamp", Some (timestamp fp));
                     (js "Provider", Some (llmProvider fp));
                     (js "Message Count", Some (Z_to_js (messageCount fp)));
                     (js "Content Preview", Some (take 100 decrypted ++ js "..."))]
                    (mk_get_result (ev_id fp) (timestamp fp) (conversationId fp)
                       (llmProvider fp) decrypted (messageCount fp) gitInfo (tags fp)))
         end
     end).

(* ------------------------------------------------------------------ *)
(** ** tools/delete-footprints.ts, tools/rename-tag.ts, tools/remove-tag.ts *)

Record DeleteResult : Type := mk_delete_result {
  deletedCount : Z;
  dr_success : bool
}.

(** [`record${n > 1 ? "s" : ""}`] *)
Definition records (n : Z) : jsstring :=
  js "record" ++ (if 1 <? n then js "s" else js "").

Definition wastebasket : jsstring := [0xD83D; 0xDDD1; 0xFE0F].
Definition warning_sign : jsstring := [0x26A0; 0xFE0F].

(** The handler that [createDeleteFootprintsHandler] returns. *)
Definition delete_footprints (evidenceIds : list jsstring)
  : DB (ToolResponse DeleteResult) :=
  wrapToolHandler (js "delete-footprints") (js "Verify the footprint IDs exist.")
    (if (length evidenceIds =? 0)%nat
     then throw (js "At least one evidence ID is required")
     else
       let* deletedCount := deleteMany evidenceIds in
       let success := 0 <? deletedCount in
       let resultText :=
         if success
         then wastebasket ++ js " Successfully deleted " ++ Z_to_js deletedCount
              ++ js " footprint " ++ records deletedCount
         else warning_sign ++ js " No footprint records found with the provided IDs" in
       ret (createToolResponse resultText (mk_delete_result deletedCount success))).




(* ------------------------------------------------------------------ *)
(** ** tools/get-tag-stats.ts *)

Record TagStats : Type := mk_tag_stats {
  ts_tags : list (jsstring * Z);
  totalTags : Z
}.

(** [entries.sort((a, b) => b.count - a.count)]: the sort is stable, so
    [insert_by_count] puts an entry before the first one of a smaller
    count. *)
Fixpoint insert_by_count (entry : jsstring * Z) (sorted : list (jsstring * Z))
  : list (jsstring * Z) :=
  match sorted with
  | [] => [entry]
  | e :: rest =>
      if snd e <? snd entry then entry :: e :: rest
      else e :: insert_by_count entry rest
  end.

Definition sort_by_count (entries : list (jsstring * Z)) : list (jsstring * Z) :=
  fold_left (fun sorted entry => insert_by_count entry sorted) entries [].

Definition bar_chart : jsstring := [0xD83D; 0xDCCA].
Definition bullet : jsstring := [0x2022].

(** The handler that [createGetTagStatsHandler] returns. *)
Definition get_tag_stats : DB (ToolResponse TagStats) :=
  wrapToolHandler (js "get-tag-stats") (js "Check database connectivity.")
    (let* tagCounts := getTagCounts in
     let tags := sort_by_count tagCounts in
     let resultText :=
       if (0 <? length tags)%nat
       then bar_chart ++ js " Tag Statistics:" ++ [newline]
            ++ join [newline]
                 (map (fun t => js "  " ++ bullet ++ js " " ++ fst t ++ js ": "
                                ++ Z_to_js (snd t)) tags)
       else bar_chart ++ js " No tags found in any footprint records" in
     ret (createToolResponse resultText
            (mk_tag_stats tags (Z.of_nat (length tags))))).

(* ------------------------------------------------------------------ *)
(** ** Vocabulary of the statements *)

(** An operation that leaves the rows of the table as they are, whatever
    it returns and whatever faults it meets. *)
Definition reads_only {A} (m : DB A) : Prop :=
  forall w, evidences (m w).2 = evidences w.

(** The tags of all rows, with repetitions, and how often a tag occurs
    among them. *)
Definition all_tags (rows : list Evidence) : list jsstring :=
  flat_map (fun r => tokens_of (tags r)) rows.

Definition occurrences (tag : jsstring) (l : list jsstring) : Z :=
  Z.of_nat (length (List.filter (fun t => str_eqb t tag) l)).

(** The tally after the tags [seen]: one entry for each distinct tag, with
    the number of its occurrences. *)
Definition tallies (tagCounts : list (jsstring * Z)) (seen : list jsstring) : Prop :=
  NoDup (map fst tagCounts)
  /\ (forall tag, tag ∈ map fst tagCounts <-> tag ∈ seen)
  /\ (forall tag, Map_get tagCounts tag
                  = if occurrences tag seen =? 0 then None
                    else Some (occurrences tag seen)).

(** The parameters that the handler of capture-footprint accepts. *)
Definition capturable (params : CaptureEvidenceParams) : Prop :=
  trim (cp_content params) <> []
  /\ 0 < cp_messageCount params
  /\ has_separator (cp_conversationId params) = false
  /\ is_ok (sanitize_tags (cp_tags params)) = true.

(** The tag string that a capture hands to [create]. *)
Definition stored_tags (given : option jsstring) : option jsstring :=
  match sanitize_tags given with
  | Ok tags => or_null tags
  | Throw _ => None
  end.

(** The row that a capture stores. *)
Definition captured_row `{Platform} (key : bytes) (g : Entropy)
  (gitInfo : option GitInfo) (uuid : jsstring) (params : CaptureEvidenceParams)
  (stamp now : jsstring) : Evidence :=
  let nonce := fst (randomBytes 24 g) in
  inserted_row uuid
    (mk_new_evidence stamp (cp_conversationId params) (cp_llmProvider params)
       (cipher_encrypt key nonce (TextEncoder_encode (cp_content params))) nonce
       (sha256_hex_string (cp_content params)) (cp_messageCount params)
       (or_null (option_map commitHash gitInfo))
       (or_null (option_map gi_timestamp gitInfo))
       (stored_tags (cp_tags params))) now.

(** A tag string that is the list of its tags: the tags joined by commas,
    none of them empty, none with blanks around it; no tags at all is
    NULL. *)
Definition joined_tags (o : option jsstring) : Prop :=
  match o with
  | Some s => s <> [] /\ s = join [comma] (tokens s)
  | None => True
  end.

(** A tag string in normal form: the list of its tags, and text without
    NUL. *)
Definition normal_tags (o : option jsstring) : Prop :=
  joined_tags o /\ forall s, o = Some s -> text s /\ nul_free s.

(** The tags that [addTags] takes from its argument. *)
Definition valid_tags (given : list jsstring) : list jsstring :=
  List.filter nonblank (map trim given).

(** Entries in the order of get-tag-stats: a larger count first. *)
Definition more_used_first (a b : jsstring * Z) : Prop := snd b <= snd a.

(** The ids of a list that no row of the table has, in the order given. *)
Definition missing_ids (rows : list Evidence) (idl : list jsstring) : list jsstring :=
  List.filter (fun id => negb (bool_decide (id ∈ map ev_id rows))) idl.

(* ------------------------------------------------------------------ *)
(** ** Inputs for the examples *)

Definition sample_password : jsstring := js "correct horse".

Definition sample_salt : bytes := map Z.of_nat (seq 0 16).

(** An empty database file, and a server that has not derived its key. *)
Definition sample_store : Store := mk_store (sample_world []) None.

Definition sample_server : Server :=
  mk_server sample_password sample_store None None sample_entropy.

(** A server whose next statement fails. *)
Definition failing_server : Server :=
  mk_server sample_password
    (mk_store (mk_world [] [Some (js "disk I/O error")] 0) None) None None
    sample_entropy.

Definition sample_evidence : NewEvidence :=
  mk_new_evidence (js "2026-02-01") (js "conv") (js "provider") [1; 2; 3]
    (map Z.of_nat (seq 0 24)) (js "00") 2 None None (Some (js "api")).

Definition sample_capture : CaptureEvidenceParams :=
  mk_capture_params (js "conv-1") (js "provider") (js "Hello world") 2
    (Some (js " api , draft,")).

Definition sample_git : GitInfo :=
  mk_git_info (js "0a1b2c") (js "2026-01-01T00:00:00.000Z").

(* ================================================================== *)
(** * Properties *)
(* ================================================================== *)

Ltac zlia := Z.to_euclidean_division_equations; lia.

(* ------------------------------------------------------------------ *)
(** ** The sample platform keeps the contracts *)

Lemma sample_laws : PlatformLaws sample_platform.
Proof.
  split.
  - intros key nonce plaintext Hk Hn. cbn. unfold sample_decrypt, sample_encrypt.
    assert (Ht : length (sample_tag key nonce) = 16%nat).
    { unfold sample_tag. rewrite length_app, !length_take. lia. }
    rewrite length_app, Ht.
    replace (length plaintext + 16 - 16)%nat with (length plaintext) by lia.
    rewrite drop_app_length, take_app_length.
    rewrite bool_decide_eq_true_2 by reflexivity.
    replace (16 <=? length plaintext + 16)%nat with true
      by (symmetry; apply Nat.leb_le; lia).
    reflexivity.
  - intros password salt Hs. cbn. unfold sample_argon2id. eexists. split; [reflexivity |].
    rewrite length_map, length_seq. reflexivity.
Qed.

(* ------------------------------------------------------------------ *)
(** ** Bit operations as arithmetic *)

Lemma land_shiftl_small a b n :
  0 <= n -> 0 <= b < 2 ^ n -> Z.land (Z.shiftl a n) b = 0.
Proof.
  intros Hn Hb. apply Z.bits_inj'. intros i Hi.
  rewrite Z.land_spec, Z.bits_0.
  destruct (Z.lt_ge_cases i n) as [Hlt | Hge].
  - rewrite Z.shiftl_spec_low by assumption. reflexivity.
  - rewrite <- (Z.mod_small b (2 ^ n)) by assumption.
    rewrite Z.mod_pow2_bits_high by lia. apply andb_false_r.
Qed.

Lemma lor_shiftl_add a b n :
  0 <= n -> 0 <= b < 2 ^ n -> Z.lor (Z.shiftl a n) b = a * 2 ^ n + b.
Proof.
  intros Hn Hb.
  rewrite <- Z.lxor_lor by (apply land_shiftl_small; assumption).
  rewrite <- Z.add_nocarry_lxor by (apply land_shiftl_small; assumption).
  rewrite Z.shiftl_mul_pow2 by assumption. reflexivity.
Qed.

Lemma shiftr_div x n : 0 <= n -> Z.shiftr x n = x / 2 ^ n.
Proof. intros. apply Z.shiftr_div_pow2. assumption. Qed.

Lemma land_mask x n : 0 <= n -> Z.land x (Z.ones n) = x mod 2 ^ n.
Proof. intros. apply Z.land_ones. assumption. Qed.

Lemma lor_0x80 x : 0 <= x < 64 -> Z.lor 0x80 x = 128 + x.
Proof.
  intros. change 0x80 with (Z.shiftl 2 6).
  rewrite lor_shiftl_add by (cbn; lia). reflexivity.
Qed.

Lemma lor_0xC0 x : 0 <= x < 64 -> Z.lor 0xC0 x = 192 + x.
Proof.
  intros. change 0xC0 with (Z.shiftl 3 6).
  rewrite lor_shiftl_add by (cbn; lia). reflexivity.
Qed.

Lemma lor_0xE0 x : 0 <= x < 32 -> Z.lor 0xE0 x = 224 + x.
Proof.
  intros. change 0xE0 with (Z.shiftl 7 5).
  rewrite lor_shiftl_add by (cbn; lia). reflexivity.
Qed.

Lemma lor_0xF0 x : 0 <= x < 16 -> Z.lor 0xF0 x = 240 + x.
Proof.
  intros. change 0xF0 with (Z.shiftl 15 4).
  rewrite lor_shiftl_add by (cbn; lia). reflexivity.
Qed.

Lemma land_0x3F x : Z.land x 0x3F = x mod 64.
Proof. change 0x3F with (Z.ones 6). rewrite land_mask by lia. reflexivity. Qed.

Lemma land_0x1F x : Z.land x 0x1F = x mod 32.
Proof. change 0x1F with (Z.ones 5). rewrite land_mask by lia. reflexivity. Qed.

Lemma land_0xF x : Z.land x 0xF = x mod 16.
Proof. change 0xF with (Z.ones 4). rewrite land_mask by lia. reflexivity. Qed.

Lemma land_0x7 x : Z.land x 0x7 = x mod 8.
Proof. change 0x7 with (Z.ones 3). rewrite land_mask by lia. reflexivity. Qed.

(* ------------------------------------------------------------------ *)
(** ** UTF-8: decoding what was encoded *)

Lemma utf8_encode_cp_arith cp :
  0 <= cp < 0x110000 ->
  utf8_encode_cp cp =
    if cp <? 0x80 then [cp]
    else if cp <? 0x800 then [192 + cp / 64; 128 + cp mod 64]
    else if cp <? 0x10000 then
      [224 + cp / 4096; 128 + (cp / 64) mod 64; 128 + cp mod 64]
    else [240 + cp / 262144; 128 + (cp / 4096) mod 64;
          128 + (cp / 64) mod 64; 128 + cp mod 64].
Proof.
  intros Hcp. unfold utf8_encode_cp.
  rewrite !land_0x3F, !shiftr_div by lia.
  change (2 ^ 6) with 64. change (2 ^ 12) with 4096. change (2 ^ 18) with 262144.
  repeat case_match; try reflexivity.
  - rewrite lor_0xC0, lor_0x80 by zlia. reflexivity.
  - rewrite lor_0xE0, !lor_0x80 by zlia. reflexivity.
  - rewrite lor_0xF0, !lor_0x80 by zlia. reflexivity.
Qed.

Lemma utf8_lead_1 b : 0 <= b <= 0x7F -> utf8_lead b = (utf8_init, [b]).
Proof.
  intros. unfold utf8_lead.
  replace ((0 <=? b) && (b <=? 0x7F)) with true by lia. reflexivity.
Qed.

Lemma utf8_lead_2 b :
  0xC2 <= b <= 0xDF -> utf8_lead b = (mk_utf8 (b - 192) 0 1 0x80 0xBF, []).
Proof.
  intros. unfold utf8_lead.
  replace ((0 <=? b) && (b <=? 0x7F)) with false by lia.
  replace ((0xC2 <=? b) && (b <=? 0xDF)) with true by lia.
  rewrite land_0x1F. do 2 f_equal. zlia.
Qed.

Lemma utf8_lead_3 b :
  0xE0 <= b <= 0xEF ->
  utf8_lead b = (mk_utf8 (b - 224) 0 2 (if b =? 0xE0 then 0xA0 else 0x80)
                   (if b =? 0xED then 0x9F else 0xBF), []).
Proof.
  intros. unfold utf8_lead.
  replace ((0 <=? b) && (b <=? 0x7F)) with false by lia.
  replace ((0xC2 <=? b) && (b <=? 0xDF)) with false by lia.
  replace ((0xE0 <=? b) && (b <=? 0xEF)) with true by lia.
  rewrite land_0xF. do 2 f_equal. zlia.
Qed.

Lemma utf8_lead_4 b :
  0xF0 <= b <= 0xF4 ->
  utf8_lead b = (mk_utf8 (b - 240) 0 3 (if b =? 0xF0 then 0x90 else 0x80)
                   (if b =? 0xF4 then 0x8F else 0xBF), []).
Proof.
  intros. unfold utf8_lead.
  replace ((0 <=? b) && (b <=? 0x7F)) with false by lia.
  replace ((0xC2 <=? b) && (b <=? 0xDF)) with false by lia.
  replace ((0xE0 <=? b) && (b <=? 0xEF)) with false by lia.
  replace ((0xF0 <=? b) && (b <=? 0xF4)) with true by lia.
  rewrite land_0x7. do 2 f_equal. zlia.
Qed.

Lemma utf8_step_init b : utf8_step utf8_init b = utf8_lead b.
Proof. reflexivity. Qed.

Lemma utf8_step_cont cp seen needed lower upper b :
  needed <> 0 -> 0x80 <= lower -> upper <= 0xBF -> lower <= b <= upper -> 0 <= cp ->
  utf8_step (mk_utf8 cp seen needed lower upper) b =
    if seen + 1 =? needed then (utf8_init, [cp * 64 + (b - 128)])
    else (mk_utf8 (cp * 64 + (b - 128)) (seen + 1) needed 0x80 0xBF, []).
Proof.
  intros Hn Hl Hu Hb Hcp. unfold utf8_step. cbn [u_bytes_needed u_lower u_upper u_code_point u_bytes_seen].
  replace (needed =? 0) with false by lia.
  replace ((lower <=? b) && (b <=? upper)) with true by lia.
  cbn [negb].
  rewrite land_0x3F, lor_shiftl_add by zlia.
  change (2 ^ 6) with 64.
  replace (b mod 64) with (b - 128) by zlia. reflexivity.
Qed.

Lemma utf8_step_last cp seen needed lower upper b :
  needed <> 0 -> 0x80 <= lower -> upper <= 0xBF -> lower <= b <= upper -> 0 <= cp ->
  seen + 1 = needed ->
  utf8_step (mk_utf8 cp seen needed lower upper) b = (utf8_init, [cp * 64 + (b - 128)]).
Proof.
  intros. rewrite utf8_step_cont by assumption.
  replace (seen + 1 =? needed) with true by lia. reflexivity.
Qed.

Lemma utf8_step_more cp seen needed lower upper b :
  needed <> 0 -> 0x80 <= lower -> upper <= 0xBF -> lower <= b <= upper -> 0 <= cp ->
  seen + 1 <> needed ->
  utf8_step (mk_utf8 cp seen needed lower upper) b =
    (mk_utf8 (cp * 64 + (b - 128)) (seen + 1) needed 0x80 0xBF, []).
Proof.
  intros. rewrite utf8_step_cont by assumption.
  replace (seen + 1 =? needed) with false by lia. reflexivity.
Qed.

Lemma utf8_run_cons st b bs :
  utf8_run st (b :: bs) = (utf8_step st b).2 ++ utf8_run (utf8_step st b).1 bs.
Proof. cbn [utf8_run]. destruct (utf8_step st b). reflexivity. Qed.

Lemma utf8_run_encode_cp cp rest :
  scalar cp ->
  utf8_run utf8_init (utf8_encode_cp cp ++ rest) = cp :: utf8_run utf8_init rest.
Proof.
  intros [Hr Hs]. rewrite utf8_encode_cp_arith by assumption.
  destruct (cp <? 0x80) eqn:H1; [|destruct (cp <? 0x800) eqn:H2; [|destruct (cp <? 0x10000) eqn:H3]];
    cbn [app]; rewrite utf8_run_cons, utf8_step_init.
  - rewrite utf8_lead_1 by lia. reflexivity.
  - rewrite utf8_lead_2 by zlia. cbn [fst snd app].
    rewrite utf8_run_cons, utf8_step_last; [| zlia ..].
    cbn [fst snd app]. f_equal. zlia.
  - rewrite utf8_lead_3 by zlia. cbn [fst snd app].
    rewrite utf8_run_cons, utf8_step_more; [| repeat case_match; zlia ..].
    cbn [fst snd app].
    rewrite utf8_run_cons, utf8_step_last; [| zlia ..].
    cbn [fst snd app]. f_equal. zlia.
  - rewrite utf8_lead_4 by zlia. cbn [fst snd app].
    rewrite utf8_run_cons, utf8_step_more; [| repeat case_match; zlia ..].
    cbn [fst snd app].
    rewrite utf8_run_cons, utf8_step_more; [| zlia ..].
    cbn [fst snd app].
    rewrite utf8_run_cons, utf8_step_last; [| zlia ..].
    cbn [fst snd app]. f_equal. zlia.
Qed.

Lemma utf8_run_encode cps :
  Forall scalar cps -> utf8_run utf8_init (flat_map utf8_encode_cp cps) = cps.
Proof.
  induction 1 as [| cp cps Hcp _ IH]; [reflexivity |].
  cbn [flat_map]. rewrite utf8_run_encode_cp by assumption. f_equal. exact IH.
Qed.

Lemma surrogate_pair_value c d :
  is_high c = true -> is_low d = true ->
  let cp := 0x10000 + Z.shiftl (c - 0xD800) 10 + (d - 0xDC00) in
  scalar cp /\ cp <> BOM /\ utf16_of_cp cp = [c; d].
Proof.
  unfold is_high, is_low, scalar, BOM, utf16_of_cp. intros Hc Hd.
  rewrite Z.shiftl_mul_pow2 by lia. change (2 ^ 10) with 1024.
  cbv zeta. repeat split; try lia.
  replace (_ <? 0x10000) with false by lia.
  rewrite shiftr_div by lia. change 0x3FF with (Z.ones 10).
  rewrite land_mask by lia. change (2 ^ 10) with 1024.
  f_equal; [zlia | f_equal; zlia].
Qed.

Lemma bmp_value c :
  is_high c = false -> is_low c = false -> 0 <= c <= 0xFFFF ->
  scalar c /\ utf16_of_cp c = [c].
Proof.
  unfold is_high, is_low, scalar, utf16_of_cp. intros Hh Hl Hc.
  replace (c <? 0x10000) with true by lia. split; [lia | reflexivity].
Qed.

Lemma well_formed_scalar_values_aux n : forall s,
  (length s <= n)%nat -> well_formed s = true ->
  Forall scalar (scalar_values s)
  /\ flat_map utf16_of_cp (scalar_values s) = s
  /\ (starts_with_bom s = false -> drop_bom (scalar_values s) = scalar_values s).
Proof.
  induction n as [| n IH]; intros s Hlen Hwf.
  { destruct s; [|cbn in Hlen; lia]. repeat split; first [constructor | reflexivity]. }
  destruct s as [| c s]; [repeat split; first [constructor | reflexivity] |].
  cbn [well_formed scalar_values] in *.
  destruct (is_high c) eqn:Hh.
  - destruct s as [| d s]; [discriminate |].
    apply andb_true_iff in Hwf as [Hd Hwf]. rewrite Hd.
    destruct (surrogate_pair_value c d Hh Hd) as (Hsc & Hbom & H16).
    destruct (IH s) as (IH1 & IH2 & _); [cbn in Hlen; lia | assumption |].
    repeat split.
    + constructor; assumption.
    + cbn [flat_map]. rewrite H16, IH2. reflexivity.
    + intros _. cbn [drop_bom]. apply Z.eqb_neq in Hbom. rewrite Hbom. reflexivity.
  - rewrite !andb_true_iff in Hwf. destruct Hwf as [[[Hl H0] Hmax] Hwf].
    apply negb_true_iff in Hl. rewrite Hl.
    destruct (bmp_value c Hh Hl) as (Hsc & H16); [lia |].
    destruct (IH s) as (IH1 & IH2 & _); [cbn in Hlen; lia | assumption |].
    repeat split.
    + constructor; assumption.
    + cbn [flat_map]. rewrite H16, IH2. reflexivity.
    + cbn [starts_with_bom drop_bom]. intros ->. reflexivity.
Qed.

Lemma TextDecoder_TextEncoder s :
  well_formed s = true -> starts_with_bom s = false ->
  TextDecoder_decode (TextEncoder_encode s) = s.
Proof.
  intros Hwf Hbom.
  destruct (well_formed_scalar_values_aux (length s) s) as (H1 & H2 & H3);
    [lia | assumption |].
  unfold TextDecoder_decode, TextEncoder_encode.
  rewrite utf8_run_encode by assumption. rewrite H3 by assumption. exact H2.
Qed.

(* ------------------------------------------------------------------ *)
(** ** Text: the strings that a TEXT column holds *)

(** Induction over a string by characters: a surrogate pair, or one code
    unit that starts no pair. *)
Lemma units_ind (Q : jsstring -> Prop) :
  Q [] ->
  (forall c d s, is_high c = true -> is_low d = true -> Q s -> Q (c :: d :: s)) ->
  (forall c s,
      is_high c = false \/ match s with d :: _ => is_low d = false | [] => True end ->
      Q s -> Q (c :: s)) ->
  forall s, Q s.
Proof.
  intros H0 H2 H1 s.
  assert (H : forall n s, (length s <= n)%nat -> Q s).
  { clear s. induction n as [| n IH]; intros s Hlen.
    - destruct s; [exact H0 | cbn in Hlen; lia].
    - destruct s as [| c s]; [exact H0 |].
      destruct (is_high c) eqn:Hc.
      + destruct s as [| d s].
        * apply H1; [right; exact I | exact H0].
        * destruct (is_low d) eqn:Hd.
          -- apply H2; [assumption .. |]. apply IH. cbn [length] in *. lia.
          -- apply H1; [right; exact Hd |]. apply IH. cbn [length] in *. lia.
      + apply H1; [left; exact Hc |]. apply IH. cbn [length] in *. lia. }
  apply (H (length s)). lia.
Qed.

(** A string without unpaired surrogates is text as it is. *)
Lemma to_text_id s : well_formed s = true -> to_text s = s.
Proof.
  intros Hwf. unfold to_text.
  apply (well_formed_scalar_values_aux (length s) s); [lia | exact Hwf].
Qed.

(** The scalar values and the well-formedness of a string whose first
    code unit starts no surrogate pair. *)
Lemma scalar_values_single x s :
  is_high x = false \/ match s with d :: _ => is_low d = false | [] => True end ->
  scalar_values (x :: s)
  = (if is_high x || is_low x then REPLACEMENT else x) :: scalar_values s.
Proof.
  intros Hx. cbn [scalar_values]. destruct (is_high x) eqn:Hh.
  - destruct Hx as [Hx | Hx]; [discriminate |].
    destruct s as [| d s]; [reflexivity |]. rewrite Hx. reflexivity.
  - cbn [orb]. destruct (is_low x); reflexivity.
Qed.

Lemma scalar_values_app_plain a c b :
  is_high c = false -> is_low c = false ->
  scalar_values (a ++ c :: b) = scalar_values a ++ c :: scalar_values b.
Proof.
  intros Hh Hl. induction a as [| x y a Hx Hy IH | x a Hx IH] using units_ind.
  - cbn [app]. rewrite scalar_values_single by (left; exact Hh).
    rewrite Hh, Hl. reflexivity.
  - cbn [app scalar_values]. rewrite Hx, Hy, IH. reflexivity.
  - cbn [app]. rewrite (scalar_values_single x a Hx).
    rewrite scalar_values_single, IH; [reflexivity |].
    destruct a as [| d a]; [right; exact Hl | exact Hx].
Qed.

Lemma well_formed_single x s :
  is_high x = false \/ match s with d :: _ => is_low d = false | [] => True end ->
  well_formed (x :: s)
  = negb (is_high x) && negb (is_low x) && (0 <=? x) && (x <=? 0xFFFF) && well_formed s.
Proof.
  intros Hx. cbn [well_formed]. destruct (is_high x) eqn:Hh; [| reflexivity].
  destruct Hx as [Hx | Hx]; [discriminate |].
  destruct s as [| d s]; [reflexivity |]. rewrite Hx. reflexivity.
Qed.

(** Text put together from text is text. *)
Lemma well_formed_app a b :
  well_formed a = true -> well_formed b = true -> well_formed (a ++ b) = true.
Proof.
  intros Ha Hb. induction a as [| x y a Hx Hy IH | x a Hx IH] using units_ind.
  - exact Hb.
  - cbn [app well_formed] in *. rewrite Hx in *. rewrite Hy in *. apply IH, Ha.
  - rewrite (well_formed_single x a Hx) in Ha.
    rewrite !andb_true_iff in Ha. destruct Ha as [[[[H1 H2] H3] H4] H5].
    cbn [app well_formed]. apply negb_true_iff in H1. rewrite H1, H2, H3, H4.
    apply IH, H5.
Qed.

(** Text cut at a code unit that is no surrogate gives two texts. *)
Lemma well_formed_split a c b :
  is_high c = false -> is_low c = false ->
  well_formed (a ++ c :: b) = true ->
  well_formed a = true /\ well_formed b = true.
Proof.
  intros Hh Hl. induction a as [| x y a Hx Hy IH | x a Hx IH] using units_ind;
    intros Hwf.
  - cbn [app well_formed] in Hwf. rewrite Hh in Hwf.
    rewrite !andb_true_iff in Hwf. split; [reflexivity | apply Hwf].
  - cbn [app well_formed] in *. rewrite Hx in *. rewrite Hy in *. apply IH, Hwf.
  - cbn [app] in Hwf. rewrite well_formed_single in Hwf.
    + rewrite (well_formed_single x a Hx).
      rewrite !andb_true_iff in Hwf. destruct Hwf as [[[[H1 H2] H3] H4] H5].
      rewrite H1, H2, H3, H4. apply IH, H5.
    + destruct a as [| d a]; [right; exact Hl | exact Hx].
Qed.

Lemma well_formed_cons c s :
  is_high c = false -> is_low c = false -> 0 <= c <= 0xFFFF ->
  well_formed (c :: s) = well_formed s.
Proof.
  intros Hh Hl Hc. cbn [well_formed]. rewrite Hh, Hl.
  replace (0 <=? c) with true by lia. replace (c <=? 0xFFFF) with true by lia.
  reflexivity.
Qed.

(** A text that holds no NUL is read by LIKE to its end. *)
Lemma c_string_nul_free l : Forall (fun c => c <> 0) l -> c_string l = l.
Proof.
  induction 1 as [| c l Hc _ IH]; [reflexivity |].
  cbn [c_string]. apply Z.eqb_neq in Hc. rewrite Hc, IH. reflexivity.
Qed.

Lemma scalar_values_nul_free s :
  Forall (fun c => c <> 0) s -> Forall (fun c => c <> 0) (scalar_values s).
Proof.
  induction s as [| x y s Hx Hy IH | x s Hx IH] using units_ind; intros Hs.
  - constructor.
  - cbn [scalar_values]. rewrite Hx, Hy.
    apply Forall_cons in Hs as [_ Hs]. apply Forall_cons in Hs as [_ Hs].
    constructor; [| apply IH, Hs].
    unfold is_high, is_low in Hx, Hy. rewrite Z.shiftl_mul_pow2 by lia. lia.
  - apply Forall_cons in Hs as [Hc Hs]. specialize (IH Hs).
    rewrite (scalar_values_single x s Hx). constructor; [| exact IH].
    destruct (is_high x || is_low x); [unfold REPLACEMENT; lia | exact Hc].
Qed.

Lemma like_operand_nul_free s :
  Forall (fun c => c <> 0) s -> like_operand s = scalar_values s.
Proof.
  intros Hs. unfold like_operand. apply c_string_nul_free, scalar_values_nul_free, Hs.
Qed.

(* ------------------------------------------------------------------ *)
(** ** lib/crypto: encrypt and decrypt *)

Lemma randomBytes_length n g : length (randomBytes n g).1 = n.
Proof. unfold randomBytes. cbn. rewrite length_map, length_seq. reflexivity. Qed.

(** What [decrypt] returns on the output of [encrypt], for any string: the
    text as it comes back from the decoder. *)
Lemma decrypt_encrypt {P : Platform} {L : PlatformLaws P} (plaintext : jsstring) (key : bytes) (g : Entropy) :
  length key = 32%nat ->
  exists sealed g',
    encrypt plaintext key g = (Ok sealed, g')
    /\ length (enc_nonce sealed) = 24%nat
    /\ decrypt (ciphertext sealed) (enc_nonce sealed) key
       = Ok (TextDecoder_decode (TextEncoder_encode plaintext)).
Proof.
  intros Hk. unfold encrypt. rewrite Hk. cbn [Nat.eqb negb].
  destruct (randomBytes 24 g) as [nonce g'] eqn:Hr.
  assert (Hn : length nonce = 24%nat).
  { pose proof (randomBytes_length 24 g) as Hl. rewrite Hr in Hl. exact Hl. }
  eexists _, _. split; [reflexivity |]. cbn [ciphertext enc_nonce].
  split; [exact Hn |]. unfold decrypt. rewrite Hk, Hn. cbn [Nat.eqb negb].
  rewrite cipher_correct by assumption. reflexivity.
Qed.

(** C1 (as amended): for every plaintext without unpaired surrogates that
    does not begin with U+FEFF and every 32-byte key, [encrypt] returns a
    ciphertext and a 24-byte nonce from which [decrypt] under the same key
    returns the plaintext. *)
Theorem encrypt_decrypt_roundtrip {P : Platform} {L : PlatformLaws P}
  (plaintext : jsstring) (key : bytes) (g : Entropy) :
  length key = 32%nat ->
  well_formed plaintext = true ->
  starts_with_bom plaintext = false ->
  exists sealed g',
    encrypt plaintext key g = (Ok sealed, g')
    /\ length (enc_nonce sealed) = 24%nat
    /\ decrypt (ciphertext sealed) (enc_nonce sealed) key = Ok plaintext.
Proof.
  intros Hk Hwf Hbom.
  destruct (decrypt_encrypt plaintext key g Hk) as (sealed & g' & He & Hn & Hd).
  exists sealed, g'. rewrite TextDecoder_TextEncoder in Hd by assumption.
  auto.
Qed.

Lemma encrypt_decrypt_roundtrip_witness :
  exists sealed g',
    encrypt (H := sample_platform) (js "Hello world") sample_key sample_entropy
      = (Ok sealed, g')
    /\ length (enc_nonce sealed) = 24%nat
    /\ decrypt (H := sample_platform) (ciphertext sealed) (enc_nonce sealed) sample_key
       = Ok (js "Hello world").
Proof.
  apply (encrypt_decrypt_roundtrip (P := sample_platform) (L := sample_laws)
           (js "Hello world") sample_key sample_entropy);
    reflexivity.
Defined.

(** C1 as stated fails: the plaintext made of the single unpaired surrogate
    U+D800 comes back from [decrypt] as U+FFFD. *)
Lemma encrypt_decrypt_unpaired_surrogate :
  exists sealed g',
    encrypt (H := sample_platform) [0xD800] sample_key sample_entropy = (Ok sealed, g')
    /\ decrypt (H := sample_platform) (ciphertext sealed) (enc_nonce sealed) sample_key
       = Ok [0xFFFD]
    /\ Ok [0xFFFD] <> Ok (A := jsstring) [0xD800].
Proof.
  destruct (decrypt_encrypt (P := sample_platform) (L := sample_laws)
              [0xD800] sample_key sample_entropy eq_refl)
    as (sealed & g' & He & _ & Hd).
  exists sealed, g'. repeat split; [exact He | exact Hd | discriminate].
Qed.

(** A plaintext that begins with a byte order mark loses it: [decrypt]
    returns the text without its first character. *)
Lemma encrypt_decrypt_leading_bom :
  exists sealed g',
    encrypt (H := sample_platform) (0xFEFF :: js "Hello") sample_key sample_entropy
      = (Ok sealed, g')
    /\ decrypt (H := sample_platform) (ciphertext sealed) (enc_nonce sealed) sample_key
       = Ok (js "Hello").
Proof.
  destruct (decrypt_encrypt (P := sample_platform) (L := sample_laws)
              (0xFEFF :: js "Hello") sample_key sample_entropy eq_refl)
    as (sealed & g' & He & _ & Hd).
  exists sealed, g'. split; [exact He | exact Hd].
Qed.

(* ------------------------------------------------------------------ *)
(** ** lib/crypto: key derivation *)

(** C6: for every non-empty password and every 16-byte salt, two calls of
    [rederiveKey] with that password and salt both return the same key of
    32 bytes, together with the salt given. *)
Theorem rederiveKey_deterministic {P : Platform} {L : PlatformLaws P}
  (password : jsstring) (salt : bytes) (first second : result DerivedKey) :
  password <> [] ->
  length salt = 16%nat ->
  first = rederiveKey password salt no_params ->
  second = rederiveKey password salt no_params ->
  exists key,
    first = Ok (mk_derived key salt)
    /\ second = Ok (mk_derived key salt)
    /\ length key = 32%nat.
Proof.
  intros Hp Hs -> ->. unfold rederiveKey.
  destruct password as [| c password]; [congruence |]. cbn [str_empty].
  rewrite Hs. cbn [Nat.eqb negb].
  destruct (argon2id_default (c :: password) salt Hs) as (key & Hk & Hlen).
  cbn [merge_params DEFAULT_KDF_PARAMS no_params memory iterations parallelism
       keyLength p_memory p_iterations p_parallelism p_keyLength default].
  rewrite Hk. exists key. auto.
Qed.

Lemma rederiveKey_deterministic_witness :
  exists key,
    rederiveKey (H := sample_platform) (js "correct horse") (map Z.of_nat (seq 0 16))
      no_params = Ok (mk_derived key (map Z.of_nat (seq 0 16)))
    /\ rederiveKey (H := sample_platform) (js "correct horse") (map Z.of_nat (seq 0 16))
         no_params = Ok (mk_derived key (map Z.of_nat (seq 0 16)))
    /\ length key = 32%nat.
Proof.
  apply (rederiveKey_deterministic (P := sample_platform) (L := sample_laws)
           (js "correct horse") (map Z.of_nat (seq 0 16)));
    [discriminate | reflexivity | reflexivity | reflexivity].
Defined.

(* ------------------------------------------------------------------ *)
(** ** The monad, statement by statement *)

Lemma statement_no_fault w : faults w = [] -> statement w = (Ok tt, w).
Proof. intros Hf. unfold statement. rewrite Hf. reflexivity. Qed.

Lemma statement_rows w : evidences (statement w).2 = evidences w.
Proof. unfold statement. destruct (faults w) as [| [m |] fs]; reflexivity. Qed.

Lemma select_no_fault {A} (q : list Evidence -> A) w :
  faults w = [] -> select q w = (Ok (q (evidences w)), w).
Proof. intros Hf. unfold select, bind. rewrite statement_no_fault by assumption. reflexivity. Qed.

(** A query returns its answer on the rows, or throws; either way the rows
    stay. *)
Lemma select_cases {A} (q : list Evidence -> A) w :
  evidences (select q w).2 = evidences w
  /\ ((select q w).1 = Ok (q (evidences w)) \/ exists m, (select q w).1 = Throw m).
Proof.
  unfold select, bind, statement.
  destruct (faults w) as [| [m |] fs]; cbn; eauto.
Qed.

Lemma findById_no_fault id w :
  faults w = [] ->
  findById id w = (Ok (List.find (fun r => str_eqb (ev_id r) id) (evidences w)), w).
Proof.
  intros Hf. unfold findById, try_catch. rewrite select_no_fault by assumption.
  reflexivity.
Qed.

Lemma findById_cases id w :
  evidences (findById id w).2 = evidences w
  /\ ((findById id w).1 = Ok (List.find (fun r => str_eqb (ev_id r) id) (evidences w))
      \/ exists m, (findById id w).1 = Throw m).
Proof.
  unfold findById, try_catch.
  destruct (select_cases (fun rows => List.find (fun r => str_eqb (ev_id r) id) rows) w)
    as [Hrows [Hok | [m Hm]]];
    destruct (select _ w) as [r w']; cbn in *; subst; cbn; eauto.
Qed.

Lemma find_absent id (rows : list Evidence) :
  (forall r, r ∈ rows -> ev_id r <> id) ->
  List.find (fun r => str_eqb (ev_id r) id) rows = None.
Proof.
  induction rows as [| r rows IH]; intros Hno; [reflexivity |].
  cbn [List.find]. unfold str_eqb at 1.
  rewrite bool_decide_eq_false_2 by (apply Hno; left).
  apply IH. intros r' Hr'. apply Hno. right. exact Hr'.
Qed.

(* ------------------------------------------------------------------ *)
(** ** tools/verify-footprint.ts *)

(** C10: for every id that no record of the store has, the handler of
    verify-footprint throws and returns no verification result; unless the
    lookup itself meets an I/O fault, the error is the not-found error. *)
Theorem verify_footprint_not_found {P : Platform}
  (getDerivedKey : DB bytes) (id : jsstring) (w : World) :
  (forall r, r ∈ evidences w -> ev_id r <> id) ->
  exists message w',
    verify_footprint getDerivedKey id w = (Throw message, w')
    /\ evidences w' = evidences w
    /\ (faults w = [] ->
        message = js "[Tool: verify-footprint] Footprint with ID " ++ id
                  ++ js " not found. Suggested action: Verify the footprint ID exists and encryption password is correct.").
Proof.
  intros Hno. unfold verify_footprint, wrapToolHandler, bind.
  destruct (findById_cases id w) as [Hrows Hres].
  pose proof (findById_no_fault id w) as Hquiet.
  rewrite (find_absent id _ Hno) in Hres, Hquiet.
  destruct (findById id w) as [found w1]. cbn [fst snd] in *.
  destruct Hres as [-> | [m ->]].
  - cbn [throw]. eexists _, _. split; [reflexivity |]. split; [exact Hrows |].
    intros _. rewrite <- !app_assoc. reflexivity.
  - eexists _, _. split; [reflexivity |]. split; [exact Hrows |].
    intros Hf. specialize (Hquiet Hf). discriminate.
Qed.

Lemma verify_footprint_not_found_witness :
  exists message w',
    verify_footprint (H := sample_platform) (ret sample_key) (js "missing")
      (sample_world [sample_row "r1" "2026-01-01" None]) = (Throw message, w')
    /\ evidences w' = [sample_row "r1" "2026-01-01" None]
    /\ (@nil (option (list Z)) = [] ->
        message = js "[Tool: verify-footprint] Footprint with ID missing not found. Suggested action: Verify the footprint ID exists and encryption password is correct.").
Proof.
  apply (verify_footprint_not_found (P := sample_platform) (ret sample_key) (js "missing")
           (sample_world [sample_row "r1" "2026-01-01" None])).
  intros r Hr. apply list_elem_of_singleton in Hr. subst r. discriminate.
Defined.

(** C7: for every record of the store, when decryption of its content
    throws, the handler of verify-footprint returns a response (it does not
    throw) whose content-integrity check is false with an empty hash and
    whose decryption check is false. *)
Theorem verify_footprint_decryption_failure {P : Platform}
  (getDerivedKey : DB bytes) (id : jsstring) (w w1 w2 : World)
  (fp : Evidence) (key : bytes) (m : jsstring) :
  findById id w = (Ok (Some fp), w1) ->
  getDerivedKey w1 = (Ok key, w2) ->
  decrypt (encryptedContent fp) (nonce fp) key = Throw m ->
  exists response w3,
    verify_footprint getDerivedKey id w = (Ok response, w3)
    /\ ci_passed (contentIntegrity (checks (structuredContent response))) = false
    /\ ci_hash (contentIntegrity (checks (structuredContent response))) = []
    /\ es_passed (encryptionStatus (checks (structuredContent response))) = false
    /\ verified (structuredContent response) = false.
Proof.
  intros Hfind Hkey Hdec. unfold verify_footprint, wrapToolHandler, bind.
  rewrite Hfind, Hkey, Hdec. cbn. eexists _, _. split; [reflexivity |].
  cbn. auto.
Qed.

Lemma verify_footprint_decryption_failure_witness :
  exists response w3,
    verify_footprint (H := sample_platform) (ret sample_key) (js "r1")
      (sample_world [tampered_row]) = (Ok response, w3)
    /\ ci_passed (contentIntegrity (checks (structuredContent response))) = false
    /\ ci_hash (contentIntegrity (checks (structuredContent response))) = []
    /\ es_passed (encryptionStatus (checks (structuredContent response))) = false
    /\ verified (structuredContent response) = false.
Proof.
  apply (verify_footprint_decryption_failure (P := sample_platform) (ret sample_key)
           (js "r1") (sample_world [tampered_row]) (sample_world [tampered_row])
           (sample_world [tampered_row]) tampered_row sample_key
           (js "Decryption failed: invalid key or tampered data"));
    reflexivity.
Defined.

(* ------------------------------------------------------------------ *)
(** ** tools/list-footprints.ts *)

Lemma db_list_no_fault options w :
  faults w = [] ->
  db_list options w =
    (Ok (paginate (lo_limit options) (default 0 (lo_offset options))
           (order_by_timestamp_desc (evidences w))), w).
Proof.
  intros Hf. unfold db_list, try_catch. rewrite select_no_fault by assumption.
  reflexivity.
Qed.

Lemma index_insert_Permutation r index :
  Permutation (index_insert r index) (r :: index).
Proof.
  induction index as [| e rest IH]; [reflexivity |].
  cbn [index_insert]. destruct (str_leb (timestamp e) (timestamp r)); [| reflexivity].
  rewrite IH. apply perm_swap.
Qed.

Lemma order_by_timestamp_Permutation rows :
  Permutation (order_by_timestamp rows) rows.
Proof.
  unfold order_by_timestamp.
  assert (H : forall index : list Evidence,
             Permutation (fold_left (fun index r => index_insert r index) rows index)
               (index ++ rows)).
  { induction rows as [| r rows IH]; intros index; cbn [fold_left].
    - rewrite app_nil_r. reflexivity.
    - rewrite IH, index_insert_Permutation. apply Permutation_middle. }
  apply (H []).
Qed.

Lemma order_by_timestamp_desc_Permutation rows :
  Permutation (order_by_timestamp_desc rows) rows.
Proof.
  unfold order_by_timestamp_desc. rewrite <- Permutation_rev.
  apply order_by_timestamp_Permutation.
Qed.

(** Of rows with one timestamp, a listing gives the one inserted last
    first. *)
Example order_of_equal_timestamps :
  map ev_id
    (order_by_timestamp_desc
       [sample_row "r1" "2026-01-01" None; sample_row "r2" "2026-01-02" None;
        sample_row "r3" "2026-01-01" None; sample_row "r4" "2026-01-01" None])
  = [js "r2"; js "r4"; js "r3"; js "r1"].
Proof. reflexivity. Qed.

Lemma order_by_timestamp_desc_length rows :
  length (order_by_timestamp_desc rows) = length rows.
Proof. apply Permutation_length, order_by_timestamp_desc_Permutation. Qed.

(** The size of a page: what is left after the offset, cut at the limit. *)
Lemma paginate_length limit offset (rows : list Evidence) :
  0 <= offset -> (forall l, limit = Some l -> 0 < l) ->
  Z.of_nat (length (paginate limit offset rows)) =
    let rest := Z.max 0 (Z.of_nat (length rows) - offset) in
    match limit with Some l => Z.min l rest | None => rest end.
Proof.
  intros Ho Hl. unfold paginate, sql_limit. cbv zeta.
  destruct limit as [l |].
  - specialize (Hl l eq_refl). replace (l <? 0) with false by lia.
    destruct (0 <? offset) eqn:Hpos; rewrite length_take, length_drop; lia.
  - destruct (0 <? offset) eqn:Hpos.
    + cbn [Z.ltb Z.compare]. rewrite length_drop. lia.
    + lia.
Qed.

Lemma db_list_cases options w :
  evidences (db_list options w).2 = evidences w
  /\ ((db_list options w).1
      = Ok (paginate (lo_limit options) (default 0 (lo_offset options))
              (order_by_timestamp_desc (evidences w)))
      \/ exists m, (db_list options w).1 = Throw m).
Proof.
  unfold db_list, try_catch.
  match goal with |- context [select ?q w] =>
    destruct (select_cases q w) as [Hrows [Hok | [m Hm]]];
    destruct (select q w) as [r w1] end; cbn [fst snd] in *; subst; cbn; eauto.
Qed.

(** C8: for every store and every limit and offset, whenever the handler
    of list-footprints returns, it returns the page of the listing that
    the limit and the offset cut out, and [total] is the number of records
    of that page; and for a valid limit and offset and without I/O faults
    it does return, with [total] what is left after the offset, at most
    the limit: not the number of records of the store. *)
Theorem list_footprints_total (params : ListParams) (w : World) :
  (forall response w',
     list_footprints params w = (Ok response, w') ->
     footprints (structuredContent response) =
       map summary (paginate (lp_limit params) (default 0 (lp_offset params))
                      (order_by_timestamp_desc (evidences w)))
     /\ total (structuredContent response) =
          Z.of_nat (length (footprints (structuredContent response))))
  /\ (faults w = [] ->
      (forall l, lp_limit params = Some l -> 0 < l) ->
      (forall o, lp_offset params = Some o -> 0 <= o) ->
      exists response,
        list_footprints params w = (Ok response, w)
        /\ total (structuredContent response) =
             let rest := Z.max 0 (Z.of_nat (length (evidences w))
                                  - default 0 (lp_offset params)) in
             match lp_limit params with Some l => Z.min l rest | None => rest end).
Proof.
  split.
  - intros response w' Hrun. unfold list_footprints, wrapToolHandler, bind in Hrun.
    destruct (match lp_limit params with Some l => l <=? 0 | None => false end);
      [discriminate |].
    destruct (match lp_offset params with Some o => o <? 0 | None => false end);
      [discriminate |].
    destruct (db_list_cases (mk_list_options (lp_limit params) (lp_offset params)) w)
      as [_ Hres].
    destruct (db_list _ w) as [found w1]. cbn [fst snd lo_limit lo_offset] in Hres.
    destruct Hres as [-> | [m ->]]; [| discriminate].
    cbn [ret] in Hrun. injection Hrun as <- <-.
    cbn [structuredContent formatSuccessResponse createToolResponse footprints total].
    split; [reflexivity | rewrite length_map; reflexivity].
  - intros Hf Hl Ho. unfold list_footprints, wrapToolHandler, bind.
    assert (Hlim : match lp_limit params with Some l => l <=? 0 | None => false end
                   = false).
    { destruct (lp_limit params) as [l |] eqn:E; [| reflexivity].
      specialize (Hl l eq_refl). lia. }
    assert (Hoff : match lp_offset params with Some o => o <? 0 | None => false end
                   = false).
    { destruct (lp_offset params) as [o |] eqn:E; [| reflexivity].
      specialize (Ho o eq_refl). lia. }
    rewrite Hlim, Hoff, db_list_no_fault by assumption.
    cbn [lo_limit lo_offset ret]. eexists. split; [reflexivity |].
    cbn [structuredContent formatSuccessResponse createToolResponse footprints total].
    rewrite paginate_length, order_by_timestamp_desc_length.
    + reflexivity.
    + destruct (lp_offset params) as [o |]; cbn; [apply Ho; reflexivity | lia].
    + exact Hl.
Qed.

Lemma list_footprints_total_witness :
  exists response,
    list_footprints (mk_list_params (Some 2) (Some 0))
      (sample_world [sample_row "r1" "2026-01-01" None;
                     sample_row "r2" "2026-01-03" None;
                     sample_row "r3" "2026-01-02" None])
    = (Ok response,
       sample_world [sample_row "r1" "2026-01-01" None;
                     sample_row "r2" "2026-01-03" None;
                     sample_row "r3" "2026-01-02" None])
    /\ total (structuredContent response) = 2.
Proof.
  apply (proj2 (list_footprints_total (mk_list_params (Some 2) (Some 0))
                  (sample_world [sample_row "r1" "2026-01-01" None;
                                 sample_row "r2" "2026-01-03" None;
                                 sample_row "r3" "2026-01-02" None])));
    [reflexivity | intros l [= <-]; lia | intros o [= <-]; lia].
Defined.

(* ------------------------------------------------------------------ *)
(** ** Strings: split, join and trim *)

Lemma split_comma_comma_free s : comma_free s -> split_comma s = [s].
Proof.
  induction 1 as [| c s Hc _ IH]; [reflexivity |].
  cbn [split_comma]. apply Z.eqb_neq in Hc. rewrite Hc, IH. reflexivity.
Qed.

Lemma split_comma_app w rest :
  comma_free w -> split_comma (w ++ comma :: rest) = w :: split_comma rest.
Proof.
  induction 1 as [| c s Hc _ IH]; cbn [app split_comma].
  - rewrite Z.eqb_refl. reflexivity.
  - apply Z.eqb_neq in Hc. rewrite Hc, IH. reflexivity.
Qed.

Lemma split_comma_join l :
  l <> [] -> Forall comma_free l -> split_comma (join [comma] l) = l.
Proof.
  intros Hne Hall. induction Hall as [| w l Hw Hl IH]; [congruence |].
  destruct l as [| w' l].
  - cbn [join]. apply split_comma_comma_free. exact Hw.
  - change (join [comma] (w :: w' :: l)) with (w ++ comma :: join [comma] (w' :: l)).
    rewrite split_comma_app by exact Hw. f_equal. apply IH. discriminate.
Qed.

Lemma split_comma_pieces s : Forall comma_free (split_comma s).
Proof.
  induction s as [| c s IH]; cbn [split_comma].
  - repeat constructor.
  - destruct (c =? comma) eqn:Hc.
    + constructor; [constructor | exact IH].
    + destruct (split_comma s) as [| w ws]; [repeat constructor; lia |].
      inversion IH; subst. constructor; [| assumption].
      constructor; [lia | assumption].
Qed.

Lemma split_comma_nonempty s : split_comma s <> [].
Proof.
  destruct s as [| c s]; cbn [split_comma]; [discriminate |].
  destruct (c =? comma); [discriminate |]. destruct (split_comma s); discriminate.
Qed.

Lemma trim_start_suffix s : exists p, s = p ++ trim_start s.
Proof.
  induction s as [| c s [p IH]]; [exists []; reflexivity |].
  cbn [trim_start]. destruct (is_ws c).
  - exists (c :: p). cbn. f_equal. exact IH.
  - exists []. reflexivity.
Qed.

Lemma trim_start_clean s : starts_clean (trim_start s).
Proof.
  induction s as [| c s IH]; [exact I |].
  cbn [trim_start]. destruct (is_ws c) eqn:Hc; [exact IH | exact Hc].
Qed.

Lemma trim_start_id s : starts_clean s -> trim_start s = s.
Proof. destruct s as [| c s]; [reflexivity |]. cbn. intros ->. reflexivity. Qed.

Lemma trim_idempotent s : trim (trim s) = trim s.
Proof.
  unfold trim. set (a := trim_start s). set (b := trim_start (rev a)).
  assert (Ha : starts_clean a) by apply trim_start_clean.
  assert (Hb : starts_clean b) by apply trim_start_clean.
  assert (Hrb : starts_clean (rev b)).
  { destruct (trim_start_suffix (rev a)) as [p Hp]. fold b in Hp.
    assert (Hra : a = rev b ++ rev p).
    { rewrite <- (rev_involutive a), Hp, rev_app_distr. reflexivity. }
    destruct (rev b) as [| c rb]; [exact I |].
    rewrite Hra in Ha. exact Ha. }
  rewrite (trim_start_id (rev b)) by exact Hrb.
  rewrite rev_involutive, (trim_start_id b) by exact Hb. reflexivity.
Qed.

Lemma trim_start_comma_free s : comma_free s -> comma_free (trim_start s).
Proof.
  intros Hs. destruct (trim_start_suffix s) as [p Hp]. unfold comma_free in *.
  rewrite Hp in Hs. apply Forall_app in Hs. apply Hs.
Qed.

Lemma trim_comma_free s : comma_free s -> comma_free (trim s).
Proof.
  intros Hs. unfold trim, comma_free. apply Forall_rev.
  apply trim_start_comma_free. apply Forall_rev. apply trim_start_comma_free. exact Hs.
Qed.

Lemma join_nonempty (l : list jsstring) :
  l <> [] -> Forall (fun t => t <> []) l -> join [comma] l <> [].
Proof.
  intros Hne Hall. destruct Hall as [| w l Hw Hl]; [congruence |].
  destruct l as [| w' l]; cbn [join]; [exact Hw |].
  destruct w; [congruence | done].
Qed.

Lemma map_trim_trimmed l : Forall trimmed l -> map trim l = l.
Proof.
  induction 1 as [| w l Hw _ IH]; [reflexivity |].
  cbn [map]. rewrite Hw, IH. reflexivity.
Qed.

(** The tags of a joined list of clean pieces are its non-empty pieces. *)
Lemma tokens_join l :
  l <> [] -> Forall comma_free l -> Forall trimmed l ->
  tokens (join [comma] l) = List.filter (fun t => negb (str_empty t)) l.
Proof.
  intros Hne Hcf Htr. unfold tokens.
  rewrite split_comma_join, map_trim_trimmed by assumption. reflexivity.
Qed.

Lemma tokens_comma_free s : Forall comma_free (tokens s).
Proof.
  unfold tokens. apply Forall_forall. intros t Ht.
  apply list_elem_of_In, filter_In in Ht as [Ht _].
  apply in_map_iff in Ht as (x & <- & Hx). apply trim_comma_free.
  pose proof (split_comma_pieces s) as Hall.
  rewrite Forall_forall in Hall. apply Hall, list_elem_of_In, Hx.
Qed.

Lemma tokens_trimmed s : Forall trimmed (tokens s).
Proof.
  unfold tokens. apply Forall_forall. intros t Ht.
  apply list_elem_of_In, filter_In in Ht as [Ht _].
  apply in_map_iff in Ht as (x & <- & Hx). apply trim_idempotent.
Qed.

Lemma tokens_nonempty s : Forall (fun t => t <> []) (tokens s).
Proof.
  unfold tokens. apply Forall_forall. intros t Ht.
  apply list_elem_of_In, filter_In in Ht as [_ Ht]. destruct t; [discriminate | done].
Qed.

(* ------------------------------------------------------------------ *)
(** ** [new Set] *)

Lemma set_add_spec acc x :
  NoDup acc -> NoDup (set_add acc x) /\ (forall y, y ∈ set_add acc x <-> y ∈ acc \/ y = x).
Proof.
  intros Hnd. unfold set_add. case_bool_decide as Hin.
  - split; [exact Hnd |]. intros y. split; [auto |]. intros [? | ->]; assumption.
  - split.
    + apply NoDup_app. split; [exact Hnd |]. split; [| apply NoDup_singleton].
      intros y Hy Hy'. apply list_elem_of_singleton in Hy'. subst. contradiction.
    + intros y. rewrite elem_of_app, list_elem_of_singleton. reflexivity.
Qed.

Lemma fold_set_add_spec l : forall acc,
  NoDup acc ->
  NoDup (fold_left set_add l acc)
  /\ (forall y, y ∈ fold_left set_add l acc <-> y ∈ acc \/ y ∈ l).
Proof.
  induction l as [| x l IH]; intros acc Hnd; cbn [fold_left].
  - split; [exact Hnd |]. intros y. rewrite elem_of_nil. tauto.
  - destruct (set_add_spec acc x Hnd) as [Hnd' Hin].
    destruct (IH _ Hnd') as [Hnd'' Hin'']. split; [exact Hnd'' |].
    intros y. rewrite Hin'', Hin, elem_of_cons. tauto.
Qed.

Lemma set_of_NoDup l : NoDup (set_of l).
Proof. apply fold_set_add_spec. constructor. Qed.

Lemma set_of_elem l y : y ∈ set_of l <-> y ∈ l.
Proof.
  unfold set_of. destruct (fold_set_add_spec l [] (NoDup_nil_2)) as [_ H].
  rewrite H, elem_of_nil. tauto.
Qed.

(* ------------------------------------------------------------------ *)
(** ** The loops of [renameTag] and [removeTag] *)

Section TagLoop.
Context {P : Platform}.

Lemma rename_loop_tag_loop oldTag newTag found : forall count w,
  rename_loop oldTag newTag found count w
  = tag_loop (fun s => Some (renamed_tags oldTag newTag s)) found count w.
Proof.
  induction found as [| e rest IH]; intros count w; [reflexivity |].
  cbn [rename_loop tag_loop]. destruct (tags e) as [[| c s] |]; try apply IH.
  unfold bind. destruct (updateTags _ _ w) as [[b |m] w1]; [apply IH | reflexivity].
Qed.

Lemma remove_loop_tag_loop tag found : forall count w,
  remove_loop tag found count w = tag_loop (removed_tags tag) found count w.
Proof.
  induction found as [| e rest IH]; intros count w; [reflexivity |].
  cbn [remove_loop tag_loop]. destruct (tags e) as [[| c s] |]; try apply IH.
  unfold bind. destruct (updateTags _ _ w) as [[b |m] w1]; [apply IH | reflexivity].
Qed.

Lemma changes_positive (p : Evidence -> bool) rows :
  (0 <? Z.of_nat (length (List.filter p rows))) = existsb p rows.
Proof.
  induction rows as [| r rows IH]; [reflexivity |].
  cbn [List.filter existsb]. destruct (p r); [cbn [length orb]; apply Z.ltb_lt; lia | exact IH].
Qed.

(** [updateTags] throws and leaves the rows, or rewrites the rows of the
    given id and says whether there was one. *)
Lemma updateTags_cases id t w :
  (exists m w', updateTags id t w = (Throw m, w') /\ evidences w' = evidences w
                /\ faults w <> [])
  \/ (exists w', updateTags id t w
                 = (Ok (existsb (fun r => str_eqb (ev_id r) id) (evidences w)), w')
                 /\ evidences w' = map (set_tags id t (toISOString (clock w))) (evidences w)
                 /\ (faults w = [] -> faults w' = [])).
Proof.
  unfold updateTags, try_catch, Date_now, run, statement, ret, update_tags_sql, bind.
  cbn [faults evidences clock rethrow].
  destruct (faults w) as [| [m |] fs] eqn:Hf; cbn [faults evidences clock rethrow].
  - right. eexists. rewrite changes_positive.
    split; [reflexivity |]. cbn [evidences faults]. auto.
  - left. eexists _, _. split; [reflexivity |]. split; [reflexivity | discriminate].
  - right. eexists. rewrite changes_positive.
    split; [reflexivity |]. cbn [evidences faults]. split; [reflexivity | discriminate].
Qed.

Lemma rewrite_row_id f now r : ev_id (rewrite_row f now r) = ev_id r.
Proof. unfold rewrite_row. destruct (tags r) as [[| c s] |]; reflexivity. Qed.

(** Rows of a table with a primary key are told apart by their ids. *)
Lemma primary_key (rows : list Evidence) r e :
  NoDup (map ev_id rows) -> r ∈ rows -> e ∈ rows -> ev_id r = ev_id e -> r = e.
Proof.
  induction rows as [| x rows IH]; intros Hnd Hr He Hid.
  - apply elem_of_nil in Hr. contradiction.
  - cbn [map] in Hnd. apply NoDup_cons in Hnd as [Hx Hnd].
    apply elem_of_cons in Hr as [-> | Hr]; apply elem_of_cons in He as [-> | He].
    + reflexivity.
    + exfalso. apply Hx. rewrite Hid. apply list_elem_of_fmap_2. exact He.
    + exfalso. apply Hx. rewrite <- Hid. apply list_elem_of_fmap_2. exact Hr.
    + apply IH; assumption.
Qed.

Lemma stamped_id f stamp r : ev_id (stamped f stamp r) = ev_id r.
Proof. unfold stamped. destruct (stamp r); [apply rewrite_row_id | reflexivity]. Qed.

Lemma set_tags_stamped f stamp e c s now :
  tags e = Some (c :: s) ->
  set_tags (ev_id e) (f (c :: s)) now (stamped f stamp e)
  = rewrite_row f now e.
Proof.
  intros Ht. unfold set_tags, str_eqb. rewrite stamped_id.
  rewrite bool_decide_eq_true_2 by reflexivity.
  unfold stamped, rewrite_row. destruct (stamp e); rewrite Ht; reflexivity.
Qed.

Lemma set_tags_other id t now r : ev_id r <> id -> set_tags id t now r = r.
Proof.
  intros Hne. unfold set_tags, str_eqb.
  rewrite bool_decide_eq_false_2 by exact Hne. reflexivity.
Qed.

Lemma tag_loop_ok f rows :
  NoDup (map ev_id rows) ->
  forall found stamp count w n w',
    (forall e, e ∈ found -> e ∈ rows) ->
    evidences w = map (stamped f stamp) rows ->
    tag_loop f found count w = (Ok n, w') ->
    (exists stamp',
       evidences w' = map (stamped f stamp') rows
       /\ (forall r, is_Some (stamp r) -> is_Some (stamp' r))
       /\ (forall r, is_Some (stamp' r) -> is_Some (stamp r) \/ r ∈ found)
       /\ (forall r, r ∈ found -> tags r = None \/ tags r = Some [] \/ is_Some (stamp' r)))
    /\ n = count + Z.of_nat (length (List.filter (fun e => truthy (tags e)) found)).
Proof.
  intros Hnd. induction found as [| e rest IH]; intros stamp count w n w' Hsub Hw Hrun.
  - cbn in Hrun. injection Hrun as <- <-. split; [| cbn; lia].
    exists stamp. split; [exact Hw |]. split; [auto |]. split; [auto |].
    intros r Hr. apply elem_of_nil in Hr. contradiction.
  - assert (He : e ∈ rows) by (apply Hsub; left).
    assert (Hrest : forall x, x ∈ rest -> x ∈ rows) by (intros x Hx; apply Hsub; right; exact Hx).
    cbn [tag_loop] in Hrun.
    destruct (tags e) as [[| c s] |] eqn:Ht.
    + (* an empty tag string: skipped *)
      destruct (IH stamp count w n w' Hrest Hw Hrun)
        as [(stamp' & H1 & H0 & H2 & H3) Hn].
      split; [| cbn [List.filter]; rewrite Ht; exact Hn].
      exists stamp'. split; [exact H1 |]. split; [exact H0 |]. split.
      * intros r Hr. destruct (H2 r Hr); [left | right; right]; assumption.
      * intros r Hr. apply elem_of_cons in Hr as [-> | Hr]; [auto | apply H3, Hr].
    + (* a tag string: rewritten *)
      unfold bind in Hrun.
      destruct (updateTags_cases (ev_id e) (f (c :: s)) w)
        as [(m & w1 & Hu & _) | (w1 & Hu & Hrows & _)];
        rewrite Hu in Hrun; [discriminate |].
      assert (Hex : existsb (fun r => str_eqb (ev_id r) (ev_id e)) (evidences w) = true).
      { apply existsb_exists. exists (stamped f stamp e). split.
        - rewrite Hw. apply in_map, list_elem_of_In, He.
        - rewrite stamped_id. apply bool_decide_eq_true_2. reflexivity. }
      rewrite Hex in Hrun.
      set (now := toISOString (clock w)) in *.
      set (stamp1 := fun r => if decide (r = e) then Some now else stamp r).
      assert (Hw1 : evidences w1 = map (stamped f stamp1) rows).
      { rewrite Hrows, Hw, map_map. apply map_ext_in. intros r Hr.
        apply list_elem_of_In in Hr. unfold stamp1.
        destruct (decide (r = e)) as [-> | Hne].
        - rewrite (set_tags_stamped f stamp e c s now Ht).
          unfold stamped. rewrite decide_True by reflexivity. reflexivity.
        - rewrite set_tags_other.
          + unfold stamped. rewrite decide_False by exact Hne. reflexivity.
          + rewrite stamped_id. intros Hid. apply Hne.
            apply (primary_key rows); assumption. }
      destruct (IH stamp1 (count + 1) w1 n w' Hrest Hw1 Hrun)
        as [(stamp' & H1 & H0 & H2 & H3) Hn].
      split; [| cbn [List.filter]; rewrite Ht; cbn [truthy length]; lia].
      exists stamp'. split; [exact H1 |]. split; [| split].
      * intros r Hr. apply H0. unfold stamp1. destruct (decide (r = e)); [eauto | exact Hr].
      * intros r Hr. destruct (H2 r Hr) as [Hs | Hin]; [| right; right; exact Hin].
        unfold stamp1 in Hs. destruct (decide (r = e)) as [-> | _];
          [right; left | left; exact Hs].
      * intros r Hr. apply elem_of_cons in Hr as [-> | Hr]; [| apply H3, Hr].
        right. right. apply H0. unfold stamp1. rewrite decide_True by reflexivity. eauto.
    + destruct (IH stamp count w n w' Hrest Hw Hrun)
        as [(stamp' & H1 & H0 & H2 & H3) Hn].
      split; [| cbn [List.filter]; rewrite Ht; exact Hn].
      exists stamp'. split; [exact H1 |]. split; [exact H0 |]. split.
      * intros r Hr. destruct (H2 r Hr); [left | right; right]; assumption.
      * intros r Hr. apply elem_of_cons in Hr as [-> | Hr]; [auto | apply H3, Hr].
Qed.
End TagLoop.

Section Retag.
Context {P : Platform}.

Lemma renameTag_retag oldTag newTag w :
  renameTag oldTag newTag w
  = retag (js "Failed to rename tag: ") oldTag
      (fun s => Some (renamed_tags oldTag newTag s)) w.
Proof.
  unfold renameTag, retag, try_catch, transaction, bind.
  destruct (statement w) as [[[] | m] w0]; [| reflexivity].
  destruct (search (by_tag oldTag) w0) as [[found | m] w1]; [| reflexivity].
  rewrite rename_loop_tag_loop. reflexivity.
Qed.

Lemma removeTag_retag tag w :
  removeTag tag w = retag (js "Failed to remove tag: ") tag (removed_tags tag) w.
Proof.
  unfold removeTag, retag, try_catch, transaction, bind.
  destruct (statement w) as [[[] | m] w0]; [| reflexivity].
  destruct (search (by_tag tag) w0) as [[found | m] w1]; [| reflexivity].
  rewrite remove_loop_tag_loop. reflexivity.
Qed.

Lemma where_clause_by_tag tag r : where_clause (by_tag tag) r = tag_condition tag r.
Proof.
  unfold where_clause, by_tag. cbn. rewrite !andb_true_r. reflexivity.
Qed.

(** The search by tag throws, or finds the rows with the tag in the
    order of the listing; the rows stay. *)
Lemma search_by_tag_cases tag w :
  evidences (search (by_tag tag) w).2 = evidences w
  /\ ((exists m, (search (by_tag tag) w).1 = Throw m)
      \/ (search (by_tag tag) w).1
         = Ok (order_by_timestamp_desc (List.filter (tag_condition tag) (evidences w)))).
Proof.
  unfold search, try_catch.
  match goal with |- context [select ?q w] =>
    destruct (select_cases q w) as [Hrows [Hok | [m Hm]]];
    destruct (select q w) as [r w1] end; cbn [fst snd] in *; subst.
  - split; [exact Hrows |]. right. cbn. f_equal. f_equal.
    apply filter_ext. intros r. apply where_clause_by_tag.
  - split; [exact Hrows |]. left. cbn. eauto.
Qed.

Lemma filter_Permutation {A} (p : A -> bool) l l' :
  Permutation l l' -> Permutation (List.filter p l) (List.filter p l').
Proof.
  induction 1 as [| x l l' _ IH | x y l | l l' l'' _ IH1 _ IH2]; cbn [List.filter].
  - constructor.
  - destruct (p x); [constructor |]; exact IH.
  - destruct (p x), (p y); try reflexivity. constructor.
  - etransitivity; eassumption.
Qed.

Lemma filter_filter {A} (p q : A -> bool) l :
  List.filter q (List.filter p l) = List.filter (fun x => p x && q x) l.
Proof.
  induction l as [| x l IH]; [reflexivity |]. cbn [List.filter].
  destruct (p x); cbn [List.filter andb]; [destruct (q x) |]; rewrite IH; reflexivity.
Qed.

Lemma map_stamped_none f (rows : list Evidence) :
  map (stamped f (fun _ => None)) rows = rows.
Proof. induction rows as [| r rows IH]; [reflexivity |]. cbn. rewrite IH. reflexivity. Qed.

Lemma rewritten_of_stamps tag f stamp (rows : list Evidence) :
  (forall r, r ∈ rows -> is_Some (stamp r) -> tag_condition tag r = true) ->
  (forall r, r ∈ rows -> tag_condition tag r = true ->
             tags r = None \/ tags r = Some [] \/ is_Some (stamp r)) ->
  rewritten (tag_condition tag) f rows (map (stamped f stamp) rows).
Proof.
  unfold rewritten. induction rows as [| r rows IH]; intros Hsel Hall; [constructor |].
  cbn [map]. constructor.
  - unfold stamped. destruct (stamp r) as [now |] eqn:Hs.
    + rewrite Hsel; [eauto | left | eauto].
    + destruct (tag_condition tag r) eqn:Hc; [| reflexivity].
      exists []. unfold rewrite_row.
      destruct (Hall r) as [-> | [-> | [now Hnow]]]; [left | exact Hc | | |];
        [reflexivity | reflexivity | congruence].
  - apply IH; intros x Hx; [apply Hsel | apply Hall]; right; exact Hx.
Qed.

(** What [renameTag] and [removeTag] leave behind: on success every
    selected row is rewritten and counted and the other rows stay; on
    failure every row stays. *)
Lemma retag_outcome prefix tag f w :
  NoDup (map ev_id (evidences w)) ->
  match retag prefix tag f w with
  | (Ok n, w') =>
      rewritten (tag_condition tag) f (evidences w) (evidences w')
      /\ n = Z.of_nat (length (List.filter (selected tag) (evidences w)))
  | (Throw _, w') => evidences w' = evidences w
  end.
Proof.
  intros Hnd. unfold retag, try_catch, transaction.
  pose proof (statement_rows w) as Hbegin.
  destruct (statement w) as [[[] | m] w0]; cbn [fst snd] in Hbegin; [| exact Hbegin].
  unfold bind.
  destruct (search_by_tag_cases tag w0) as [Hrows Hfound].
  destruct (search (by_tag tag) w0) as [[found | m] w1]; cbn [fst snd] in *;
    [| exact Hbegin].
  destruct Hfound as [[m Hm] | Hfound]; [discriminate |].
  injection Hfound as ->.
  set (found := order_by_timestamp_desc _) in *.
  assert (Hperm : Permutation found (List.filter (tag_condition tag) (evidences w)))
    by (rewrite <- Hbegin; apply order_by_timestamp_desc_Permutation).
  destruct (tag_loop f found 0 w1) as [[n | m] w2] eqn:Hloop; cbn [rethrow];
    [| exact Hbegin].
  pose proof (statement_rows w2) as Hcommit.
  destruct (statement w2) as [[[] | m] w3]; cbn [fst snd rethrow] in *;
    [| exact Hbegin].
  assert (Hin : forall e, e ∈ found <-> e ∈ evidences w /\ tag_condition tag e = true).
  { intros e. rewrite !list_elem_of_In, <- filter_In. split; apply Permutation_in.
    - exact Hperm.
    - symmetry. exact Hperm. }
  destruct (tag_loop_ok f (evidences w) Hnd found (fun _ => None) 0 w1 n w2)
    as [(stamp & Hw2 & _ & Hfrom & Hto) Hn].
  { intros e He. apply Hin in He. apply He. }
  { rewrite map_stamped_none. congruence. }
  { exact Hloop. }
  split.
  - rewrite Hcommit, Hw2. apply rewritten_of_stamps.
    + intros r _ Hs. destruct (Hfrom r Hs) as [[x Hx] | Hr]; [discriminate |].
      apply Hin in Hr. apply Hr.
    + intros r Hr Hc. apply Hto, Hin. auto.
  - rewrite Hn. cbn [Z.add]. f_equal.
    rewrite (Permutation_length (filter_Permutation (fun e => truthy (tags e)) _ _ Hperm)).
    rewrite filter_filter. reflexivity.
Qed.

Lemma tag_loop_no_fault f found : forall count w,
  faults w = [] ->
  exists n w', tag_loop f found count w = (Ok n, w') /\ faults w' = [].
Proof.
  induction found as [| e rest IH]; intros count w Hf; cbn [tag_loop].
  - eexists _, _. split; [reflexivity | exact Hf].
  - destruct (tags e) as [[| c s] |]; try (apply IH; exact Hf).
    unfold bind.
    destruct (updateTags_cases (ev_id e) (f (c :: s)) w)
      as [(m & w1 & _ & _ & Hne) | (w1 & Hu & _ & Hf1)]; [congruence |].
    rewrite Hu. apply IH. apply Hf1, Hf.
Qed.

Lemma search_no_fault o w :
  faults w = [] ->
  search o w = (Ok (paginate (so_limit o) (default 0 (so_offset o))
                      (order_by_timestamp_desc (List.filter (where_clause o) (evidences w)))), w).
Proof.
  intros Hf. unfold search, try_catch. rewrite select_no_fault by assumption.
  reflexivity.
Qed.

(** Without I/O faults [renameTag] and [removeTag] return. *)
Lemma retag_no_fault prefix tag f w :
  faults w = [] -> exists n w', retag prefix tag f w = (Ok n, w').
Proof.
  intros Hf. unfold retag, try_catch, transaction, bind.
  rewrite statement_no_fault, search_no_fault by assumption.
  destruct (tag_loop_no_fault f
              (paginate (so_limit (by_tag tag)) (default 0 (so_offset (by_tag tag)))
                 (order_by_timestamp_desc
                    (List.filter (where_clause (by_tag tag)) (evidences w)))) 0 w Hf)
    as (n & w1 & Hloop & Hf1).
  rewrite Hloop, statement_no_fault by assumption. cbn. eauto.
Qed.
End Retag.

(* ------------------------------------------------------------------ *)
(** ** LIKE *)

Lemma like_percent_cons q c s :
  like_chars (percent :: q) (c :: s)
  = like_chars q (c :: s) || like_chars (percent :: q) s.
Proof. cbn [like_chars]. rewrite Z.eqb_refl. reflexivity. Qed.

Lemma like_percent_nil q : like_chars (percent :: q) [] = like_chars q [].
Proof. cbn [like_chars]. rewrite Z.eqb_refl. apply orb_false_r. Qed.

(** [%] may swallow any prefix. *)
Lemma like_percent_skip q x s :
  like_chars q s = true -> like_chars (percent :: q) (x ++ s) = true.
Proof.
  intros Hq. induction x as [| c x IH]; cbn [app].
  - destruct s as [| d s]; [rewrite like_percent_nil; exact Hq |].
    rewrite like_percent_cons, Hq. reflexivity.
  - rewrite like_percent_cons, IH. apply orb_true_r.
Qed.

Lemma like_percent_all s : like_chars [percent] s = true.
Proof.
  rewrite <- (app_nil_r s). apply like_percent_skip. reflexivity.
Qed.

(** A text matches itself as a pattern, whatever wildcards it holds. *)
Lemma like_same_prefix p q s :
  like_chars q s = true -> like_chars (p ++ q) (p ++ s) = true.
Proof.
  intros Hq. induction p as [| c p IH]; [exact Hq |].
  cbn [app]. destruct (c =? percent) eqn:Hc.
  - apply Z.eqb_eq in Hc. subst c.
    change (percent :: p ++ s) with ([percent] ++ (p ++ s)).
    apply like_percent_skip. exact IH.
  - cbn [like_chars]. rewrite Hc, Z.eqb_refl, orb_true_r, IH. reflexivity.
Qed.

Lemma like_comma_percent s : like_chars [comma; percent] (comma :: s) = true.
Proof.
  change [comma; percent] with ([comma] ++ [percent]).
  change (comma :: s) with ([comma] ++ s).
  apply like_same_prefix, like_percent_all.
Qed.

(** LIKE reads a tag string to its first NUL only, and takes a character
    outside the basic plane, two code units of the string, as one. *)
Example like_ends_at_NUL :
  like (js "%,draft") (js "x" ++ [0] ++ js "y,draft") = false
  /\ like (js "x") (js "x" ++ [0] ++ js "y,draft") = true.
Proof. split; reflexivity. Qed.

Example like_underscore_is_one_character :
  like (js "_") [0xD83D; 0xDE00] = true /\ like (js "__") [0xD83D; 0xDE00] = false.
Proof. split; reflexivity. Qed.

(** On operands without NUL, LIKE matches the scalar values. *)
Lemma like_nul_free p s :
  Forall (fun c => c <> 0) p -> Forall (fun c => c <> 0) s ->
  like p s = like_chars (scalar_values p) (scalar_values s).
Proof.
  intros Hp Hs. unfold like. rewrite !like_operand_nul_free by assumption.
  reflexivity.
Qed.

Lemma join_cons sep w (l : list jsstring) :
  l <> [] -> join sep (w :: l) = w ++ sep ++ join sep l.
Proof. destruct l; [congruence | reflexivity]. Qed.

Lemma join_app sep (a b : list jsstring) :
  a <> [] -> b <> [] -> join sep (a ++ b) = join sep a ++ sep ++ join sep b.
Proof.
  intros Ha Hb. induction a as [| w a IH]; [congruence |].
  destruct a as [| w' a].
  - cbn [app]. rewrite join_cons by exact Hb. reflexivity.
  - change ((w :: w' :: a) ++ b) with (w :: ((w' :: a) ++ b)).
    rewrite join_cons by done. rewrite IH by done.
    rewrite (join_cons sep w (w' :: a)) by done.
    rewrite <- !app_assoc. reflexivity.
Qed.

(** The scalar values of a tag between the separators of a tag string. *)
Lemma scalar_values_comma a b :
  scalar_values (a ++ comma :: b) = scalar_values a ++ comma :: scalar_values b.
Proof. apply scalar_values_app_plain; reflexivity. Qed.

(** The tag filter selects every row whose tag string lists the tag, when
    the tag string is text without NUL. *)
Lemma tag_condition_complete tag r (l : list jsstring) :
  tags r = Some (join [comma] l) -> trim tag ∈ l ->
  well_formed (join [comma] l) = true ->
  Forall (fun c => c <> 0) (join [comma] l) ->
  tag_condition tag r = true.
Proof.
  intros Ht Hin Hwf Hnul. unfold tag_condition. rewrite Ht. cbn [like_null].
  apply list_elem_of_split in Hin as (a & b & ->).
  set (t := trim tag) in *.
  destruct a as [| a0 a], b as [| b0 b].
  - cbn [app join] in *. rewrite to_text_id by exact Hwf.
    rewrite bool_decide_eq_true_2 by reflexivity. apply orb_true_r.
  - cbn [app] in *. rewrite join_cons in * by done.
    assert (Ht0 : Forall (fun c => c <> 0) t) by (apply Forall_app in Hnul; apply Hnul).
    rewrite like_nul_free; [| apply Forall_app; split; [exact Ht0 | repeat constructor; discriminate] | exact Hnul].
    cbn [app]. rewrite !scalar_values_comma.
    rewrite (like_same_prefix (scalar_values t)); [reflexivity |].
    apply like_comma_percent.
  - rewrite join_app in * by done. cbn [join] in *.
    assert (Ht0 : Forall (fun c => c <> 0) t).
    { apply Forall_app in Hnul as [_ Hnul]. apply Forall_app in Hnul; apply Hnul. }
    replace (like ([percent; comma] ++ t) _) with true;
      [rewrite !orb_true_r; reflexivity |].
    symmetry. rewrite like_nul_free;
      [| apply Forall_app; split; [repeat constructor; discriminate | exact Ht0] | exact Hnul].
    cbn [app]. rewrite scalar_values_comma.
    change (scalar_values (percent :: comma :: t)) with (percent :: comma :: scalar_values t).
    apply like_percent_skip.
    apply (like_same_prefix [comma] (scalar_values t) (scalar_values t)).
    rewrite <- (app_nil_r (scalar_values t)) at 1.
    rewrite <- (app_nil_r (scalar_values t)) at 2.
    apply like_same_prefix. reflexivity.
  - rewrite join_app in * by done. rewrite (join_cons _ t) in * by done.
    assert (Ht0 : Forall (fun c => c <> 0) t).
    { apply Forall_app in Hnul as [_ Hnul]. apply Forall_app in Hnul as [_ Hnul].
      apply Forall_app in Hnul; apply Hnul. }
    replace (like ([percent; comma] ++ t ++ [comma; percent]) _) with true;
      [rewrite !orb_true_r; reflexivity |].
    symmetry. rewrite like_nul_free; [| | exact Hnul].
    + cbn [app]. rewrite scalar_values_comma.
      change (scalar_values (percent :: comma :: t ++ [comma; percent]))
        with (percent :: comma :: scalar_values (t ++ comma :: [percent])).
      rewrite !scalar_values_comma.
      change (scalar_values [percent]) with [percent].
      apply like_percent_skip.
      apply (like_same_prefix [comma]). apply like_same_prefix.
      apply like_comma_percent.
    + apply Forall_app; split; [repeat constructor; discriminate |].
      apply Forall_app; split; [exact Ht0 | repeat constructor; discriminate].
Qed.

(* ------------------------------------------------------------------ *)
(** ** Tag lists after a mutation *)

Lemma filter_comm {A} (p q : A -> bool) l :
  List.filter p (List.filter q l) = List.filter q (List.filter p l).
Proof. rewrite !filter_filter. apply filter_ext. intros x. apply andb_comm. Qed.

Lemma join_empty (l : list jsstring) :
  join [comma] l = [] -> List.filter nonblank l = [].
Proof.
  destruct l as [| w [| w' l]]; cbn [join]; [reflexivity | intros ->; reflexivity |].
  intros H. apply app_eq_nil in H as [_ H]. discriminate.
Qed.

Lemma pieces_comma_free s : Forall comma_free (map trim (split_comma s)).
Proof.
  apply Forall_map. eapply Forall_impl; [apply split_comma_pieces |].
  intros x. apply trim_comma_free.
Qed.

Lemma pieces_trimmed s : Forall trimmed (map trim (split_comma s)).
Proof.
  apply Forall_map, Forall_forall. intros x _. apply trim_idempotent.
Qed.

(** The tags of a joined list of clean pieces, the empty join included. *)
Lemma tokens_of_join l :
  l <> [] -> Forall comma_free l -> Forall trimmed l ->
  tokens_of (Some (join [comma] l)) = List.filter nonblank l.
Proof.
  intros Hne Hcf Htr. cbn [tokens_of].
  destruct (join [comma] l) as [| c s] eqn:Hj.
  - cbn [str_empty]. symmetry. apply join_empty. exact Hj.
  - cbn [str_empty]. rewrite <- Hj. apply tokens_join; assumption.
Qed.

(** [removeTag] takes the tag out of the tags of a row and keeps the rest. *)
Lemma tokens_of_removed_tags tag s :
  tokens_of (removed_tags tag s)
  = List.filter (fun t => negb (str_eqb t tag)) (tokens s).
Proof.
  unfold removed_tags, tokens.
  set (pieces := map trim (split_comma s)).
  rewrite (filter_comm _ nonblank).
  destruct (List.filter (fun t => negb (str_eqb t tag)) pieces) as [| x kept] eqn:Hk.
  - reflexivity.
  - cbn [length Nat.ltb Nat.leb]. rewrite <- Hk. apply tokens_of_join.
    + rewrite Hk. discriminate.
    + apply Forall_forall. intros t Ht. apply list_elem_of_In, filter_In in Ht as [Ht _].
      pose proof (pieces_comma_free s) as Hall. rewrite Forall_forall in Hall.
      apply Hall, list_elem_of_In, Ht.
    + apply Forall_forall. intros t Ht. apply list_elem_of_In, filter_In in Ht as [Ht _].
      pose proof (pieces_trimmed s) as Hall. rewrite Forall_forall in Hall.
      apply Hall, list_elem_of_In, Ht.
Qed.

Lemma filter_replace_tag oldTag newTag (l : list jsstring) :
  oldTag <> [] -> newTag <> [] ->
  List.filter nonblank (map (replace_tag oldTag newTag) l)
  = map (replace_tag oldTag newTag) (List.filter nonblank l).
Proof.
  intros Hold Hnew. induction l as [| x l IH]; [reflexivity |].
  cbn [map List.filter].
  assert (Hx : nonblank (replace_tag oldTag newTag x) = nonblank x).
  { unfold replace_tag, str_eqb. case_bool_decide as Hx; [| reflexivity].
    subst x. destruct oldTag; [congruence |]. destruct newTag; [congruence |].
    reflexivity. }
  rewrite Hx. destruct (nonblank x); cbn [map]; rewrite IH; reflexivity.
Qed.

(** [renameTag] maps the tags of a row: the old tag becomes the new tag,
    the other tags stay. *)
Lemma tokens_of_renamed_tags oldTag newTag s :
  oldTag <> [] -> newTag <> [] -> comma_free newTag -> trimmed newTag ->
  tokens_of (Some (renamed_tags oldTag newTag s))
  = map (replace_tag oldTag newTag) (tokens s).
Proof.
  intros Hold Hnew Hcf Htr. unfold renamed_tags, tokens.
  set (pieces := map trim (split_comma s)).
  fold (replace_tag oldTag newTag).
  rewrite tokens_of_join.
  - apply filter_replace_tag; assumption.
  - pose proof (split_comma_nonempty s). subst pieces.
    destruct (split_comma s); [congruence | discriminate].
  - apply Forall_map. eapply Forall_impl; [apply (pieces_comma_free s) |].
    intros x Hx. unfold replace_tag. destruct (str_eqb x oldTag); assumption.
  - apply Forall_map. eapply Forall_impl; [apply (pieces_trimmed s) |].
    intros x Hx. unfold replace_tag. destruct (str_eqb x oldTag); assumption.
Qed.

Lemma NoDup_replace_tag oldTag newTag (l : list jsstring) :
  NoDup l -> newTag ∉ l -> NoDup (map (replace_tag oldTag newTag) l).
Proof.
  intros Hnd Hnew. apply NoDup_fmap_2_strong; [| exact Hnd].
  intros x y Hx Hy. unfold replace_tag, str_eqb.
  repeat case_bool_decide; intros Heq; subst; try reflexivity; contradiction.
Qed.

Lemma NoDup_filter_bool {A} (p : A -> bool) l : NoDup l -> NoDup (List.filter p l).
Proof.
  induction 1 as [| x l Hx _ IH]; cbn [List.filter]; [constructor |].
  destruct (p x); [| exact IH]. constructor; [| exact IH].
  intros Hin. apply Hx. apply list_elem_of_In, filter_In in Hin as [Hin _].
  apply list_elem_of_In, Hin.
Qed.

Lemma is_ws_plain c : is_ws c = true -> is_high c = false /\ is_low c = false.
Proof. unfold is_ws, is_high, is_low. intros H. split; lia. Qed.

Lemma trim_start_ws_prefix s :
  exists p, s = p ++ trim_start s /\ Forall (fun c => is_ws c = true) p.
Proof.
  induction s as [| c s (p & IH & Hp)]; [exists []; split; [reflexivity | constructor] |].
  cbn [trim_start]. destruct (is_ws c) eqn:Hc.
  - exists (c :: p). split; [cbn; f_equal; exact IH | constructor; assumption].
  - exists []. split; [reflexivity | constructor].
Qed.

(** [trim] takes blanks from the two ends of a string. *)
Lemma trim_middle s :
  exists p q, s = p ++ trim s ++ q
              /\ Forall (fun c => is_ws c = true) p
              /\ Forall (fun c => is_ws c = true) q.
Proof.
  unfold trim. destruct (trim_start_ws_prefix s) as (p & Hp & Hpw).
  destruct (trim_start_ws_prefix (rev (trim_start s))) as (q & Hq & Hqw).
  exists p, (rev q). split; [| split; [exact Hpw | apply Forall_rev, Hqw]].
  rewrite <- rev_app_distr, <- Hq, rev_involutive. exact Hp.
Qed.

Lemma text_drop_blanks p s :
  Forall (fun c => is_ws c = true) p -> text (p ++ s) -> text s.
Proof.
  unfold text. induction 1 as [| c p Hc _ IH]; [auto |].
  cbn [app well_formed]. destruct (is_ws_plain c Hc) as [-> _].
  rewrite !andb_true_iff. intros [_ H]. apply IH, H.
Qed.

Lemma text_trim s : text s -> text (trim s).
Proof.
  intros Hs. destruct (trim_middle s) as (p & q & Heq & Hp & Hq).
  rewrite Heq in Hs. apply text_drop_blanks in Hs; [| exact Hp].
  destruct Hq as [| c q Hc _]; [rewrite app_nil_r in Hs; exact Hs |].
  destruct (is_ws_plain c Hc) as [Hh Hl].
  apply (well_formed_split _ c q Hh Hl Hs).
Qed.

Lemma join_split_comma s : join [comma] (split_comma s) = s.
Proof.
  induction s as [| c s IH]; [reflexivity |].
  cbn [split_comma]. destruct (c =? comma) eqn:Hc.
  - apply Z.eqb_eq in Hc. subst c.
    pose proof (split_comma_nonempty s) as Hne.
    rewrite join_cons by exact Hne. cbn [app]. rewrite IH. reflexivity.
  - pose proof (split_comma_nonempty s) as Hne.
    destruct (split_comma s) as [| w ws]; [congruence |].
    destruct ws as [| w' ws]; cbn [join] in *; rewrite <- IH; reflexivity.
Qed.

Lemma text_join l : Forall text l -> text (join [comma] l).
Proof.
  unfold text. induction 1 as [| w l Hw Hl IH]; [reflexivity |].
  destruct l as [| w' l]; [exact Hw |].
  rewrite join_cons by discriminate. apply well_formed_app; [exact Hw |].
  cbn [app]. rewrite well_formed_cons by (unfold comma; first [reflexivity | lia]).
  exact IH.
Qed.

Lemma text_pieces l : text (join [comma] l) -> Forall text l.
Proof.
  unfold text. induction l as [| w l IH]; intros Hj; [constructor |].
  destruct l as [| w' l]; [repeat constructor; exact Hj |].
  rewrite join_cons in Hj by discriminate. cbn [app] in Hj.
  apply well_formed_split in Hj as [Hw Hrest]; [| reflexivity ..].
  constructor; [exact Hw | apply IH, Hrest].
Qed.

Lemma text_split_comma s : text s -> Forall text (split_comma s).
Proof. intros Hs. apply text_pieces. rewrite join_split_comma. exact Hs. Qed.

(** The pieces and the tags of a text are texts. *)
Lemma pieces_text s : text s -> Forall text (map trim (split_comma s)).
Proof.
  intros Hs. apply Forall_map. eapply Forall_impl; [apply text_split_comma, Hs |].
  intros x. apply text_trim.
Qed.

Lemma tokens_text s : text s -> Forall text (tokens s).
Proof.
  intros Hs. unfold tokens. apply Forall_forall. intros t Ht.
  apply list_elem_of_In, filter_In in Ht as [Ht _].
  pose proof (pieces_text s Hs) as Hall. rewrite Forall_forall in Hall.
  apply Hall, list_elem_of_In, Ht.
Qed.

Lemma tokens_of_text o :
  (forall s, o = Some s -> text s) -> Forall text (tokens_of o).
Proof.
  intros Ho. destruct o as [s |]; cbn [tokens_of]; [| constructor].
  destruct (str_empty s); [constructor | apply tokens_text, Ho; reflexivity].
Qed.

Lemma text_filter (p : jsstring -> bool) l : Forall text l -> Forall text (List.filter p l).
Proof.
  intros Hl. apply Forall_forall. intros t Ht.
  apply list_elem_of_In, filter_In in Ht as [Ht _].
  rewrite Forall_forall in Hl. apply Hl, list_elem_of_In, Ht.
Qed.

Lemma text_table_row rows r s :
  text_tags rows -> r ∈ rows -> tags r = Some s -> text s.
Proof.
  unfold text_tags. rewrite Forall_forall. intros Hall Hr. apply Hall, Hr.
Qed.

Lemma set_tags_tags id t now r :
  ev_id (set_tags id t now r) = id -> tags (set_tags id t now r) = option_map to_text t.
Proof.
  unfold set_tags, str_eqb. case_bool_decide as Hid; [reflexivity |].
  intros H. contradiction.
Qed.

(** What a successful [addTags] has written. *)
Lemma addTags_ok {P : Platform} id ts w w' :
  addTags id ts w = (Ok tt, w') ->
  exists e now,
    List.find (fun r => str_eqb (ev_id r) id) (evidences w) = Some e
    /\ evidences w' =
         map (set_tags id
                (Some (join [comma]
                         (set_of (tokens_of (tags e)
                                  ++ List.filter nonblank (map trim ts))))) now)
           (evidences w).
Proof.
  unfold addTags, try_catch. intros Hrun.
  destruct (length ts =? 0)%nat; [discriminate |].
  destruct (length (List.filter nonblank (map trim ts)) =? 0)%nat; [discriminate |].
  unfold bind in Hrun.
  destruct (findById_cases id w) as [Hrows Hfind].
  destruct (findById id w) as [found w1]. cbn [fst snd] in *.
  destruct Hfind as [-> | [m ->]]; [| discriminate].
  destruct (List.find _ (evidences w)) as [e |] eqn:He; [| discriminate].
  exists e, (toISOString (clock w1)). split; [reflexivity |].
  unfold Date_now, run, bind, statement, update_tags_sql, ret in Hrun.
  cbn [faults evidences clock] in Hrun.
  destruct (faults w1) as [| [m |] fs]; cbn [evidences rethrow] in Hrun;
    try discriminate; injection Hrun as <-; cbn [evidences]; rewrite Hrows; reflexivity.
Qed.

Lemma addTags_no_fault {P : Platform} id ts w e :
  faults w = [] ->
  List.find (fun r => str_eqb (ev_id r) id) (evidences w) = Some e ->
  List.filter nonblank (map trim ts) <> [] ->
  exists w', addTags id ts w = (Ok tt, w').
Proof.
  intros Hf He Hvalid. unfold addTags, try_catch.
  destruct ts as [| t ts]; [contradiction Hvalid; reflexivity |].
  cbn [length Nat.eqb].
  destruct (List.filter nonblank (map trim (t :: ts))) as [| v valid] eqn:Hv;
    [congruence |].
  cbn [length Nat.eqb]. unfold bind.
  rewrite findById_no_fault, He by assumption.
  unfold Date_now, run, bind, statement, update_tags_sql, ret.
  cbn [faults evidences clock]. rewrite Hf. cbn. eauto.
Qed.

Lemma updateTags_no_fault {P : Platform} id t w :
  faults w = [] -> exists b w', updateTags id t w = (Ok b, w').
Proof.
  intros Hf. destruct (updateTags_cases id t w) as [(m & w' & _ & _ & Hne) | (w' & Hu & _)];
    [congruence | eauto].
Qed.

Lemma Forall2_impl_elem {A B} (Q R : A -> B -> Prop) l l' :
  Forall2 Q l l' -> (forall x y, x ∈ l -> Q x y -> R x y) -> Forall2 R l l'.
Proof.
  induction 1 as [| x y l l' Hxy _ IH]; intros Himpl; constructor.
  - apply Himpl; [left | exact Hxy].
  - apply IH. intros a b Ha. apply Himpl. right. exact Ha.
Qed.

(** What the tag rewrites build from a text is text, and is stored as it
    is. *)
Lemma removed_tags_text tag s :
  text s -> option_map to_text (removed_tags tag s) = removed_tags tag s.
Proof.
  intros Hs. unfold removed_tags.
  destruct (0 <? length _)%nat; [| reflexivity]. cbn [option_map]. f_equal.
  apply to_text_id, text_join, text_filter, pieces_text, Hs.
Qed.

Lemma renamed_tags_text oldTag newTag s :
  text s -> text newTag ->
  to_text (renamed_tags oldTag newTag s) = renamed_tags oldTag newTag s.
Proof.
  intros Hs Hnew. unfold renamed_tags. apply to_text_id, text_join, Forall_map.
  eapply Forall_impl; [apply pieces_text, Hs |].
  intros x Hx. cbv beta. destruct (str_eqb x oldTag); assumption.
Qed.

(** C3 (as amended): on a table with a primary key whose tag strings are
    text,
    - after [addTags] with tags that are text and hold no comma, the tag
      list stored for the record has no duplicate;
    - [removeTag] takes the tag out of every selected record and keeps the
      rest, so a tag list without duplicates stays without;
    - [renameTag] of a non-empty tag to a non-empty, trimmed, comma-free
      tag that is text keeps a tag list without duplicates so, for every
      record that does not already carry the new tag;
    - [updateTags] stores the tag string it is given, as text, without
      parsing it;
    and without I/O faults the four operations return, [removeTag] and
    [renameTag] for a tag within the limit of LIKE. *)
Theorem tag_mutations_no_duplicates {P : Platform} (w : World) :
  NoDup (map ev_id (evidences w)) ->
  text_tags (evidences w) ->
  (forall id ts w', addTags id ts w = (Ok tt, w') ->
     Forall comma_free ts -> Forall text ts ->
     forall r', r' ∈ evidences w' -> ev_id r' = id -> NoDup (tokens_of (tags r')))
  /\ (forall tag n w', removeTag tag w = (Ok n, w') ->
        Forall2 (fun r r' => NoDup (tokens_of (tags r)) -> NoDup (tokens_of (tags r')))
          (evidences w) (evidences w'))
  /\ (forall oldTag newTag n w', renameTag oldTag newTag w = (Ok n, w') ->
        oldTag <> [] -> newTag <> [] -> comma_free newTag -> trimmed newTag ->
        text newTag ->
        Forall2 (fun r r' => NoDup (tokens_of (tags r)) -> newTag ∉ tokens_of (tags r) ->
                             NoDup (tokens_of (tags r')))
          (evidences w) (evidences w'))
  /\ (forall id t b w', updateTags id t w = (Ok b, w') ->
        forall r', r' ∈ evidences w' -> ev_id r' = id -> tags r' = option_map to_text t)
  /\ (faults w = [] ->
        (forall id ts e,
            List.find (fun r => str_eqb (ev_id r) id) (evidences w) = Some e ->
            List.filter nonblank (map trim ts) <> [] ->
            exists w', addTags id ts w = (Ok tt, w'))
        /\ (forall tag, fits_like tag -> exists n w', removeTag tag w = (Ok n, w'))
        /\ (forall oldTag newTag, fits_like oldTag ->
              exists n w', renameTag oldTag newTag w = (Ok n, w'))
        /\ (forall id t, exists b w', updateTags id t w = (Ok b, w'))).
Proof.
  intros Hnd Htext. split; [| split; [| split; [| split]]].
  - (* addTags *)
    intros id ts w' Hrun Hcf Hts r' Hr' Hid.
    destruct (addTags_ok id ts w w' Hrun) as (e & now & He & Hrows).
    rewrite Hrows in Hr'. apply list_elem_of_fmap in Hr' as (r & -> & _).
    rewrite (set_tags_tags _ _ _ _ Hid). cbn [option_map].
    set (valid := List.filter nonblank (map trim ts)).
    assert (Hin : forall t, t ∈ set_of (tokens_of (tags e) ++ valid) ->
                            comma_free t /\ trimmed t /\ text t).
    { intros t Ht. apply set_of_elem, elem_of_app in Ht as [Ht | Ht].
      - assert (Htx : Forall text (tokens_of (tags e))).
        { apply tokens_of_text. intros s Hs.
          apply (text_table_row (evidences w) e s Htext); [| exact Hs].
          apply find_some in He as [He _]. apply list_elem_of_In, He. }
        rewrite Forall_forall in Htx. split; [| split; [| apply Htx, Ht]].
        + unfold tokens_of in Ht. destruct (tags e) as [s |]; [| inversion Ht].
          destruct (str_empty s); [inversion Ht |].
          pose proof (tokens_comma_free s) as H1. rewrite Forall_forall in H1. auto.
        + unfold tokens_of in Ht. destruct (tags e) as [s |]; [| inversion Ht].
          destruct (str_empty s); [inversion Ht |].
          pose proof (tokens_trimmed s) as H2. rewrite Forall_forall in H2. auto.
      - apply list_elem_of_In, filter_In in Ht as [Ht _].
        apply in_map_iff in Ht as (x & <- & Hx). apply list_elem_of_In in Hx.
        rewrite Forall_forall in Hcf, Hts. split; [| split].
        + apply trim_comma_free, Hcf, Hx.
        + apply trim_idempotent.
        + apply text_trim, Hts, Hx. }
    rewrite to_text_id
      by (apply text_join, Forall_forall; intros t Ht; apply Hin, Ht).
    destruct (set_of (tokens_of (tags e) ++ valid)) as [| t0 merged] eqn:Hm.
    + cbn. constructor.
    + rewrite <- Hm in *. rewrite tokens_of_join.
      * apply NoDup_filter_bool, set_of_NoDup.
      * rewrite Hm. discriminate.
      * apply Forall_forall. intros t Ht. apply Hin, Ht.
      * apply Forall_forall. intros t Ht. apply Hin, Ht.
  - (* removeTag *)
    intros tag n w' Hrun. pose proof (retag_outcome (js "Failed to remove tag: ") tag
                                        (removed_tags tag) w Hnd) as Hout.
    rewrite <- removeTag_retag, Hrun in Hout. destruct Hout as [Hout _].
    eapply Forall2_impl_elem; [exact Hout |]. intros r r' Hin Hr Hdup.
    cbv beta in Hr. destruct (tag_condition tag r); [| subst; exact Hdup].
    destruct Hr as [now ->]. unfold rewrite_row.
    destruct (tags r) as [[| c s] |] eqn:Ht; try (rewrite Ht; exact Hdup).
    cbn [tags].
    rewrite removed_tags_text by exact (text_table_row _ r _ Htext Hin Ht).
    rewrite tokens_of_removed_tags.
    apply NoDup_filter_bool. exact Hdup.
  - (* renameTag *)
    intros oldTag newTag n w' Hrun Hold Hnew Hcf Htr Htx.
    pose proof (retag_outcome (js "Failed to rename tag: ") oldTag
                  (fun s => Some (renamed_tags oldTag newTag s)) w Hnd) as Hout.
    rewrite <- renameTag_retag, Hrun in Hout. destruct Hout as [Hout _].
    eapply Forall2_impl_elem; [exact Hout |]. intros r r' Hin Hr Hdup Hfresh.
    cbv beta in Hr. destruct (tag_condition oldTag r); [| subst; exact Hdup].
    destruct Hr as [now ->]. unfold rewrite_row.
    destruct (tags r) as [[| c s] |] eqn:Ht; try (rewrite Ht; exact Hdup).
    cbn [tags option_map].
    rewrite renamed_tags_text
      by first [exact (text_table_row _ r _ Htext Hin Ht) | exact Htx].
    rewrite tokens_of_renamed_tags by assumption.
    apply NoDup_replace_tag; assumption.
  - (* updateTags *)
    intros id t b w' Hrun r' Hr' Hid.
    destruct (updateTags_cases id t w) as [(m & w1 & Hu & _) | (w1 & Hu & Hrows & _)];
      rewrite Hu in Hrun; [discriminate |].
    injection Hrun as _ <-. rewrite Hrows in Hr'.
    apply list_elem_of_fmap in Hr' as (r & -> & _). apply set_tags_tags. exact Hid.
  - intros Hf. split; [| split; [| split]].
    + intros id ts e. apply addTags_no_fault. exact Hf.
    + intros tag _. rewrite removeTag_retag. apply retag_no_fault. exact Hf.
    + intros oldTag newTag _. rewrite renameTag_retag. apply retag_no_fault. exact Hf.
    + intros id t. apply updateTags_no_fault. exact Hf.
Qed.

Lemma tagged_world_text : text_tags (evidences tagged_world).
Proof. repeat constructor; intros s [= <-]; reflexivity. Qed.

Lemma tag_mutations_no_duplicates_witness :
  NoDup (map ev_id (evidences tagged_world))
  /\ text_tags (evidences tagged_world)
  /\ (addTags (H := sample_platform) (js "r1") [js " api "; js "review"; js "draft"]
        tagged_world).1 = Ok tt
  /\ forall r',
       r' ∈ evidences (addTags (H := sample_platform) (js "r1")
                         [js " api "; js "review"; js "draft"] tagged_world).2 ->
       ev_id r' = js "r1" -> NoDup (tokens_of (tags r')).
Proof.
  assert (Hkey : NoDup (map ev_id (evidences tagged_world)))
    by (apply (bool_decide_unpack _); vm_compute; exact I).
  split; [exact Hkey |]. split; [exact tagged_world_text |]. split; [reflexivity |].
  apply (proj1 (tag_mutations_no_duplicates (P := sample_platform) tagged_world Hkey
                  tagged_world_text)
           (js "r1") [js " api "; js "review"; js "draft"]
           (addTags (H := sample_platform) (js "r1") [js " api "; js "review"; js "draft"]
              tagged_world).2).
  - reflexivity.
  - repeat constructor; discriminate.
  - repeat constructor.
Defined.

(** C3 as stated fails: [updateTags] with the tag string "a,a" stores it,
    and the tag list of the record then holds the tag a twice. *)
Lemma updateTags_stores_duplicates :
  exists w',
    updateTags (H := sample_platform) (js "r1") (Some (js "a,a")) tagged_world
    = (Ok true, w')
    /\ map (fun r => tokens_of (tags r)) (evidences w')
       = [[js "a"; js "a"]; [js "API"; js "x"]; [js "apigee"]]
    /\ ~ NoDup [js "a"; js "a"].
Proof.
  eexists. split; [vm_compute; reflexivity |]. split; [vm_compute; reflexivity |].
  intros H. apply NoDup_cons in H as [H _]. apply H. left.
Qed.

(** Renaming a tag to one that the record already carries leaves the tag
    twice in its list. *)
Example renameTag_onto_existing_tag :
  exists w',
    renameTag (H := sample_platform) (js "draft") (js "api") tagged_world = (Ok 1, w')
    /\ map tags (evidences w') = [Some (js "api,api"); Some (js "API,x"); Some (js "apigee")].
Proof. eexists. split; vm_compute; reflexivity. Qed.

(** Tags that are not text lose their difference when they are stored:
    [addTags] with the two unpaired surrogates U+D800 and U+D801 stores
    U+FFFD twice. *)
Example addTags_unpaired_surrogates :
  exists w',
    addTags (H := sample_platform) (js "r3") [[0xD800]; [0xD801]] tagged_world
    = (Ok tt, w')
    /\ map tags (evidences w')
       = [Some (js "api,draft"); Some (js "API,x");
          Some (js "apigee," ++ [0xFFFD; comma; 0xFFFD])].
Proof. eexists. split; vm_compute; reflexivity. Qed.

(** Renaming the empty tag fills the empty pieces of a tag string, each
    with the new tag. *)
Example renameTag_of_the_empty_tag :
  exists w',
    renameTag (H := sample_platform) [] (js "c")
      (sample_world [sample_row "r1" "2026-01-01" (Some (js "a,,,b"))]) = (Ok 1, w')
    /\ map tags (evidences w') = [Some (js "a,c,c,b")].
Proof. eexists. split; vm_compute; reflexivity. Qed.

(* ------------------------------------------------------------------ *)
(** ** renameTag: all or nothing *)




(** The run with the failing second UPDATE throws and leaves the rows. *)
Example renameTag_rolls_back :
  exists w',
    renameTag (H := sample_platform) (js "api") (js "web") failing_world
    = (Throw (js "Failed to rename tag: Failed to update tags: disk I/O error"), w')
    /\ evidences w' = evidences failing_world.
Proof. eexists. split; vm_compute; reflexivity. Qed.

(** The same rename without faults rewrites both rows that carry the tag
    and leaves the row tagged apigee. *)
Example renameTag_commits :
  exists w',
    renameTag (H := sample_platform) (js "api") (js "web")
      (sample_world (evidences failing_world)) = (Ok 2, w')
    /\ map tags (evidences w') = [Some (js "web,draft"); Some (js "web"); Some (js "apigee")].
Proof. eexists. split; vm_compute; reflexivity. Qed.

(* ------------------------------------------------------------------ *)
(** ** search by tag *)

(** C5 at a failing input: a search for the tag api returns the record
    tagged API,x, whose tags are API and x, so the tag filter is not an
    exact-token match: its LIKE patterns fold ASCII case, while its
    equality test does not. *)
Example search_tag_folds_case :
  search (by_tag (js "api")) tagged_world
  = (Ok [sample_row "r2" "2026-01-02" (Some (js "API,x"));
         sample_row "r1" "2026-01-01" (Some (js "api,draft"))], tagged_world)
  /\ js "api" ∉ tokens (js "API,x").
Proof.
  split; [vm_compute; reflexivity |].
  intros H. vm_compute in H. repeat (apply elem_of_cons in H as [H | H]; [discriminate |]).
  inversion H.
Qed.

(** The wildcards of LIKE are live in a tag: a search for the tag ap_
    returns the records tagged api,draft and API,x, neither of which has
    the tag ap_. *)
Example search_tag_wildcard :
  search (by_tag (js "ap_")) tagged_world
  = (Ok [sample_row "r2" "2026-01-02" (Some (js "API,x"));
         sample_row "r1" "2026-01-01" (Some (js "api,draft"))], tagged_world).
Proof. vm_compute. reflexivity. Qed.

(** The scenario of the specification holds: a search for the tag api
    never returns a record whose only tag is apigee. *)
Lemma search_api_not_apigee (w w' : World) (found : list Evidence) :
  search (by_tag (js "api")) w = (Ok found, w') ->
  forall r, r ∈ found -> tags r <> Some (js "apigee").
Proof.
  intros Hrun r Hr Ht.
  destruct (search_by_tag_cases (js "api") w) as [_ [[m Hm] | Hok]];
    rewrite Hrun in *; cbn [fst] in *; [discriminate |].
  injection Hok as ->.
  apply list_elem_of_In in Hr.
  apply (Permutation_in _ (order_by_timestamp_desc_Permutation _)) in Hr.
  apply filter_In in Hr as [_ Hc]. unfold tag_condition in Hc. rewrite Ht in Hc.
  vm_compute in Hc. discriminate.
Qed.

(* ------------------------------------------------------------------ *)
(** ** lib/storage/export.ts: the archive *)

Section Archive.
Context {P : Platform}.

Lemma add_footprint_files v git zip lines fp :
  add_footprint v git (zip, lines) fp
  = (fold_left write_file (record_files v git fp) zip,
     lines ++ map file_line (record_files v git fp)).
Proof.
  unfold add_footprint, record_files, file_line, write_file, file_hash.
  destruct (gitCommitHash fp) as [[| c commit] |], (gitTimestamp fp) as [[| t stamp] |];
    try destruct git; cbn [fold_left app map fst snd]; rewrite <- ?app_assoc; reflexivity.
Qed.

Lemma fold_add_footprint v git fps : forall zip lines,
  fold_left (add_footprint v git) fps (zip, lines)
  = (fold_left write_file (flat_map (record_files v git) fps) zip,
     lines ++ map file_line (flat_map (record_files v git) fps)).
Proof.
  induction fps as [| fp fps IH]; intros zip lines; cbn [fold_left flat_map].
  - rewrite app_nil_r. reflexivity.
  - rewrite add_footprint_files, IH, fold_left_app, map_app, app_assoc. reflexivity.
Qed.

Lemma lookup_write_files_other files : forall (zip : gmap jsstring zipdata) name,
  name ∉ map fst files -> fold_left write_file files zip !! name = zip !! name.
Proof.
  induction files as [| [n d] files IH]; intros zip name Hn; [reflexivity |].
  cbn [fold_left]. rewrite IH.
  - unfold write_file. cbn [fst snd]. apply lookup_insert_ne.
    intros ->. apply Hn. left.
  - intros Hin. apply Hn. right. exact Hin.
Qed.

(** A later write of a name replaces the earlier one; when all writes of
    a name carry the same data, each file reads back as written. *)
Lemma lookup_write_files files : forall (zip : gmap jsstring zipdata) name data,
  (forall d d', (name, d) ∈ files -> (name, d') ∈ files -> d = d') ->
  (name, data) ∈ files ->
  fold_left write_file files zip !! name = Some data.
Proof.
  induction files as [| [n d] files IH]; intros zip name data Hfun Hin.
  - inversion Hin.
  - cbn [fold_left].
    destruct (decide (name ∈ map fst files)) as [Hlater | Hlast].
    + apply list_elem_of_fmap in Hlater as ([n' d'] & Hn' & Hd'). cbn in Hn'. subst n'.
      assert (d' = data) by (apply (Hfun d' data); [right; exact Hd' | exact Hin]).
      subst d'. apply IH; [| exact Hd'].
      intros d1 d2 H1 H2. apply Hfun; right; assumption.
    + rewrite lookup_write_files_other by exact Hlast.
      apply elem_of_cons in Hin as [Heq | Hin].
      * injection Heq as -> ->. unfold write_file. apply lookup_insert_eq.
      * exfalso. apply Hlast. apply list_elem_of_fmap. exists (name, data). auto.
Qed.

Lemma dom_write_files files : forall (zip : gmap jsstring zipdata),
  dom (fold_left write_file files zip) = dom zip ∪ list_to_set (map fst files).
Proof.
  induction files as [| [n d] files IH]; intros zip; cbn [fold_left map list_to_set].
  - rewrite (right_id_L ∅ (∪)). reflexivity.
  - rewrite IH. unfold write_file. cbn [fst snd]. rewrite dom_insert_L.
    rewrite (comm_L (∪) {[n]} (dom zip)), <- (assoc_L (∪)). reflexivity.
Qed.

Lemma folder_of_inj v fp fp' : folder_of v fp = folder_of v fp' -> ev_id fp = ev_id fp'.
Proof.
  unfold folder_of. intros H. apply app_inv_head in H. apply app_inv_head in H. exact H.
Qed.

Lemma data_not_json a b suffix :
  suffix = js "/metadata.json" \/ suffix = js "/git-info.json" ->
  a ++ js "/encrypted-data" <> b ++ suffix.
Proof.
  intros Hs H.
  replace (a ++ js "/encrypted-data") with ((a ++ js "/encrypted-dat") ++ [97]) in H
    by (rewrite <- app_assoc; reflexivity).
  destruct Hs as [-> | ->].
  - replace (b ++ js "/metadata.json") with ((b ++ js "/metadata.jso") ++ [110]) in H
      by (rewrite <- app_assoc; reflexivity).
    apply (f_equal last) in H. rewrite !last_snoc in H. discriminate.
  - replace (b ++ js "/git-info.json") with ((b ++ js "/git-info.jso") ++ [110]) in H
      by (rewrite <- app_assoc; reflexivity).
    apply (f_equal last) in H. rewrite !last_snoc in H. discriminate.
Qed.

Lemma metadata_not_git a b : a ++ js "/metadata.json" <> b ++ js "/git-info.json".
Proof.
  intros H. apply app_inj_2 in H as [_ H]; [| reflexivity].
  vm_compute in H. discriminate.
Qed.

Lemma record_file_not_top v fp suffix :
  folder_of v fp ++ suffix <> js "manifest.json"
  /\ folder_of v fp ++ suffix <> js "checksum.txt".
Proof.
  split; intros H; apply (f_equal head) in H; destruct v; vm_compute in H; discriminate.
Qed.

(** The files of one record, by name. *)
Lemma elem_of_record_files v git fp name data :
  (name, data) ∈ record_files v git fp ->
  (name = folder_of v fp ++ js "/encrypted-data" /\ data = Binary (encryptedContent fp))
  \/ (name = folder_of v fp ++ js "/metadata.json"
      /\ data = Text (JSON_stringify (metadata fp)))
  \/ (name = folder_of v fp ++ js "/git-info.json"
      /\ exists commit stamp,
           gitCommitHash fp = Some commit /\ gitTimestamp fp = Some stamp
           /\ data = Text (JSON_stringify (gitInfo commit stamp))).
Proof.
  unfold record_files. intros H. apply elem_of_app in H as [H | H].
  - apply elem_of_cons in H as [H | H]; [injection H as -> ->; auto |].
    apply list_elem_of_singleton in H. injection H as -> ->. auto.
  - destruct (gitCommitHash fp) as [[| c commit] |], (gitTimestamp fp) as [[| t stamp] |];
      try destruct git; try (inversion H; fail).
    apply list_elem_of_singleton in H. injection H as -> ->. right. right.
    split; [reflexivity |]. eexists _, _. repeat split; reflexivity.
Qed.

(** Two writes of one name in an export of rows of the table carry the
    same data. *)
Lemma record_files_functional v git (rows fps : list Evidence) name d d' :
  NoDup (map ev_id rows) -> (forall fp, fp ∈ fps -> fp ∈ rows) ->
  (name, d) ∈ flat_map (record_files v git) fps ->
  (name, d') ∈ flat_map (record_files v git) fps ->
  d = d'.
Proof.
  intros Hnd Hsub H1 H2.
  apply list_elem_of_In, in_flat_map in H1 as (fp1 & Hfp1 & H1).
  apply list_elem_of_In, in_flat_map in H2 as (fp2 & Hfp2 & H2).
  apply list_elem_of_In in Hfp1, Hfp2, H1, H2.
  assert (Hsame : folder_of v fp1 = folder_of v fp2 -> fp1 = fp2).
  { intros Hf. apply (primary_key rows); [exact Hnd | apply Hsub, Hfp1 | apply Hsub, Hfp2 |].
    apply (folder_of_inj v). exact Hf. }
  apply elem_of_record_files in H1 as [[-> ->] | [[-> ->] | (-> & c1 & s1 & Hc1 & Hs1 & ->)]];
  apply elem_of_record_files in H2 as [[E ->] | [[E ->] | (E & c2 & s2 & Hc2 & Hs2 & ->)]].
  all: try (apply app_inv_tail, Hsame in E; subst; congruence).
  all: exfalso;
    first [ eapply data_not_json; [| exact E]; auto
          | eapply data_not_json; [| symmetry; exact E]; auto
          | eapply metadata_not_git; exact E
          | eapply metadata_not_git; symmetry; exact E ].
Qed.

Lemma record_files_not_top v git fps name :
  name ∈ map fst (flat_map (record_files v git) fps) ->
  name <> js "manifest.json" /\ name <> js "checksum.txt".
Proof.
  intros H. apply list_elem_of_fmap in H as ([n d] & -> & H). cbn [fst].
  apply list_elem_of_In, in_flat_map in H as (fp & _ & H). apply list_elem_of_In in H.
  apply elem_of_record_files in H as [[-> _] | [[-> _] | [-> _]]];
    apply record_file_not_top.
Qed.

(** The finished archive: the manifest, the files of the records as
    written, and the checksum manifest with one line for each write of a
    record's file and no line for the manifest or for itself. *)
Lemma build_zip_spec v git exportDate (rows fps : list Evidence) :
  NoDup (map ev_id rows) -> (forall fp, fp ∈ fps -> fp ∈ rows) ->
  let zip := build_zip v git exportDate fps in
  let files := flat_map (record_files v git) fps in
  zip !! js "manifest.json"
    = Some (Text (JSON_stringify (manifest v exportDate (Z.of_nat (length fps)) git)))
  /\ zip !! js "checksum.txt" = Some (Text (checksumContent (map file_line files)))
  /\ (forall name data, (name, data) ∈ files -> zip !! name = Some data)
  /\ dom zip = {[js "manifest.json"; js "checksum.txt"]} ∪ list_to_set (map fst files)
  /\ (js "manifest.json" ∉ map fst files)
  /\ (js "checksum.txt" ∉ map fst files).
Proof.
  intros Hnd Hsub zip files. subst zip. unfold build_zip.
  rewrite fold_add_footprint. fold files. cbn [app].
  assert (Hm : js "manifest.json" ∉ map fst files)
    by (intros H; apply record_files_not_top in H as [H _]; congruence).
  assert (Hc : js "checksum.txt" ∉ map fst files)
    by (intros H; apply record_files_not_top in H as [_ H]; congruence).
  split; [| split; [| split; [| split; [| split]]]]; try assumption.
  - rewrite lookup_insert_ne by (vm_compute; discriminate).
    rewrite lookup_write_files_other by exact Hm. apply lookup_insert_eq.
  - apply lookup_insert_eq.
  - intros name data Hin.
    assert (Hname : name ∈ map fst files)
      by (apply list_elem_of_fmap; exists (name, data); auto).
    apply record_files_not_top in Hname as [_ Hname].
    rewrite lookup_insert_ne by congruence.
    apply lookup_write_files; [| exact Hin].
    intros d d'. apply (record_files_functional v git rows fps); assumption.
  - rewrite dom_insert_L, dom_write_files, dom_insert_L, dom_empty_L.
    rewrite (right_id_L ∅ (∪)).
    rewrite (comm_L (∪) {[js "manifest.json"]} {[js "checksum.txt"]}).
    rewrite !(assoc_L (∪)). reflexivity.
Qed.
End Archive.

(* ------------------------------------------------------------------ *)
(** ** lib/storage/export.ts: exportEvidences *)

Section ExportRun.
Context {P : Platform}.

Lemma find_by_id_spec (rows : list Evidence) id fp :
  List.find (fun r => str_eqb (ev_id r) id) rows = Some fp -> fp ∈ rows /\ ev_id fp = id.
Proof.
  intros H. apply find_some in H as [Hin Hid]. split; [apply list_elem_of_In, Hin |].
  apply bool_decide_eq_true in Hid. exact Hid.
Qed.

Lemma find_by_id_present (rows : list Evidence) id :
  (exists r, r ∈ rows /\ ev_id r = id) ->
  is_Some (List.find (fun r => str_eqb (ev_id r) id) rows).
Proof.
  intros (r & Hr & Hid).
  destruct (List.find _ rows) as [fp |] eqn:Hf; [eauto |].
  apply list_elem_of_In in Hr. apply (find_none _ _ Hf) in Hr.
  apply bool_decide_eq_false in Hr. contradiction.
Qed.

Lemma records_of_rows rows ids fp : fp ∈ records_of rows ids -> fp ∈ rows.
Proof.
  unfold records_of. intros H. apply list_elem_of_omap in H as (id & _ & H).
  apply find_by_id_spec in H. apply H.
Qed.

Lemma filterM_not_found ids w :
  faults w = [] ->
  filterM (fun id => let* found := findById id in
                     ret (negb (bool_decide (is_Some found)))) ids w
  = (Ok (List.filter
           (fun id => negb (bool_decide
                              (is_Some (List.find (fun r => str_eqb (ev_id r) id)
                                          (evidences w))))) ids), w).
Proof.
  intros Hf. induction ids as [| id ids IH]; [reflexivity |].
  cbn [filterM List.filter]. unfold bind at 1 2.
  rewrite findById_no_fault by exact Hf. cbn [ret].
  unfold bind at 1. rewrite IH. cbn [ret].
  destruct (negb _); reflexivity.
Qed.

Lemma mapM_found (v : ExportVariant) ids w :
  faults w = [] ->
  Forall (fun id => exists r, r ∈ evidences w /\ ev_id r = id) ids ->
  mapM (fun id => let* found := findById id in
                  match found with
                  | None => throw (noun v ++ js " " ++ id ++ js " not found")
                  | Some footprint => ret footprint
                  end) ids w
  = (Ok (records_of (evidences w) ids), w)
  /\ List.filter
       (fun id => negb (bool_decide
                          (is_Some (List.find (fun r => str_eqb (ev_id r) id)
                                      (evidences w))))) ids = []
  /\ length (records_of (evidences w) ids) = length ids.
Proof.
  intros Hf Hall. induction Hall as [| id ids Hid _ IH]; [repeat split |].
  destruct IH as (IH1 & IH2 & IH3).
  apply find_by_id_present in Hid as [fp Hfp].
  assert (Hcons : records_of (evidences w) (id :: ids)
                  = fp :: records_of (evidences w) ids).
  { unfold records_of. cbn. rewrite Hfp. reflexivity. }
  rewrite Hcons. cbn [mapM List.filter]. unfold bind at 1 2.
  rewrite findById_no_fault by exact Hf. rewrite Hfp. cbn [ret].
  unfold bind at 1. rewrite IH1. cbn [ret].
  rewrite bool_decide_eq_true_2 by eauto. cbn [negb].
  split; [reflexivity |]. split; [exact IH2 | cbn [length]; lia].
Qed.

Lemma payload_bytes_from acc (fps : list Evidence) :
  fold_left (fun sum e => sum + Z.of_nat (length (encryptedContent e))) fps acc
  = acc + payload_bytes fps.
Proof.
  unfold payload_bytes. revert acc.
  induction fps as [| fp fps IH]; intros acc; cbn [fold_left]; [lia |].
  rewrite IH, (IH (0 + _)). lia.
Qed.

Lemma payload_bytes_Permutation (a b : list Evidence) :
  Permutation a b -> payload_bytes a = payload_bytes b.
Proof.
  assert (Hcons : forall x l, payload_bytes (x :: l)
                              = Z.of_nat (length (encryptedContent x)) + payload_bytes l).
  { intros x l. unfold payload_bytes at 1. cbn [fold_left]. apply payload_bytes_from. }
  induction 1 as [| x l l' _ IH | x y l | l l' l'' _ IH1 _ IH2].
  - reflexivity.
  - rewrite !Hcons, IH. reflexivity.
  - rewrite !Hcons. lia.
  - congruence.
Qed.

(** [exportEvidences] without I/O faults: it refuses a payload over the
    ceiling, and otherwise packs the records chosen. *)
Lemma exportEvidences_no_fault v options w :
  faults w = [] ->
  (forall idl, ids options = Some idl ->
     Forall (fun id => exists r, r ∈ evidences w /\ ev_id r = id) idl) ->
  let fps := exported options (evidences w) in
  let git := default false (includeGitInfo options) in
  if MAX_EXPORT_SIZE_MB * 1048576 <? payload_bytes fps
  then exists message, exportEvidences v options w = (Throw message, w)
  else
    exportEvidences v options w
    = (Ok (mk_export_result
             (file_stem v ++ before_T (toISOString (S (clock w))) ++ js ".zip")
             (zip_generate (build_zip v git (toISOString (clock w)) fps))
             (sha256_hex (zip_generate (build_zip v git (toISOString (clock w)) fps)))
             (Z.of_nat (length fps))),
       mk_world (evidences w) (faults w) (S (S (clock w)))).
Proof.
  intros Hf Hids fps git. unfold exportEvidences, try_catch.
  assert (Hsel :
    (match ids options with
     | Some ids =>
         let* notFound :=
           filterM (fun id => let* found := findById id in
                              ret (negb (bool_decide (is_Some found)))) ids in
         if (0 <? length notFound)%nat
         then throw (noun v ++ js " IDs not found: " ++ join (js ", ") notFound)
         else
           mapM (fun id =>
                   let* found := findById id in
                   match found with
                   | None => throw (noun v ++ js " " ++ id ++ js " not found")
                   | Some footprint => ret footprint
                   end) ids
     | None => db_list (mk_list_options None None)
     end) w = (Ok fps, w)).
  { subst fps. unfold exported. destruct (ids options) as [idl |] eqn:Hi.
    - destruct (mapM_found v idl w Hf (Hids idl eq_refl)) as (Hmap & Hnone & _).
      unfold bind. rewrite filterM_not_found, Hnone by exact Hf. cbn. exact Hmap.
    - rewrite db_list_no_fault by exact Hf. reflexivity. }
  destruct (MAX_EXPORT_SIZE_MB * 1048576 <? payload_bytes fps) eqn:Hsize.
  - unfold bind at 1. rewrite Hsel. cbv beta iota zeta. rewrite Hsize.
    unfold throw. cbn [rethrow]. eauto.
  - unfold bind at 1. rewrite Hsel. cbv beta iota zeta. rewrite Hsize.
    unfold bind, Date_now, ret. cbn [evidences faults clock rethrow]. reflexivity.
Qed.
End ExportRun.

Lemma records_of_ids (rows : list Evidence) idl :
  Forall (fun id => exists r, r ∈ rows /\ ev_id r = id) idl ->
  map ev_id (records_of rows idl) = idl.
Proof.
  induction 1 as [| id idl Hid _ IH]; [reflexivity |].
  apply find_by_id_present in Hid as [fp Hfp].
  unfold records_of in *. cbn. rewrite Hfp. cbn [map]. rewrite IH.
  apply find_by_id_spec in Hfp as [_ ->]. reflexivity.
Qed.

(** C9: when [ids] is omitted, [exportEvidences] packs every record of
    the store: unless the payload is over the ceiling (then it throws), it
    returns the number of records of the store as its count, and the
    archive holds, in the folder of each record, its encrypted data and
    its metadata. *)
Theorem export_all_records {P : Platform} (v : ExportVariant) (git : option bool)
  (w : World) :
  faults w = [] ->
  NoDup (map ev_id (evidences w)) ->
  if MAX_EXPORT_SIZE_MB * 1048576 <? payload_bytes (evidences w)
  then exists message,
         exportEvidences v (mk_export_options None git) w = (Throw message, w)
  else exists result w' zip,
         exportEvidences v (mk_export_options None git) w = (Ok result, w')
         /\ footprintCount result = Z.of_nat (length (evidences w))
         /\ zipData result = zip_generate zip
         /\ forall r, r ∈ evidences w ->
              zip !! (folder_of v r ++ js "/encrypted-data")
                = Some (Binary (encryptedContent r))
              /\ zip !! (folder_of v r ++ js "/metadata.json")
                 = Some (Text (JSON_stringify (metadata r))).
Proof.
  intros Hf Hnd.
  pose proof (exportEvidences_no_fault v (mk_export_options None git) w Hf) as Hrun.
  cbv zeta in Hrun. unfold exported in Hrun. cbn [ids includeGitInfo] in Hrun.
  rewrite (payload_bytes_Permutation _ _ (order_by_timestamp_desc_Permutation _)) in Hrun.
  destruct (MAX_EXPORT_SIZE_MB * 1048576 <? payload_bytes (evidences w)).
  - apply Hrun. intros idl [=].
  - rewrite Hrun by (intros idl [=]). eexists _, _, _. split; [reflexivity |].
    cbn [footprintCount zipData]. rewrite order_by_timestamp_desc_length.
    split; [reflexivity |]. split; [reflexivity |].
    intros r Hr.
    assert (Hsorted : forall fp, fp ∈ order_by_timestamp_desc (evidences w) ->
                                 fp ∈ evidences w).
    { intros fp Hfp. apply list_elem_of_In.
      apply (Permutation_in _ (order_by_timestamp_desc_Permutation _)).
      apply list_elem_of_In, Hfp. }
    destruct (build_zip_spec v (default false git) (toISOString (clock w))
                (evidences w) (order_by_timestamp_desc (evidences w)) Hnd Hsorted)
      as (_ & _ & Hfiles & _).
    assert (Hin : forall file, file ∈ record_files v (default false git) r ->
              file ∈ flat_map (record_files v (default false git))
                       (order_by_timestamp_desc (evidences w))).
    { intros file Hfile. apply list_elem_of_In, in_flat_map. exists r. split.
      - apply (Permutation_in _ (Permutation_sym (order_by_timestamp_desc_Permutation _))).
        apply list_elem_of_In, Hr.
      - apply list_elem_of_In, Hfile. }
    split; apply Hfiles, Hin; unfold record_files.
    + left.
    + right. left.
Qed.

(** C2 (as amended): for every export by ids that are all in the store
    and whose payload is within the ceiling, [checksum.txt] holds, after
    its heading, one line for each file written for the records of the
    ids, with the hash of the data that the archive holds under that
    name; these files together with [manifest.json] and [checksum.txt]
    are all the files of the archive, and neither of these two has a
    line. *)
Theorem export_checksum_manifest {P : Platform} (v : ExportVariant)
  (idl : list jsstring) (git : option bool) (w : World) :
  faults w = [] ->
  NoDup (map ev_id (evidences w)) ->
  Forall (fun id => exists r, r ∈ evidences w /\ ev_id r = id) idl ->
  payload_bytes (records_of (evidences w) idl) <= MAX_EXPORT_SIZE_MB * 1048576 ->
  exists result w' zip,
    exportEvidences v (mk_export_options (Some idl) git) w = (Ok result, w')
    /\ zipData result = zip_generate zip
    /\ footprintCount result = Z.of_nat (length idl)
    /\ map ev_id (records_of (evidences w) idl) = idl
    /\ let files := flat_map (record_files v (default false git))
                      (records_of (evidences w) idl) in
       zip !! js "checksum.txt" = Some (Text (checksumContent (map file_line files)))
       /\ (forall name data, (name, data) ∈ files -> zip !! name = Some data)
       /\ dom zip = {[js "manifest.json"; js "checksum.txt"]} ∪ list_to_set (map fst files)
       /\ (js "manifest.json" ∉ map fst files)
       /\ (js "checksum.txt" ∉ map fst files).
Proof.
  intros Hf Hnd Hall Hsize.
  pose proof (exportEvidences_no_fault v (mk_export_options (Some idl) git) w Hf) as Hrun.
  cbv zeta in Hrun. unfold exported in Hrun. cbn [ids includeGitInfo] in Hrun.
  replace (_ <? _) with false in Hrun by lia.
  rewrite Hrun by (intros l [= <-]; exact Hall).
  eexists _, _, _. split; [reflexivity |]. cbn [zipData footprintCount].
  split; [reflexivity |].
  destruct (mapM_found v idl w Hf Hall) as (_ & _ & Hlen).
  split; [rewrite Hlen; reflexivity |].
  split; [apply records_of_ids, Hall |].
  destruct (build_zip_spec v (default false git) (toISOString (clock w))
              (evidences w) (records_of (evidences w) idl) Hnd
              (records_of_rows (evidences w) idl))
    as (_ & Hsum & Hfiles & Hdom & Hm & Hc).
  cbv zeta. auto.
Qed.

Lemma tagged_world_key : NoDup (map ev_id (evidences tagged_world)).
Proof. apply (bool_decide_unpack _). vm_compute. exact I. Qed.

Lemma export_all_records_witness :
  exists result w' zip,
    exportEvidences (H := sample_platform) FootprintExport (mk_export_options None None)
      tagged_world = (Ok result, w')
    /\ footprintCount result = 3
    /\ zipData result = zip_generate (Platform := sample_platform) zip
    /\ forall r, r ∈ evidences tagged_world ->
         zip !! (folder_of FootprintExport r ++ js "/encrypted-data")
           = Some (Binary (encryptedContent r))
         /\ zip !! (folder_of FootprintExport r ++ js "/metadata.json")
            = Some (Text (JSON_stringify (Platform := sample_platform) (metadata r))).
Proof.
  exact (export_all_records (P := sample_platform) FootprintExport None tagged_world
           eq_refl tagged_world_key).
Defined.

Lemma export_checksum_manifest_witness :
  exists result w' zip,
    exportEvidences (H := sample_platform) FootprintExport
      (mk_export_options (Some [js "r1"; js "r3"]) None) tagged_world = (Ok result, w')
    /\ zipData result = zip_generate (Platform := sample_platform) zip
    /\ footprintCount result = 2
    /\ map ev_id (records_of (evidences tagged_world) [js "r1"; js "r3"])
       = [js "r1"; js "r3"]
    /\ let files := flat_map (record_files (H := sample_platform) FootprintExport false)
                      (records_of (evidences tagged_world) [js "r1"; js "r3"]) in
       zip !! js "checksum.txt"
         = Some (Text (checksumContent (map (file_line (H := sample_platform)) files)))
       /\ (forall name data, (name, data) ∈ files -> zip !! name = Some data)
       /\ dom zip = {[js "manifest.json"; js "checksum.txt"]} ∪ list_to_set (map fst files)
       /\ (js "manifest.json" ∉ map fst files)
       /\ (js "checksum.txt" ∉ map fst files).
Proof.
  apply (export_checksum_manifest (P := sample_platform) FootprintExport
           [js "r1"; js "r3"] None tagged_world eq_refl tagged_world_key).
  - repeat constructor.
    + exists (sample_row "r1" "2026-01-01" (Some (js "api,draft"))).
      split; [left | reflexivity].
    + exists (sample_row "r3" "2026-01-03" (Some (js "apigee"))).
      split; [right; right; left | reflexivity].
  - vm_compute. discriminate.
Defined.

(** C2 as stated fails: the archive of an export of the ids r1 and r3
    holds [manifest.json], and its [checksum.txt] has four lines, for the
    encrypted data and the metadata of the two records, and none for
    [manifest.json]. *)
Lemma export_manifest_has_no_checksum :
  let r1 := sample_row "r1" "2026-01-01" (Some (js "api,draft")) in
  let r3 := sample_row "r3" "2026-01-03" (Some (js "apigee")) in
  let zip := build_zip (H := sample_platform) FootprintExport false (sample_toISOString 0)
               [r1; r3] in
  exists result w',
    exportEvidences (H := sample_platform) FootprintExport
      (mk_export_options (Some [js "r1"; js "r3"]) None) tagged_world = (Ok result, w')
    /\ zipData result = sample_zip_generate zip
    /\ is_Some (zip !! js "manifest.json")
    /\ zip !! js "checksum.txt"
       = Some (Text (checksumContent
            [checksum_line (sample_sha256_hex (encryptedContent r1))
               (js "footprints/r1/encrypted-data");
             checksum_line
               (sample_sha256_hex (TextEncoder_encode (sample_stringify (metadata r1))))
               (js "footprints/r1/metadata.json");
             checksum_line (sample_sha256_hex (encryptedContent r3))
               (js "footprints/r3/encrypted-data");
             checksum_line
               (sample_sha256_hex (TextEncoder_encode (sample_stringify (metadata r3))))
               (js "footprints/r3/metadata.json")])).
Proof.
  cbv zeta. eexists _, _. split; [vm_compute; reflexivity |].
  split; [vm_compute; reflexivity |]. split; [vm_compute; eauto |].
  vm_compute. reflexivity.
Qed.

(* ================================================================== *)
(** * Properties of the rest of the store *)
(* ================================================================== *)

(* ------------------------------------------------------------------ *)
(** ** Key derivation: derive, derive again, verify *)

(** X1: whenever [deriveKey] returns a key and a salt, [rederiveKey] with
    the same password, that salt and the same parameters returns the same
    key and salt; the salt has 16 bytes, and [deriveKey] has drawn 16
    bytes from the entropy source. *)
Theorem deriveKey_rederiveKey {P : Platform} (password : jsstring)
  (params : PartialKdfParams) (g g' : Entropy) (derived : DerivedKey) :
  deriveKey password params g = (Ok derived, g') ->
  rederiveKey password (dk_salt derived) params = Ok derived
  /\ length (dk_salt derived) = 16%nat
  /\ position g' = (position g + 16)%nat.
Proof.
  unfold deriveKey, rederiveKey. intros Hrun.
  destruct (str_empty password); [discriminate |].
  pose proof (randomBytes_length 16 g) as Hlen.
  destruct (randomBytes 16 g) as [salt g1] eqn:Hr. cbn [fst] in Hlen.
  destruct (argon2id password salt _ _ _ _) as [key | m] eqn:Hk; [| discriminate].
  injection Hrun as <- <-. cbn [dk_salt]. rewrite Hlen. cbn [Nat.eqb negb].
  rewrite Hk. split; [reflexivity |]. split; [reflexivity |].
  unfold randomBytes in Hr. injection Hr as _ <-. reflexivity.
Qed.

Lemma deriveKey_rederiveKey_witness :
  exists derived g',
    deriveKey (H := sample_platform) sample_password no_params sample_entropy
    = (Ok derived, g')
    /\ (rederiveKey (H := sample_platform) sample_password (dk_salt derived) no_params
        = Ok derived
        /\ length (dk_salt derived) = 16%nat
        /\ position g' = (position sample_entropy + 16)%nat).
Proof.
  eexists _, _. split; [vm_compute; reflexivity |].
  apply (deriveKey_rederiveKey (P := sample_platform) sample_password no_params
           sample_entropy).
  vm_compute. reflexivity.
Defined.

(** X2: [verifyKey] agrees with [rederiveKey]: when [rederiveKey] returns
    a key for a password, a salt and parameters, [verifyKey] on a 32-byte
    expected key returns, and returns [true] exactly when the expected key
    is that key (a derived key of another length compares as [false]). *)
Theorem verifyKey_rederiveKey {P : Platform} (password : jsstring)
  (salt expectedKey : bytes) (params : PartialKdfParams) (derived : DerivedKey) :
  rederiveKey password salt params = Ok derived ->
  length expectedKey = 32%nat ->
  exists matches,
    verifyKey password salt expectedKey params = Ok matches
    /\ (matches = true <-> expectedKey = dk_key derived).
Proof.
  unfold rederiveKey, verifyKey. intros Hrun Hlen.
  destruct (str_empty password); [discriminate |].
  destruct (negb (length salt =? 16)%nat); [discriminate |].
  rewrite Hlen. cbn [Nat.eqb negb].
  destruct (argon2id password salt _ _ _ _) as [key | m]; [| discriminate].
  injection Hrun as <-. cbn [dk_key]. unfold timingSafeEqual.
  destruct (length key =? length expectedKey)%nat eqn:Hsame.
  - eexists. split; [reflexivity |]. rewrite bool_decide_eq_true. split; congruence.
  - exists false. split; [reflexivity |]. split; [discriminate |].
    intros ->. apply Nat.eqb_neq in Hsame. congruence.
Qed.

Lemma verifyKey_rederiveKey_witness :
  exists derived,
    rederiveKey (H := sample_platform) sample_password sample_salt no_params = Ok derived
    /\ exists matches,
         verifyKey (H := sample_platform) sample_password sample_salt (dk_key derived)
           no_params = Ok matches
         /\ (matches = true <-> dk_key derived = dk_key derived).
Proof.
  eexists. split; [vm_compute; reflexivity |].
  apply (verifyKey_rederiveKey (P := sample_platform) sample_password sample_salt);
    reflexivity.
Defined.

(* ------------------------------------------------------------------ *)
(** ** Reading does not write *)

Lemma reads_only_ret {A} (a : A) : reads_only (ret a).
Proof. intros w. reflexivity. Qed.

Lemma reads_only_throw {A} m : reads_only (@throw A m).
Proof. intros w. reflexivity. Qed.

Lemma reads_only_bind {A B} (m : DB A) (k : A -> DB B) :
  reads_only m -> (forall a, reads_only (k a)) -> reads_only (bind m k).
Proof.
  intros Hm Hk w. unfold bind. specialize (Hm w).
  destruct (m w) as [[a | e] w1]; cbn [snd] in *; [| exact Hm].
  rewrite Hk. exact Hm.
Qed.

Lemma reads_only_try_catch {A} prefix (m : DB A) :
  reads_only m -> reads_only (try_catch prefix m).
Proof.
  intros Hm w. unfold try_catch. specialize (Hm w).
  destruct (m w) as [r w1]. exact Hm.
Qed.

Lemma reads_only_wrapToolHandler {A} name action (m : DB A) :
  reads_only m -> reads_only (wrapToolHandler name action m).
Proof.
  intros Hm w. unfold wrapToolHandler. specialize (Hm w).
  destruct (m w) as [[a | e] w1]; exact Hm.
Qed.

Lemma reads_only_statement : reads_only statement.
Proof. intros w. apply statement_rows. Qed.

Lemma reads_only_select {A} (q : list Evidence -> A) : reads_only (select q).
Proof. intros w. apply select_cases. Qed.

Lemma reads_only_Date_now {P : Platform} : reads_only Date_now.
Proof. intros w. reflexivity. Qed.

Lemma reads_only_filterM {A} (p : A -> DB bool) l :
  (forall x, reads_only (p x)) -> reads_only (filterM p l).
Proof.
  intros Hp. induction l as [| x l IH]; cbn [filterM]; [apply reads_only_ret |].
  apply reads_only_bind; [apply Hp |]. intros keep.
  apply reads_only_bind; [exact IH |]. intros rest. apply reads_only_ret.
Qed.

Lemma reads_only_mapM {A B} (f : A -> DB B) l :
  (forall x, reads_only (f x)) -> reads_only (mapM f l).
Proof.
  intros Hf. induction l as [| x l IH]; cbn [mapM]; [apply reads_only_ret |].
  apply reads_only_bind; [apply Hf |]. intros y.
  apply reads_only_bind; [exact IH |]. intros rest. apply reads_only_ret.
Qed.

Lemma reads_only_findById id : reads_only (findById id).
Proof. apply reads_only_try_catch, reads_only_select. Qed.

Lemma reads_only_db_list o : reads_only (db_list o).
Proof. apply reads_only_try_catch, reads_only_select. Qed.

Lemma reads_only_search o : reads_only (search o).
Proof. apply reads_only_try_catch, reads_only_select. Qed.

Lemma reads_only_exportEvidences {P : Platform} v options :
  reads_only (exportEvidences v options).
Proof.
  unfold exportEvidences. apply reads_only_try_catch.
  apply reads_only_bind.
  - destruct (ids options) as [idl |]; [| apply reads_only_db_list].
    apply reads_only_bind.
    + apply reads_only_filterM. intros id.
      apply reads_only_bind; [apply reads_only_findById |]. intros found.
      apply reads_only_ret.
    + intros notFound. destruct (0 <? length notFound)%nat; [apply reads_only_throw |].
      apply reads_only_mapM. intros id.
      apply reads_only_bind; [apply reads_only_findById |].
      intros [fp |]; [apply reads_only_ret | apply reads_only_throw].
  - intros fps. destruct (_ <? _); [apply reads_only_throw |].
    apply reads_only_bind; [apply reads_only_Date_now |]. intros exportDate.
    apply reads_only_bind; [apply reads_only_Date_now |]. intros stamp.
    apply reads_only_ret.
Qed.

Lemma reads_only_list_footprints params : reads_only (list_footprints params).
Proof.
  unfold list_footprints. apply reads_only_wrapToolHandler.
  destruct (match lp_limit params with Some l => l <=? 0 | None => false end);
    [apply reads_only_throw |].
  destruct (match lp_offset params with Some o => o <? 0 | None => false end);
    [apply reads_only_throw |].
  apply reads_only_bind; [apply reads_only_db_list |]. intros found.
  apply reads_only_ret.
Qed.

Lemma reads_only_verify_footprint {P : Platform} getKey id :
  reads_only getKey -> reads_only (verify_footprint getKey id).
Proof.
  intros Hkey. unfold verify_footprint. apply reads_only_wrapToolHandler.
  apply reads_only_bind; [apply reads_only_findById |].
  intros [fp |]; [| apply reads_only_throw].
  apply reads_only_bind; [exact Hkey |]. intros key.
  destruct (decrypt _ _ _);
    (apply reads_only_bind; [apply reads_only_Date_now |]; intros now;
     apply reads_only_ret).
Qed.

(** X3: the reading operations never change a row, whatever they return
    and whatever I/O faults they meet: [findById], [findByConversationId],
    [list], [search], [getTagCounts], [exportEvidences] and the handlers
    of list-footprints, get-tag-stats, verify-footprint and get-footprint
    (the last two for a key source that does not write either). *)
Theorem readers_leave_the_table {P : Platform} (w : World) :
  (forall id, evidences (findById id w).2 = evidences w)
  /\ (forall id, evidences (findByConversationId id w).2 = evidences w)
  /\ (forall options, evidences (db_list options w).2 = evidences w)
  /\ (forall options, evidences (search options w).2 = evidences w)
  /\ evidences (getTagCounts w).2 = evidences w
  /\ (forall v options, evidences (exportEvidences v options w).2 = evidences w)
  /\ (forall params, evidences (list_footprints params w).2 = evidences w)
  /\ evidences (get_tag_stats w).2 = evidences w
  /\ (forall getKey id, reads_only getKey ->
        evidences (verify_footprint getKey id w).2 = evidences w
        /\ evidences (get_footprint getKey id w).2 = evidences w).
Proof.
  repeat split.
  - intros id. apply reads_only_findById.
  - intros id. apply reads_only_try_catch, reads_only_select.
  - intros options. apply reads_only_db_list.
  - intros options. apply reads_only_search.
  - apply reads_only_try_catch, reads_only_select.
  - intros v options. apply reads_only_exportEvidences.
  - intros params. apply reads_only_list_footprints.
  - apply reads_only_wrapToolHandler. apply reads_only_bind.
    + apply reads_only_try_catch, reads_only_select.
    + intros tagCounts. apply reads_only_ret.
  - apply reads_only_verify_footprint. assumption.
  - apply reads_only_wrapToolHandler.
    apply reads_only_bind; [apply reads_only_findById |].
    intros [fp |]; [| apply reads_only_throw].
    apply reads_only_bind; [assumption |]. intros key.
    destruct (decrypt _ _ _); [apply reads_only_ret | apply reads_only_throw].
Qed.

(* ------------------------------------------------------------------ *)
(** ** [create] and [findById] *)

Lemma find_app_list {A} (p : A -> bool) l l' :
  List.find p (l ++ l') = match List.find p l with
                          | Some x => Some x
                          | None => List.find p l'
                          end.
Proof.
  induction l as [| x l IH]; [reflexivity |].
  cbn [app List.find]. destruct (p x); [reflexivity | exact IH].
Qed.

Lemma find_by_id_app_new (rows : list Evidence) row :
  ev_id row ∉ map ev_id rows ->
  List.find (fun r => str_eqb (ev_id r) (ev_id row)) (rows ++ [row]) = Some row.
Proof.
  intros Hfresh. rewrite find_app_list.
  rewrite find_absent.
  - cbn. unfold str_eqb. rewrite bool_decide_eq_true_2 by reflexivity. reflexivity.
  - intros r Hr Hid. apply Hfresh. rewrite <- Hid. apply list_elem_of_fmap_2, Hr.
Qed.

Lemma find_by_id_app_old (rows : list Evidence) row id :
  id <> ev_id row ->
  List.find (fun r => str_eqb (ev_id r) id) (rows ++ [row])
  = List.find (fun r => str_eqb (ev_id r) id) rows.
Proof.
  intros Hid. rewrite find_app_list.
  destruct (List.find _ rows); [reflexivity |].
  cbn. unfold str_eqb. rewrite bool_decide_eq_false_2 by congruence. reflexivity.
Qed.

Lemma create_cases {P : Platform} uuid evidence w :
  match create uuid evidence w with
  | (Ok id, w') =>
      id = uuid /\ (uuid ∉ map ev_id (evidences w))
      /\ evidences w' = evidences w ++ [inserted_row uuid evidence (toISOString (clock w))]
      /\ (faults w = [] -> faults w' = [])
  | (Throw _, w') =>
      evidences w' = evidences w
      /\ (faults w <> [] \/ uuid ∈ map ev_id (evidences w))
  end.
Proof.
  unfold create, try_catch, bind, Date_now, insert_sql, bind, statement, ret.
  cbn [faults evidences clock].
  destruct (faults w) as [| [m |] fs] eqn:Hf; cbn [faults evidences clock rethrow ev_id].
  - case_bool_decide as Hin; cbn [rethrow evidences faults].
    + split; [reflexivity | right; exact Hin].
    + repeat split; auto.
  - split; [reflexivity | left; discriminate].
  - case_bool_decide as Hin; cbn [rethrow evidences faults].
    + split; [reflexivity | left; discriminate].
    + repeat split; auto. discriminate.
Qed.

Lemma create_no_fault {P : Platform} uuid evidence w :
  faults w = [] ->
  uuid ∉ map ev_id (evidences w) ->
  create uuid evidence w
  = (Ok uuid,
     mk_world (evidences w ++ [inserted_row uuid evidence (toISOString (clock w))])
       [] (S (clock w))).
Proof.
  intros Hf Hfresh.
  unfold create, try_catch, bind, Date_now, insert_sql, bind, statement, ret.
  cbn [faults evidences clock]. rewrite Hf. cbn [faults evidences clock ev_id].
  rewrite bool_decide_eq_false_2 by exact Hfresh. reflexivity.
Qed.

(** X4: without I/O faults, [create] with an id that no row has returns
    that id and appends one row: the fields given, the conversation id,
    the provider and the tags as text (as they are when they hold no
    unpaired surrogate), [createdAt] and [updatedAt] both the time of the
    call; [findById] of the id then returns this row, every other id is
    found as before, and the ids of the table stay distinct. *)
Theorem create_findById {P : Platform} (uuid : jsstring) (evidence : NewEvidence)
  (w : World) :
  faults w = [] ->
  uuid ∉ map ev_id (evidences w) ->
  exists w',
    create uuid evidence w = (Ok uuid, w')
    /\ evidences w' = evidences w ++ [inserted_row uuid evidence (toISOString (clock w))]
    /\ findById uuid w'
       = (Ok (Some (inserted_row uuid evidence (toISOString (clock w)))), w')
    /\ (forall id, id <> uuid ->
          (findById id w').1 = (findById id w).1)
    /\ (NoDup (map ev_id (evidences w)) -> NoDup (map ev_id (evidences w')))
    /\ (text (ne_conversationId evidence) -> text (ne_llmProvider evidence) ->
        (forall s, ne_tags evidence = Some s -> text s) ->
        inserted_row uuid evidence (toISOString (clock w))
        = mk_evidence uuid (ne_timestamp evidence) (ne_conversationId evidence)
            (ne_llmProvider evidence) (ne_encryptedContent evidence) (ne_nonce evidence)
            (ne_contentHash evidence) (ne_messageCount evidence)
            (ne_gitCommitHash evidence) (ne_gitTimestamp evidence) (ne_tags evidence)
            (toISOString (clock w)) (toISOString (clock w))).
Proof.
  intros Hf Hfresh. pose proof (create_cases uuid evidence w) as Hc.
  destruct (create uuid evidence w) as [[id | m] w'].
  - destruct Hc as (-> & _ & Hrows & Hf'). specialize (Hf' Hf).
    exists w'. split; [reflexivity |]. split; [exact Hrows |].
    rewrite !findById_no_fault by assumption. rewrite Hrows.
    split; [| split; [| split]].
    + f_equal. f_equal. apply (find_by_id_app_new _ (inserted_row uuid evidence _)).
      exact Hfresh.
    + intros id Hid.
      rewrite (findById_no_fault id w), (findById_no_fault id w') by assumption.
      cbn [fst]. rewrite Hrows. f_equal. apply find_by_id_app_old. exact Hid.
    + intros Hnd. rewrite map_app. apply NoDup_app. split; [exact Hnd |].
      split; [| apply NoDup_singleton].
      intros x Hx Hx'. apply list_elem_of_singleton in Hx'. subst x. contradiction.
    + intros Hconv Hprov Htags. unfold inserted_row.
      rewrite (to_text_id _ Hconv), (to_text_id _ Hprov).
      destruct (ne_tags evidence) as [s |]; [| reflexivity].
      cbn [option_map]. rewrite (to_text_id s) by (apply Htags; reflexivity).
      reflexivity.
  - destruct Hc as [_ [Hne | Hin]]; contradiction.
Qed.

Lemma create_findById_witness :
  exists w',
    create (H := sample_platform) (js "id-1") sample_evidence tagged_world
    = (Ok (js "id-1"), w')
    /\ evidences w'
       = evidences tagged_world
         ++ [inserted_row (js "id-1") sample_evidence
               (toISOString (Platform := sample_platform) (clock tagged_world))]
    /\ findById (js "id-1") w'
       = (Ok (Some (inserted_row (js "id-1") sample_evidence
                      (toISOString (Platform := sample_platform) (clock tagged_world)))),
          w')
    /\ (forall id, id <> js "id-1" -> (findById id w').1 = (findById id tagged_world).1)
    /\ (NoDup (map ev_id (evidences tagged_world)) -> NoDup (map ev_id (evidences w')))
    /\ (text (ne_conversationId sample_evidence) -> text (ne_llmProvider sample_evidence) ->
        (forall s, ne_tags sample_evidence = Some s -> text s) ->
        inserted_row (js "id-1") sample_evidence
          (toISOString (Platform := sample_platform) (clock tagged_world))
        = mk_evidence (js "id-1") (ne_timestamp sample_evidence)
            (ne_conversationId sample_evidence) (ne_llmProvider sample_evidence)
            (ne_encryptedContent sample_evidence) (ne_nonce sample_evidence)
            (ne_contentHash sample_evidence) (ne_messageCount sample_evidence)
            (ne_gitCommitHash sample_evidence) (ne_gitTimestamp sample_evidence)
            (ne_tags sample_evidence)
            (toISOString (Platform := sample_platform) (clock tagged_world))
            (toISOString (Platform := sample_platform) (clock tagged_world))).
Proof.
  apply (create_findById (P := sample_platform) (js "id-1") sample_evidence tagged_world);
    [reflexivity | apply (bool_decide_unpack _); vm_compute; exact I].
Defined.

(* ------------------------------------------------------------------ *)
(** ** [deleteMany] and [delete] *)

Lemma run_cases (u : list Evidence -> list Evidence * Z) w :
  match run u w with
  | (Ok changes, w') =>
      evidences w' = (u (evidences w)).1 /\ changes = (u (evidences w)).2
      /\ (faults w = [] -> faults w' = [])
  | (Throw _, w') => evidences w' = evidences w /\ faults w <> []
  end.
Proof.
  unfold run, bind, statement.
  destruct (faults w) as [| [m |] fs] eqn:Hf; cbn [evidences faults clock].
  - destruct (u (evidences w)) as [rows changes]. cbn. auto.
  - split; [reflexivity | discriminate].
  - destruct (u (evidences w)) as [rows changes]. cbn. repeat split; discriminate.
Qed.

Lemma run_no_fault (u : list Evidence -> list Evidence * Z) w :
  faults w = [] ->
  run u w = (Ok (u (evidences w)).2, mk_world (u (evidences w)).1 [] (clock w)).
Proof.
  intros Hf. unfold run, bind. rewrite statement_no_fault by exact Hf.
  destruct (u (evidences w)) as [rows changes]. rewrite Hf. reflexivity.
Qed.

Lemma find_filter_out (idl : list jsstring) id (rows : list Evidence) :
  id ∈ idl ->
  List.find (fun r => str_eqb (ev_id r) id)
    (List.filter (fun r => negb (bool_decide (ev_id r ∈ idl))) rows) = None.
Proof.
  intros Hin. apply find_absent. intros r Hr Hid.
  apply list_elem_of_In, filter_In in Hr as [_ Hr].
  apply negb_true_iff, bool_decide_eq_false in Hr. apply Hr. rewrite Hid. exact Hin.
Qed.

Lemma find_filter_keep (idl : list jsstring) id (rows : list Evidence) :
  id ∉ idl ->
  List.find (fun r => str_eqb (ev_id r) id)
    (List.filter (fun r => negb (bool_decide (ev_id r ∈ idl))) rows)
  = List.find (fun r => str_eqb (ev_id r) id) rows.
Proof.
  intros Hout. induction rows as [| r rows IH]; [reflexivity |].
  cbn [List.filter List.find]. destruct (decide (ev_id r = id)) as [Hid | Hid].
  - rewrite bool_decide_eq_false_2 by (rewrite Hid; exact Hout). cbn [negb List.find].
    unfold str_eqb. rewrite bool_decide_eq_true_2 by exact Hid. reflexivity.
  - replace (str_eqb (ev_id r) id) with false
      by (symmetry; apply bool_decide_eq_false_2; exact Hid).
    destruct (negb _); [| exact IH].
    cbn [List.find].
    replace (str_eqb (ev_id r) id) with false
      by (symmetry; apply bool_decide_eq_false_2; exact Hid).
    exact IH.
Qed.

Lemma deleteMany_outcome (idl : list jsstring) (w : World) :
  match deleteMany idl w with
  | (Ok deleted, w') =>
      evidences w'
      = List.filter (fun r => negb (bool_decide (ev_id r ∈ idl))) (evidences w)
      /\ deleted
         = Z.of_nat (length (List.filter (fun r => bool_decide (ev_id r ∈ idl))
                               (evidences w)))
      /\ (forall id, id ∈ idl ->
            List.find (fun r => str_eqb (ev_id r) id) (evidences w') = None)
      /\ (forall id, id ∉ idl ->
            List.find (fun r => str_eqb (ev_id r) id) (evidences w')
            = List.find (fun r => str_eqb (ev_id r) id) (evidences w))
  | (Throw _, w') => evidences w' = evidences w /\ idl <> [] /\ faults w <> []
  end
  /\ (deleteMany [] w = (Ok 0, w))
  /\ (faults w = [] -> exists deleted w', deleteMany idl w = (Ok deleted, w')).
Proof.
  split; [| split].
  - unfold deleteMany. destruct idl as [| id0 idl]; cbn [length Nat.eqb].
    + cbn [ret]. split; [| split; [| split]].
      * induction (evidences w) as [| r rows IH]; [reflexivity |].
        cbn [List.filter]. rewrite bool_decide_eq_false_2 by apply not_elem_of_nil.
        cbn [negb]. f_equal. exact IH.
      * induction (evidences w) as [| r rows IH]; [reflexivity |].
        cbn [List.filter]. rewrite bool_decide_eq_false_2 by apply not_elem_of_nil.
        exact IH.
      * intros id Hid. apply elem_of_nil in Hid. contradiction.
      * reflexivity.
    + unfold try_catch. pose proof (run_cases (delete_sql (id0 :: idl)) w) as Hr.
      destruct (run _ w) as [[changes | m] w']; cbn [rethrow].
      * destruct Hr as (Hrows & Hch & _). cbn [delete_sql fst snd] in *.
        split; [exact Hrows |]. split; [exact Hch |]. rewrite Hrows. split.
        -- intros id Hid. apply find_filter_out. exact Hid.
        -- intros id Hid. apply find_filter_keep. exact Hid.
      * destruct Hr as [Hrows Hne]. split; [exact Hrows |]. split; [discriminate | exact Hne].
  - reflexivity.
  - intros Hf. unfold deleteMany. destruct (length idl =? 0)%nat.
    + eexists _, _. reflexivity.
    + unfold try_catch. rewrite run_no_fault by exact Hf. eexists _, _. reflexivity.
Qed.

(** X5: when [deleteMany] returns, the table holds exactly the rows whose
    id is not in the list, in their order, the result is the number of
    rows that had such an id (an id listed twice counts once), none of the
    listed ids is found any more and every other id is found as before;
    when it throws, the list was not empty, a statement failed and the
    table is as it was.  On an empty list it returns 0 without running a
    statement, and without I/O faults it returns. *)
Theorem deleteMany_removes_exactly (idl : list jsstring) (w : World) :
  match deleteMany idl w with
  | (Ok deleted, w') =>
      evidences w'
      = List.filter (fun r => negb (bool_decide (ev_id r ∈ idl))) (evidences w)
      /\ deleted
         = Z.of_nat (length (List.filter (fun r => bool_decide (ev_id r ∈ idl))
                               (evidences w)))
      /\ (forall id, id ∈ idl ->
            List.find (fun r => str_eqb (ev_id r) id) (evidences w') = None)
      /\ (forall id, id ∉ idl ->
            List.find (fun r => str_eqb (ev_id r) id) (evidences w')
            = List.find (fun r => str_eqb (ev_id r) id) (evidences w))
  | (Throw _, w') => evidences w' = evidences w /\ idl <> [] /\ faults w <> []
  end
  /\ (deleteMany [] w = (Ok 0, w))
  /\ (faults w = [] -> exists deleted w', deleteMany idl w = (Ok deleted, w')).
Proof. exact (deleteMany_outcome idl w). Qed.

Lemma filter_keeps_all {A} (p : A -> bool) l :
  (forall x, x ∈ l -> p x = true) -> List.filter p l = l.
Proof.
  induction l as [| x l IH]; intros Hp; [reflexivity |].
  cbn [List.filter]. rewrite Hp by left. rewrite IH; [reflexivity |].
  intros y Hy. apply Hp. right. exact Hy.
Qed.

(** X6: [delete] undoes [create]: without I/O faults, after [create] with
    a fresh id, [delete] of that id returns [true] and the table holds the
    rows it held before; a second [delete] of the id returns [false]. *)
Theorem create_then_delete {P : Platform} (uuid : jsstring) (evidence : NewEvidence)
  (w : World) :
  faults w = [] ->
  uuid ∉ map ev_id (evidences w) ->
  exists w1 w2,
    create uuid evidence w = (Ok uuid, w1)
    /\ db_delete uuid w1 = (Ok true, w2)
    /\ evidences w2 = evidences w
    /\ db_delete uuid w2 = (Ok false, w2).
Proof.
  intros Hf Hfresh. rewrite create_no_fault by assumption.
  eexists _, _. split; [reflexivity |].
  assert (Hkeep : forall rows : list Evidence, uuid ∉ map ev_id rows ->
            List.filter (fun r => negb (bool_decide (ev_id r ∈ [uuid]))) rows = rows).
  { intros rows Hout. apply filter_keeps_all. intros r Hr.
    apply negb_true_iff, bool_decide_eq_false. rewrite list_elem_of_singleton.
    intros Heq. apply Hout. rewrite <- Heq. apply list_elem_of_fmap_2, Hr. }
  assert (Hnone : forall rows : list Evidence, uuid ∉ map ev_id rows ->
            List.filter (fun r => bool_decide (ev_id r ∈ [uuid])) rows = []).
  { intros rows Hout. induction rows as [| r rows IH]; [reflexivity |].
    cbn [map] in Hout. apply not_elem_of_cons in Hout as [Hr Hout].
    cbn [List.filter]. rewrite bool_decide_eq_false_2.
    - apply IH, Hout.
    - rewrite list_elem_of_singleton. congruence. }
  unfold db_delete, try_catch, bind.
  rewrite !run_no_fault by reflexivity.
  cbn [delete_sql fst snd evidences clock rethrow ret].
  rewrite !List.filter_app. cbn [List.filter inserted_row ev_id].
  rewrite (bool_decide_eq_true_2 (uuid ∈ [uuid])) by left. cbn [negb].
  rewrite app_nil_r, Hkeep, Hnone by exact Hfresh. cbn [app length].
  split; [reflexivity |]. split; [reflexivity |].
  rewrite run_no_fault by reflexivity.
  cbn [delete_sql fst snd evidences clock rethrow ret].
  rewrite Hkeep, Hnone by exact Hfresh. reflexivity.
Qed.

Lemma create_then_delete_witness :
  exists w1 w2,
    create (H := sample_platform) (js "id-1") sample_evidence tagged_world
    = (Ok (js "id-1"), w1)
    /\ db_delete (js "id-1") w1 = (Ok true, w2)
    /\ evidences w2 = evidences tagged_world
    /\ db_delete (js "id-1") w2 = (Ok false, w2).
Proof.
  apply (create_then_delete (P := sample_platform) (js "id-1") sample_evidence
           tagged_world);
    [reflexivity | apply (bool_decide_unpack _); vm_compute; exact I].
Defined.

(* ------------------------------------------------------------------ *)
(** ** The order of a listing *)

Lemma bytes_leb_total a : forall b, bytes_leb a b = true \/ bytes_leb b a = true.
Proof.
  induction a as [| x a IH]; intros [| y b]; cbn [bytes_leb]; auto.
  destruct (IH b) as [H | H]; rewrite H.
  - destruct (Z.lt_trichotomy x y) as [Hlt | [-> | Hgt]].
    + left. apply orb_true_iff. left. lia.
    + left. rewrite Z.eqb_refl. apply orb_true_r.
    + right. apply orb_true_iff. left. lia.
  - destruct (Z.lt_trichotomy x y) as [Hlt | [-> | Hgt]].
    + left. apply orb_true_iff. left. lia.
    + right. rewrite Z.eqb_refl. apply orb_true_r.
    + right. apply orb_true_iff. left. lia.
Qed.

Lemma bytes_leb_trans a : forall b c,
  bytes_leb a b = true -> bytes_leb b c = true -> bytes_leb a c = true.
Proof.
  induction a as [| x a IH]; intros [| y b] [| z c]; cbn [bytes_leb]; try discriminate;
    auto.
  rewrite !orb_true_iff, !andb_true_iff.
  intros [Hxy | [Hxy Hab]] [Hyz | [Hyz Hbc]].
  - left. lia.
  - left. lia.
  - left. lia.
  - right. split; [lia |]. eapply IH; eassumption.
Qed.

Lemma str_leb_total a b : str_leb a b = true \/ str_leb b a = true.
Proof. apply bytes_leb_total. Qed.

Lemma str_leb_trans a b c :
  str_leb a b = true -> str_leb b c = true -> str_leb a c = true.
Proof. apply bytes_leb_trans. Qed.

#[global] Instance newer_first_total : Total newer_first.
Proof.
  intros a b. unfold newer_first.
  destruct (str_leb_total (timestamp b) (timestamp a)) as [H | H]; rewrite H; auto.
Qed.

#[global] Instance newer_first_trans : Transitive newer_first.
Proof.
  intros a b c. unfold newer_first. intros Hab Hbc.
  apply Is_true_true. apply Is_true_true in Hab, Hbc.
  eapply str_leb_trans; eassumption.
Qed.

#[global] Instance older_first_total : Total older_first.
Proof.
  intros a b. unfold older_first.
  destruct (str_leb_total (timestamp a) (timestamp b)) as [H | H]; rewrite H; auto.
Qed.

#[global] Instance older_first_trans : Transitive older_first.
Proof.
  intros a b c. unfold older_first. intros Hab Hbc.
  apply Is_true_true. apply Is_true_true in Hab, Hbc.
  eapply str_leb_trans; eassumption.
Qed.

(** The index holds its rows oldest first, and its backward walk newest
    first. *)
Lemma index_insert_sorted r index :
  StronglySorted older_first index -> StronglySorted older_first (index_insert r index).
Proof.
  induction 1 as [| e rest Hrest IH He]; cbn [index_insert].
  - repeat constructor.
  - destruct (str_leb (timestamp e) (timestamp r)) eqn:Her.
    + constructor; [exact IH |].
      apply Forall_forall. intros x Hx. apply list_elem_of_In in Hx.
      apply (Permutation_in _ (index_insert_Permutation r rest)) in Hx.
      destruct Hx as [<- | Hx].
      * unfold older_first. rewrite Her. exact I.
      * rewrite Forall_forall in He. apply He, list_elem_of_In, Hx.
    + assert (Hre : older_first r e).
      { unfold older_first.
        destruct (str_leb_total (timestamp r) (timestamp e)) as [H | H];
          [rewrite H; exact I | congruence]. }
      constructor; [constructor; assumption |].
      constructor; [exact Hre |].
      eapply Forall_impl; [exact He |]. intros x Hx. etrans; eassumption.
Qed.

Lemma order_by_timestamp_sorted rows :
  StronglySorted older_first (order_by_timestamp rows).
Proof.
  unfold order_by_timestamp.
  assert (H : forall index, StronglySorted older_first index ->
             StronglySorted older_first
               (fold_left (fun index r => index_insert r index) rows index)).
  { induction rows as [| r rows IH]; intros index Hs; cbn [fold_left]; [exact Hs |].
    apply IH, index_insert_sorted, Hs. }
  apply H. constructor.
Qed.

Lemma order_by_timestamp_desc_sorted rows :
  StronglySorted newer_first (order_by_timestamp_desc rows).
Proof.
  unfold order_by_timestamp_desc.
  pose proof (order_by_timestamp_sorted rows) as Hs.
  induction Hs as [| e rest Hrest IH He]; [constructor |].
  cbn [rev]. apply StronglySorted_app_2; [| exact IH | repeat constructor].
  intros x y Hx Hy. apply list_elem_of_singleton in Hy. subst y.
  rewrite Forall_forall in He. apply (He x).
  apply list_elem_of_In, in_rev, list_elem_of_In, Hx.
Qed.

Lemma StronglySorted_sublist {A} (R : relation A) (k l : list A) :
  sublist k l -> StronglySorted R l -> StronglySorted R k.
Proof.
  induction 1 as [| x k l Hsub IH | x k l Hsub IH]; intros Hs.
  - constructor.
  - apply StronglySorted_inv in Hs as [Hs Hx]. constructor; [apply IH, Hs |].
    rewrite Forall_forall in Hx. apply Forall_forall. intros y Hy. apply Hx.
    eapply elem_of_sublist; eassumption.
  - apply StronglySorted_inv in Hs as [Hs _]. apply IH, Hs.
Qed.

Lemma paginate_sublist limit offset (rows : list Evidence) :
  sublist (paginate limit offset rows) rows.
Proof.
  unfold paginate, sql_limit.
  destruct limit as [l |]; destruct (0 <? offset); try destruct (l <? 0);
    cbn [Z.ltb Z.compare Z.to_nat drop];
    repeat first [reflexivity | apply sublist_drop
                 | (etrans; [apply sublist_take |])].
Qed.

Lemma sublist_elem_of_rows (k l : list Evidence) r : sublist k l -> r ∈ k -> r ∈ l.
Proof. intros Hs Hr. eapply elem_of_sublist; eassumption. Qed.

Lemma paginate_all (rows : list Evidence) offset :
  offset <= 0 -> paginate None offset rows = rows.
Proof. intros Ho. unfold paginate. replace (0 <? offset) with false by lia. reflexivity. Qed.

(** X7: when [list] returns, its page is ordered by timestamp, newest
    first; it is the page that the limit and the offset cut out of a
    newest-first ordering of all rows, every record of it is a row of the
    table, and without limit and offset it holds every row.  [list] throws
    only when a statement fails. *)
Theorem db_list_newest_first (options : ListOptions) (w : World) :
  match db_list options w with
  | (Ok page, w') =>
      StronglySorted newer_first page
      /\ (exists sorted,
            Permutation sorted (evidences w)
            /\ StronglySorted newer_first sorted
            /\ page = paginate (lo_limit options) (default 0 (lo_offset options)) sorted)
      /\ (forall r, r ∈ page -> r ∈ evidences w)
      /\ (lo_limit options = None -> default 0 (lo_offset options) <= 0 ->
          Permutation page (evidences w))
  | (Throw _, _) => faults w <> []
  end.
Proof.
  destruct (db_list_cases options w) as [_ Hres].
  destruct (decide (faults w = [])) as [Hf | Hf].
  - rewrite db_list_no_fault by exact Hf.
    set (sorted := order_by_timestamp_desc (evidences w)).
    assert (Hsorted : StronglySorted newer_first sorted)
      by apply order_by_timestamp_desc_sorted.
    assert (Hperm : Permutation sorted (evidences w))
      by apply order_by_timestamp_desc_Permutation.
    split; [| split; [| split]].
    + eapply StronglySorted_sublist; [apply paginate_sublist | exact Hsorted].
    + exists sorted. auto.
    + intros r Hr. apply list_elem_of_In. apply (Permutation_in _ Hperm).
      apply list_elem_of_In. eapply elem_of_sublist; [exact Hr | apply paginate_sublist].
    + intros -> Ho. rewrite paginate_all by exact Ho. exact Hperm.
  - destruct (db_list options w) as [[page | m] w']; cbn [fst] in *; [| exact Hf].
    destruct Hres as [Hok | [m Hm]]; [| discriminate]. injection Hok as ->.
    set (sorted := order_by_timestamp_desc (evidences w)).
    assert (Hsorted : StronglySorted newer_first sorted)
      by apply order_by_timestamp_desc_sorted.
    assert (Hperm : Permutation sorted (evidences w))
      by apply order_by_timestamp_desc_Permutation.
    split; [| split; [| split]].
    + eapply StronglySorted_sublist; [apply paginate_sublist | exact Hsorted].
    + exists sorted. auto.
    + intros r Hr. apply list_elem_of_In. apply (Permutation_in _ Hperm).
      apply list_elem_of_In. eapply elem_of_sublist; [exact Hr | apply paginate_sublist].
    + intros -> Ho. rewrite paginate_all by exact Ho. exact Hperm.
Qed.

(* ------------------------------------------------------------------ *)
(** ** [findByConversationId] and [updateGitInfo] *)

Lemma select_outcome {A} (q : list Evidence -> A) w :
  match select q w with
  | (Ok a, w') =>
      a = q (evidences w) /\ evidences w' = evidences w
      /\ (faults w = [] -> faults w' = [])
  | (Throw _, w') => faults w <> [] /\ evidences w' = evidences w
  end.
Proof.
  unfold select, bind, statement.
  destruct (faults w) as [| [m |] fs] eqn:Hf; cbn [evidences faults]; auto.
  repeat split; discriminate.
Qed.

(** X8: when [findByConversationId] returns, it returns exactly the rows
    whose conversation id is the given one as text (the given one itself
    when it is text), ordered by timestamp, oldest first; it throws only
    when a statement fails, and the table stays as it is. *)
Theorem findByConversationId_oldest_first (id : jsstring) (w : World) :
  match findByConversationId id w with
  | (Ok found, w') =>
      StronglySorted older_first found
      /\ Permutation found
           (List.filter (fun r => str_eqb (conversationId r) (to_text id)) (evidences w))
      /\ (forall r, r ∈ found <-> r ∈ evidences w /\ conversationId r = to_text id)
      /\ (text id -> forall r, r ∈ found <-> r ∈ evidences w /\ conversationId r = id)
      /\ evidences w' = evidences w
  | (Throw _, w') => faults w <> [] /\ evidences w' = evidences w
  end.
Proof.
  unfold findByConversationId, try_catch.
  match goal with |- context [select ?q w] =>
    pose proof (select_outcome q w) as Hsel;
    destruct (select q w) as [[found | m] w']; cbn [rethrow]
  end; [| exact Hsel].
  destruct Hsel as (-> & Hrows & _).
  assert (Hin : forall r,
             r ∈ order_by_timestamp
                   (List.filter (fun r => str_eqb (conversationId r) (to_text id))
                      (evidences w))
             <-> r ∈ evidences w /\ conversationId r = to_text id).
  { intros r. rewrite (order_by_timestamp_Permutation _).
    rewrite !list_elem_of_In, filter_In.
    unfold str_eqb. rewrite bool_decide_eq_true. reflexivity. }
  split; [apply order_by_timestamp_sorted |].
  split; [apply order_by_timestamp_Permutation |]. split; [exact Hin |].
  split; [| exact Hrows].
  intros Hid r. rewrite Hin, (to_text_id id Hid). reflexivity.
Qed.

Lemma set_git_id id c t now r : ev_id (set_git id c t now r) = ev_id r.
Proof. unfold set_git. destruct (str_eqb _ _); reflexivity. Qed.

(** X9: when [updateGitInfo] returns, a row had the id, and that row now
    carries the commit hash and the commit time given, with its id,
    ciphertext, nonce, content hash and tags as before, and every other row
    is unchanged; when it throws, the table is as it was, and without I/O
    faults this is the error that no row has the id.  Without I/O faults
    it returns for the id of a row. *)
Theorem updateGitInfo_stamps_the_record {P : Platform} (id commit stamp : jsstring)
  (w : World) :
  match updateGitInfo id commit stamp w with
  | (Ok _, w') =>
      (id ∈ map ev_id (evidences w))
      /\ Forall2 (fun r r' =>
                    if str_eqb (ev_id r) id
                    then ev_id r' = id /\ gitCommitHash r' = Some commit
                         /\ gitTimestamp r' = Some stamp
                         /\ encryptedContent r' = encryptedContent r
                         /\ nonce r' = nonce r /\ contentHash r' = contentHash r
                         /\ tags r' = tags r
                    else r' = r)
           (evidences w) (evidences w')
  | (Throw message, w') =>
      evidences w' = evidences w
      /\ (faults w = [] ->
          (id ∉ map ev_id (evidences w))
          /\ message = js "Failed to update git info: Evidence with id " ++ id
                       ++ js " not found")
  end
  /\ (faults w = [] -> id ∈ map ev_id (evidences w) ->
      exists w', updateGitInfo id commit stamp w = (Ok tt, w')).
Proof.
  assert (Hcount : forall rows : list Evidence,
             (Z.of_nat (length (List.filter (fun r => str_eqb (ev_id r) id) rows)) =? 0)
             = negb (bool_decide (id ∈ map ev_id rows))).
  { intros rows. induction rows as [| r rows IH]; [reflexivity |].
    cbn [List.filter map]. unfold str_eqb at 1.
    destruct (decide (ev_id r = id)) as [Hid | Hid].
    - rewrite bool_decide_eq_true_2 by exact Hid.
      rewrite (bool_decide_eq_true_2 (id ∈ _)) by (rewrite Hid; left).
      cbn [length negb]. apply Z.eqb_neq. lia.
    - rewrite bool_decide_eq_false_2 by exact Hid.
      rewrite IH. f_equal. apply bool_decide_ext. rewrite elem_of_cons.
      split; [auto |]. intros [Heq | Hin]; [congruence | exact Hin]. }
  assert (Hmap : forall rows : list Evidence,
             Forall2 (fun r r' =>
                    if str_eqb (ev_id r) id
                    then ev_id r' = id /\ gitCommitHash r' = Some commit
                         /\ gitTimestamp r' = Some stamp
                         /\ encryptedContent r' = encryptedContent r
                         /\ nonce r' = nonce r /\ contentHash r' = contentHash r
                         /\ tags r' = tags r
                    else r' = r)
               rows (map (set_git id commit stamp (toISOString (clock w))) rows)).
  { intros rows. induction rows as [| r rows IH]; [constructor |].
    cbn [map]. constructor; [| exact IH].
    unfold set_git. destruct (str_eqb (ev_id r) id) eqn:Hid; [| reflexivity].
    apply bool_decide_eq_true in Hid. cbn. auto 10. }
  split.
  - unfold updateGitInfo, try_catch, bind, Date_now.
    match goal with |- context [run ?u ?w0] =>
      pose proof (run_cases u w0) as Hr; destruct (run u w0) as [[changes | m] w']
    end; cbn [evidences faults clock rethrow] in *.
    + destruct Hr as (Hrows & -> & _). cbn [update_git_sql fst snd] in *.
      rewrite Hcount. case_bool_decide as Hin; cbn [negb throw ret rethrow].
      * split; [exact Hin |]. rewrite Hrows. apply Hmap.
      * split.
        -- rewrite Hrows. clear -Hin. induction (evidences w) as [| r rows IH];
             [reflexivity |].
           cbn [map] in *. apply not_elem_of_cons in Hin as [Hr Hin].
           rewrite IH by exact Hin. unfold set_git, str_eqb.
           rewrite bool_decide_eq_false_2 by congruence. reflexivity.
        -- intros _. split; [exact Hin | reflexivity].
    + destruct Hr as [Hrows Hne]. split; [exact Hrows |]. intros Hf. contradiction.
  - intros Hf Hin. unfold updateGitInfo, try_catch, bind, Date_now.
    rewrite run_no_fault by exact Hf. cbn [update_git_sql fst snd evidences].
    rewrite Hcount, bool_decide_eq_true_2 by exact Hin. cbn [negb ret rethrow].
    eexists. reflexivity.
Qed.

(* ------------------------------------------------------------------ *)
(** ** [getTagCounts] *)

Lemma Map_get_set {V} (m : list (jsstring * V)) key value key' :
  Map_get (Map_set m key value) key'
  = if bool_decide (key = key') then Some value else Map_get m key'.
Proof.
  induction m as [| [k v] m IH]; cbn [Map_set Map_get].
  - unfold str_eqb. case_bool_decide; reflexivity.
  - unfold str_eqb at 1. destruct (decide (k = key)) as [-> | Hk].
    + rewrite bool_decide_eq_true_2 by reflexivity. cbn [Map_get].
      unfold str_eqb. case_bool_decide; reflexivity.
    + rewrite bool_decide_eq_false_2 by exact Hk. cbn [Map_get]. rewrite IH.
      unfold str_eqb. destruct (decide (k = key')) as [-> | Hk'].
      * rewrite bool_decide_eq_true_2 by reflexivity.
        rewrite bool_decide_eq_false_2 by congruence. reflexivity.
      * rewrite (bool_decide_eq_false_2 (k = key')) by exact Hk'. reflexivity.
Qed.

Lemma Map_set_keys {V} (m : list (jsstring * V)) key value :
  map fst (Map_set m key value)
  = if bool_decide (key ∈ map fst m) then map fst m else map fst m ++ [key].
Proof.
  induction m as [| [k v] m IH]; cbn [Map_set map fst].
  - rewrite bool_decide_eq_false_2 by apply not_elem_of_nil. reflexivity.
  - unfold str_eqb. destruct (decide (k = key)) as [-> | Hk].
    + rewrite bool_decide_eq_true_2 by reflexivity.
      rewrite bool_decide_eq_true_2 by left. reflexivity.
    + rewrite bool_decide_eq_false_2 by exact Hk. cbn [map fst]. rewrite IH.
      destruct (decide (key ∈ map fst m)) as [Hin | Hout].
      * rewrite !bool_decide_eq_true_2; [reflexivity | right; exact Hin | exact Hin].
      * rewrite !bool_decide_eq_false_2; [reflexivity | | exact Hout].
        intros Hin. apply elem_of_cons in Hin as [-> | Hin]; contradiction.
Qed.

Lemma occurrences_snoc tag l t :
  occurrences tag (l ++ [t]) = occurrences tag l + (if bool_decide (t = tag) then 1 else 0).
Proof.
  unfold occurrences. rewrite List.filter_app, length_app. cbn [List.filter].
  unfold str_eqb. case_bool_decide; cbn [length]; lia.
Qed.

Lemma occurrences_nonneg tag l : 0 <= occurrences tag l.
Proof. unfold occurrences. lia. Qed.

Lemma occurrences_zero tag l : occurrences tag l = 0 <-> tag ∉ l.
Proof.
  unfold occurrences. induction l as [| x l IH]; cbn [List.filter].
  - split; [intros _; apply not_elem_of_nil | reflexivity].
  - unfold str_eqb. case_bool_decide as Hx.
    + subst x. cbn [length]. split; [lia |]. intros H. exfalso. apply H. left.
    + rewrite IH. rewrite not_elem_of_cons. split; [auto | tauto].
Qed.

Lemma count_tag_tallies tagCounts seen t :
  tallies tagCounts seen -> tallies (count_tag tagCounts t) (seen ++ [t]).
Proof.
  intros (Hnd & Hkeys & Hget). unfold count_tag. split; [| split].
  - rewrite Map_set_keys. case_bool_decide as Hin; [exact Hnd |].
    apply NoDup_app. split; [exact Hnd |]. split; [| apply NoDup_singleton].
    intros x Hx Hx'. apply list_elem_of_singleton in Hx'. subst x. contradiction.
  - intros tag. rewrite Map_set_keys, elem_of_app, list_elem_of_singleton.
    case_bool_decide as Hin.
    + rewrite Hkeys. split; [auto |]. intros [H | ->]; [exact H | apply Hkeys, Hin].
    + rewrite elem_of_app, list_elem_of_singleton, Hkeys. reflexivity.
  - intros tag. rewrite Map_get_set, occurrences_snoc.
    pose proof (occurrences_nonneg tag seen) as Hpos.
    case_bool_decide as Ht.
    + subst t. rewrite Hget.
      destruct (occurrences tag seen =? 0) eqn:Hz; cbn [or_zero].
      * apply Z.eqb_eq in Hz. rewrite Hz. reflexivity.
      * rewrite Hz. replace (occurrences tag seen + 1 =? 0) with false by lia.
        reflexivity.
    + rewrite Z.add_0_r. apply Hget.
Qed.

Lemma fold_count_tag_tallies l : forall tagCounts seen,
  tallies tagCounts seen -> tallies (fold_left count_tag l tagCounts) (seen ++ l).
Proof.
  induction l as [| t l IH]; intros tagCounts seen H; cbn [fold_left].
  - rewrite app_nil_r. exact H.
  - replace (seen ++ t :: l) with ((seen ++ [t]) ++ l) by (rewrite <- app_assoc; reflexivity).
    apply IH, count_tag_tallies, H.
Qed.

Lemma fold_rows_tallies strings : forall tagCounts seen,
  tallies tagCounts seen ->
  tallies (fold_left (fun tagCounts s => fold_left count_tag (tokens s) tagCounts)
             strings tagCounts)
    (seen ++ flat_map tokens strings).
Proof.
  induction strings as [| s strings IH]; intros tagCounts seen H; cbn [fold_left flat_map].
  - rewrite app_nil_r. exact H.
  - rewrite app_assoc. apply IH, fold_count_tag_tallies, H.
Qed.

Lemma all_tags_tag_strings rows : flat_map tokens (tag_strings rows) = all_tags rows.
Proof.
  unfold all_tags, tag_strings, omap.
  induction rows as [| r rows IH]; [reflexivity |].
  cbn [list_omap flat_map].
  destruct (tags r) as [[| c s] |]; cbn [tokens_of str_empty app flat_map];
    rewrite IH; reflexivity.
Qed.

Lemma getTagCounts_tally (w : World) :
  match getTagCounts w with
  | (Ok tagCounts, w') =>
      NoDup (map fst tagCounts)
      /\ (forall tag, tag ∈ map fst tagCounts <-> tag ∈ all_tags (evidences w))
      /\ (forall tag count, (tag, count) ∈ tagCounts ->
            count = occurrences tag (all_tags (evidences w)) /\ 0 < count)
      /\ evidences w' = evidences w
  | (Throw _, w') => faults w <> [] /\ evidences w' = evidences w
  end.
Proof.
  unfold getTagCounts, try_catch.
  match goal with |- context [select ?q w] =>
    pose proof (select_outcome q w) as Hsel;
    destruct (select q w) as [[tagCounts | m] w']; cbn [rethrow]
  end; [| exact Hsel].
  destruct Hsel as (-> & Hrows & _).
  pose proof (fold_rows_tallies (tag_strings (evidences w)) [] []) as Ht.
  rewrite all_tags_tag_strings in Ht. cbn [app] in Ht.
  destruct Ht as (Hnd & Hkeys & Hget).
  { split; [constructor |]. split; [intros tag; reflexivity | intros tag; reflexivity]. }
  split; [exact Hnd |]. split; [exact Hkeys |]. split; [| exact Hrows].
  intros tag count Hin.
  assert (Hg : Map_get (fold_left
                          (fun tagCounts s => fold_left count_tag (tokens s) tagCounts)
                          (tag_strings (evidences w)) []) tag = Some count).
  { revert Hnd Hin. generalize (fold_left
                          (fun tagCounts s => fold_left count_tag (tokens s) tagCounts)
                          (tag_strings (evidences w)) []).
    intros m. induction m as [| [k v] m IH]; intros Hnd Hin.
    - apply elem_of_nil in Hin. contradiction.
    - cbn [map fst] in Hnd. apply NoDup_cons in Hnd as [Hk Hnd].
      cbn [Map_get]. unfold str_eqb. apply elem_of_cons in Hin as [Heq | Hin].
      + injection Heq as <- <-. rewrite bool_decide_eq_true_2 by reflexivity. reflexivity.
      + rewrite bool_decide_eq_false_2.
        * apply IH; assumption.
        * intros ->. apply Hk. apply list_elem_of_fmap. exists (tag, count). auto. }
  rewrite Hget in Hg. pose proof (occurrences_nonneg tag (all_tags (evidences w))).
  destruct (_ =? 0) eqn:Hz; [discriminate |]. injection Hg as <-. split; [reflexivity | lia].
Qed.

(** X10: when [getTagCounts] returns, the map has one entry for each tag
    that occurs in some row and no other entry, and the count of a tag is
    the number of its occurrences in the tag strings of all rows (a tag
    that a row lists twice counts twice), so every count is positive. *)
Theorem getTagCounts_counts_occurrences (w : World) :
  match getTagCounts w with
  | (Ok tagCounts, w') =>
      NoDup (map fst tagCounts)
      /\ (forall tag, tag ∈ map fst tagCounts <-> tag ∈ all_tags (evidences w))
      /\ (forall tag count, (tag, count) ∈ tagCounts ->
            count = occurrences tag (all_tags (evidences w)) /\ 0 < count)
      /\ evidences w' = evidences w
  | (Throw _, w') => faults w <> [] /\ evidences w' = evidences w
  end.
Proof. exact (getTagCounts_tally w). Qed.

(* ------------------------------------------------------------------ *)
(** ** The salt storage *)

Lemma key_statement_no_fault s :
  faults (handle s) = [] -> key_statement s = (Ok tt, s).
Proof.
  intros Hf. unfold key_statement. rewrite statement_no_fault by exact Hf.
  destruct s. reflexivity.
Qed.

Lemma key_statement_keys s : crypto_keys (key_statement s).2 = crypto_keys s.
Proof. unfold key_statement. destruct (statement (handle s)). reflexivity. Qed.

Lemma key_statement_rows s :
  evidences (handle (key_statement s).2) = evidences (handle s).
Proof.
  unfold key_statement. pose proof (statement_rows (handle s)) as H.
  destruct (statement (handle s)). exact H.
Qed.

Lemma storeSalt_fresh (salt : bytes) (s : Store) :
  faults (handle s) = [] ->
  length salt = 16%nat ->
  crypto_keys s = None ->
  exists s',
    storeSalt salt s = (Ok tt, s')
    /\ retrieveSalt s' = (Ok (Some salt), s')
    /\ hasSalt s' = (Ok true, s')
    /\ handle s' = handle s.
Proof.
  intros Hf Hlen Hnone. unfold storeSalt. rewrite Hlen. cbn [Nat.eqb negb].
  rewrite key_statement_no_fault by exact Hf. rewrite Hnone.
  rewrite key_statement_no_fault by exact Hf.
  eexists. split; [reflexivity |].
  unfold retrieveSalt, hasSalt.
  rewrite key_statement_no_fault by exact Hf. cbn [crypto_keys handle].
  rewrite bool_decide_eq_true_2 by eauto. auto.
Qed.

(** X11: without I/O faults, [storeSalt] of a 16-byte salt into a database
    that holds none returns; afterwards [retrieveSalt] returns that salt
    and [hasSalt] returns [true]. *)
Theorem storeSalt_retrieveSalt (salt : bytes) (s : Store) :
  faults (handle s) = [] ->
  length salt = 16%nat ->
  crypto_keys s = None ->
  exists s',
    storeSalt salt s = (Ok tt, s')
    /\ retrieveSalt s' = (Ok (Some salt), s')
    /\ hasSalt s' = (Ok true, s')
    /\ handle s' = handle s.
Proof. exact (storeSalt_fresh salt s). Qed.

Lemma storeSalt_retrieveSalt_witness :
  exists s',
    storeSalt sample_salt sample_store = (Ok tt, s')
    /\ retrieveSalt s' = (Ok (Some sample_salt), s')
    /\ hasSalt s' = (Ok true, s')
    /\ handle s' = handle sample_store.
Proof. apply (storeSalt_retrieveSalt sample_salt sample_store); reflexivity. Defined.

Lemma storeSalt_outcome (salt : bytes) (s : Store) :
  match storeSalt salt s with
  | (Ok _, s') =>
      crypto_keys s = None /\ crypto_keys s' = Some salt /\ length salt = 16%nat
  | (Throw message, s') =>
      crypto_keys s' = crypto_keys s
      /\ (length salt <> 16%nat -> message = js "Salt must be 16 bytes" /\ s' = s)
      /\ (length salt = 16%nat -> faults (handle s) = [] ->
          is_Some (crypto_keys s) /\ message = SALT_EXISTS)
  end
  /\ evidences (handle (storeSalt salt s).2) = evidences (handle s).
Proof.
  unfold storeSalt.
  destruct (length salt =? 16)%nat eqn:Hlen; cbn [negb].
  - apply Nat.eqb_eq in Hlen.
    pose proof (key_statement_keys s) as Hk1. pose proof (key_statement_rows s) as Hr1.
    destruct (decide (faults (handle s) = [])) as [Hf | Hf].
    + rewrite key_statement_no_fault in * by exact Hf.
      destruct (crypto_keys s) as [old |] eqn:Hold.
      * cbn [snd]. unfold str_eqb. rewrite bool_decide_eq_true_2 by reflexivity.
        split; [| reflexivity]. split; [exact Hold |].
        split; [intros H; contradiction |]. intros _ _. split; [eauto | reflexivity].
      * rewrite key_statement_no_fault by exact Hf. cbn [snd crypto_keys handle].
        split; [auto | reflexivity].
    + destruct (key_statement s) as [[[] | e] s1]; cbn [snd] in *.
      * destruct (crypto_keys s1) as [old |] eqn:Hold.
        -- cbn [snd]. unfold str_eqb. rewrite bool_decide_eq_true_2 by reflexivity.
           split; [| exact Hr1]. split; [congruence |].
           split; [intros H; contradiction |]. intros _ H. contradiction.
        -- pose proof (key_statement_keys s1) as Hk2.
           pose proof (key_statement_rows s1) as Hr2.
           destruct (key_statement s1) as [[[] | e] s2]; cbn [snd crypto_keys handle] in *.
           ++ split; [| congruence]. auto.
           ++ split; [| congruence].
              destruct (str_eqb e SALT_EXISTS);
                (split; [congruence |]; split; [intros H; contradiction |];
                 intros _ H; contradiction).
      * split; [| exact Hr1].
        destruct (str_eqb e SALT_EXISTS);
          (split; [congruence |]; split; [intros H; contradiction |];
           intros _ H; contradiction).
  - apply Nat.eqb_neq in Hlen. cbn [snd]. split; [| reflexivity].
    split; [reflexivity |]. split; [auto |]. intros H. contradiction.
Qed.

(** X12: the salt is written once.  When [storeSalt] returns, no salt was
    stored before, the salt given has 16 bytes and is the one stored now.
    When it throws, the stored salt is as it was: for a salt of another
    length the error is "Salt must be 16 bytes" and no statement was run;
    for a 16-byte salt and without I/O faults a salt was already stored
    and the error is "Salt already exists in database", without the prefix
    of the other errors.  The rows of the evidence table are not
    touched. *)
Theorem storeSalt_writes_once (salt : bytes) (s : Store) :
  match storeSalt salt s with
  | (Ok _, s') =>
      crypto_keys s = None /\ crypto_keys s' = Some salt /\ length salt = 16%nat
  | (Throw message, s') =>
      crypto_keys s' = crypto_keys s
      /\ (length salt <> 16%nat -> message = js "Salt must be 16 bytes" /\ s' = s)
      /\ (length salt = 16%nat -> faults (handle s) = [] ->
          is_Some (crypto_keys s) /\ message = SALT_EXISTS)
  end
  /\ evidences (handle (storeSalt salt s).2) = evidences (handle s).
Proof. exact (storeSalt_outcome salt s). Qed.

(* ------------------------------------------------------------------ *)
(** ** The key cache of the server *)

Lemma retrieveSalt_no_fault s :
  faults (handle s) = [] -> retrieveSalt s = (Ok (crypto_keys s), s).
Proof. intros Hf. unfold retrieveSalt. rewrite key_statement_no_fault by exact Hf. reflexivity. Qed.

Lemma rederiveKey_default {P : Platform} {L : PlatformLaws P} password salt :
  password <> [] -> length salt = 16%nat ->
  exists key, rederiveKey password salt no_params = Ok (mk_derived key salt)
              /\ length key = 32%nat.
Proof.
  intros Hp Hs. unfold rederiveKey.
  destruct password as [| c password]; [congruence |]. cbn [str_empty].
  rewrite Hs. cbn [Nat.eqb negb].
  destruct (argon2id_default (c :: password) salt Hs) as (key & Hk & Hlen).
  cbn [merge_params DEFAULT_KDF_PARAMS no_params memory iterations parallelism
       keyLength p_memory p_iterations p_parallelism p_keyLength default].
  rewrite Hk. eauto.
Qed.

Lemma deriveKey_default {P : Platform} {L : PlatformLaws P} password g :
  password <> [] ->
  exists key salt g',
    deriveKey password no_params g = (Ok (mk_derived key salt), g')
    /\ length key = 32%nat /\ length salt = 16%nat
    /\ rederiveKey password salt no_params = Ok (mk_derived key salt).
Proof.
  intros Hp. unfold deriveKey.
  destruct password as [| c password]; [congruence |]. cbn [str_empty].
  pose proof (randomBytes_length 16 g) as Hlen.
  destruct (randomBytes 16 g) as [salt g1]. cbn [fst] in Hlen.
  destruct (rederiveKey_default (c :: password) salt) as (key & Hre & Hk);
    [discriminate | exact Hlen |].
  pose proof Hre as Hre'. unfold rederiveKey in Hre'. cbn [str_empty] in Hre'.
  rewrite Hlen in Hre'. cbn [Nat.eqb negb] in Hre'.
  destruct (argon2id _ _ _ _ _ _) as [k | m]; [| discriminate].
  injection Hre' as ->. eauto 10.
Qed.

(** X13: the key of the server is stable.  For a non-empty password,
    without I/O faults and with a stored salt, if any, of 16 bytes, the
    first [getDerivedKey] returns a 32-byte key and leaves a 16-byte salt
    in the database, the salt that was there if there was one; a second
    call returns the same key from the cache, and a server started anew
    on that database with the same password, whatever its entropy source,
    derives the same key again. *)
Theorem getDerivedKey_stable {P : Platform} {L : PlatformLaws P} (sv : Server) :
  password sv <> [] ->
  faults (handle (store sv)) = [] ->
  derivedKey sv = None ->
  keyDerivationPromise sv = None ->
  (forall salt, crypto_keys (store sv) = Some salt -> length salt = 16%nat) ->
  exists key salt sv1,
    getDerivedKey sv = (Ok key, sv1)
    /\ length key = 32%nat
    /\ crypto_keys (store sv1) = Some salt /\ length salt = 16%nat
    /\ (forall old, crypto_keys (store sv) = Some old -> salt = old)
    /\ handle (store sv1) = handle (store sv)
    /\ getDerivedKey sv1 = (Ok key, sv1)
    /\ (forall g, getDerivedKey (mk_server (password sv) (store sv1) None None g)
                  = (Ok key, mk_server (password sv) (store sv1) (Some key) None g)).
Proof.
  intros Hp Hf Hcache Hpromise Hsalt.
  assert (Hagain : forall key salt st g,
             rederiveKey (password sv) salt no_params = Ok (mk_derived key salt) ->
             faults (handle st) = [] -> crypto_keys st = Some salt ->
             getDerivedKey (mk_server (password sv) st None None g)
             = (Ok key, mk_server (password sv) st (Some key) None g)).
  { intros key salt st g Hre Hfs Hks. unfold getDerivedKey.
    cbn [derivedKey keyDerivationPromise store password entropy].
    rewrite retrieveSalt_no_fault by exact Hfs. rewrite Hks, Hre. reflexivity. }
  destruct sv as [pw st cache promise g]. cbn [password store derivedKey
    keyDerivationPromise entropy] in *. subst cache promise.
  destruct (crypto_keys st) as [salt |] eqn:Hks.
  - destruct (rederiveKey_default pw salt Hp (Hsalt salt eq_refl)) as (key & Hre & Hk).
    exists key, salt. eexists. split; [apply (Hagain key salt st g Hre Hf Hks) |].
    cbn [store]. split; [exact Hk |]. split; [exact Hks |].
    split; [apply Hsalt; reflexivity |]. split; [congruence |]. split; [reflexivity |].
    split; [reflexivity |]. intros g'. apply (Hagain key salt st g' Hre Hf Hks).
  - destruct (deriveKey_default pw g Hp) as (key & salt & g' & Hd & Hk & Hs & Hre).
    destruct (storeSalt_fresh salt st Hf Hs Hks) as (st' & Hstore & _ & _ & Hh).
    exists key, salt. eexists. split.
    { unfold getDerivedKey. cbn [derivedKey keyDerivationPromise store password entropy].
      rewrite retrieveSalt_no_fault by exact Hf. rewrite Hks, Hd.
      cbn [dk_salt dk_key]. rewrite Hstore. reflexivity. }
    assert (Hks' : crypto_keys st' = Some salt).
    { pose proof (storeSalt_outcome salt st) as [Hw _]. rewrite Hstore in Hw.
      apply Hw. }
    cbn [store]. split; [exact Hk |]. split; [exact Hks' |]. split; [exact Hs |].
    split; [discriminate |]. split; [exact Hh |]. split; [reflexivity |].
    intros g2. apply (Hagain key salt st' g2 Hre); [congruence | exact Hks'].
Qed.

Lemma getDerivedKey_stable_witness :
  exists key salt sv1,
    getDerivedKey (H := sample_platform) sample_server = (Ok key, sv1)
    /\ length key = 32%nat
    /\ crypto_keys (store sv1) = Some salt /\ length salt = 16%nat
    /\ (forall old, crypto_keys (store sample_server) = Some old -> salt = old)
    /\ handle (store sv1) = handle (store sample_server)
    /\ getDerivedKey (H := sample_platform) sv1 = (Ok key, sv1)
    /\ (forall g,
          getDerivedKey (H := sample_platform)
            (mk_server (password sample_server) (store sv1) None None g)
          = (Ok key, mk_server (password sample_server) (store sv1) (Some key) None g)).
Proof.
  apply (getDerivedKey_stable (P := sample_platform) (L := sample_laws) sample_server);
    [discriminate | reflexivity | reflexivity | reflexivity | intros salt [=]].
Defined.

(** X14: when the statement that reads the salt fails in the first
    [getDerivedKey], the call throws "Failed to retrieve salt: ..." and
    the rejected promise stays in [keyDerivationPromise]: every later call
    throws the same error without reading the database again, also after
    [clearDerivedKey], although the database has no further fault. *)
Theorem getDerivedKey_keeps_a_failed_read {P : Platform} (sv : Server)
  (fault : jsstring) (later : list (option jsstring)) :
  derivedKey sv = None ->
  keyDerivationPromise sv = None ->
  faults (handle (store sv)) = Some fault :: later ->
  exists sv1,
    getDerivedKey sv = (Throw (js "Failed to retrieve salt: " ++ fault), sv1)
    /\ faults (handle (store sv1)) = later
    /\ crypto_keys (store sv1) = crypto_keys (store sv)
    /\ getDerivedKey sv1 = (Throw (js "Failed to retrieve salt: " ++ fault), sv1)
    /\ getDerivedKey (clearDerivedKey sv1)
       = (Throw (js "Failed to retrieve salt: " ++ fault), clearDerivedKey sv1).
Proof.
  intros Hcache Hpromise Hfaults. unfold getDerivedKey at 1.
  rewrite Hcache, Hpromise. unfold retrieveSalt, key_statement, statement.
  rewrite Hfaults. eexists. split; [reflexivity |].
  cbn [store handle faults crypto_keys]. split; [reflexivity |]. split; [reflexivity |].
  split; reflexivity.
Qed.

Lemma getDerivedKey_keeps_a_failed_read_witness :
  exists sv1,
    getDerivedKey (H := sample_platform) failing_server
    = (Throw (js "Failed to retrieve salt: " ++ js "disk I/O error"), sv1)
    /\ faults (handle (store sv1)) = []
    /\ crypto_keys (store sv1) = crypto_keys (store failing_server)
    /\ getDerivedKey (H := sample_platform) sv1
       = (Throw (js "Failed to retrieve salt: " ++ js "disk I/O error"), sv1)
    /\ getDerivedKey (H := sample_platform) (clearDerivedKey sv1)
       = (Throw (js "Failed to retrieve salt: " ++ js "disk I/O error"),
          clearDerivedKey sv1).
Proof.
  apply (getDerivedKey_keeps_a_failed_read (P := sample_platform) failing_server
           (js "disk I/O error") []); reflexivity.
Defined.

(* ------------------------------------------------------------------ *)
(** ** capture-footprint, then get-footprint and verify-footprint *)

Lemma trim_nonempty s : trim s <> [] -> s <> [].
Proof. intros H ->. apply H. reflexivity. Qed.

Lemma capture_footprint_no_fault {P : Platform} getKey key g gitInfo uuid params w :
  faults w = [] ->
  getKey w = (Ok key, w) ->
  length key = 32%nat ->
  capturable params ->
  uuid ∉ map ev_id (evidences w) ->
  exists response,
    capture_footprint getKey g gitInfo uuid params w
    = (Ok response,
       mk_world (evidences w
                 ++ [captured_row key g gitInfo uuid params (toISOString (clock w))
                       (toISOString (S (clock w)))])
         [] (S (S (clock w))))
    /\ structuredContent response
       = mk_capture_result uuid (toISOString (clock w))
           (or_null (option_map commitHash gitInfo)) true.
Proof.
  intros Hf Hkey Hlen (Hcontent & Hcount & Hconv & Htags) Hfresh.
  unfold capture_footprint, wrapToolHandler, captured_row, stored_tags.
  destruct (cp_content params) as [| c content] eqn:Hc; [contradiction Hcontent; reflexivity |].
  cbn [str_empty orb].
  destruct (trim (c :: content)) as [| t trimmed] eqn:Ht; [congruence |].
  cbn [length Nat.eqb].
  replace (cp_messageCount params <=? 0) with false by lia. rewrite Hconv.
  destruct (sanitize_tags (cp_tags params)) as [tags | m]; [| discriminate].
  unfold bind at 1. rewrite Hkey.
  unfold encrypt. rewrite Hlen. cbn [Nat.eqb negb].
  destruct (randomBytes 24 g) as [nonce g']. cbn [fst ciphertext enc_nonce].
  unfold bind at 1. unfold Date_now at 1. cbn [evidences faults clock].
  unfold bind at 1. rewrite create_no_fault by assumption.
  cbn [ret]. eexists. split; reflexivity.
Qed.

Lemma decrypt_captured {P : Platform} {L : PlatformLaws P} key g content :
  length key = 32%nat ->
  well_formed content = true -> starts_with_bom content = false ->
  decrypt (cipher_encrypt key (randomBytes 24 g).1 (TextEncoder_encode content))
    (randomBytes 24 g).1 key = Ok content.
Proof.
  intros Hk Hwf Hbom. unfold decrypt. rewrite Hk, randomBytes_length.
  cbn [Nat.eqb negb]. rewrite cipher_correct by (exact Hk || apply randomBytes_length).
  rewrite TextDecoder_TextEncoder by assumption. reflexivity.
Qed.

(** The tag string of a capture whose tags are text is text, and is
    stored as it is. *)
Lemma stored_tags_text given :
  (forall raw, given = Some raw -> text raw) ->
  option_map to_text (stored_tags given) = stored_tags given.
Proof.
  intros Hraw. unfold stored_tags, sanitize_tags.
  destruct given as [[| c s] |]; try reflexivity.
  destruct (length (tokens (c :: s)) =? 0)%nat; [reflexivity |].
  destruct (List.find has_separator (tokens (c :: s))); [reflexivity |].
  cbn [or_null]. destruct (join [comma] (tokens (c :: s))) as [| x joined] eqn:Hj;
    [reflexivity |].
  cbn [option_map]. f_equal. apply to_text_id. rewrite <- Hj.
  apply text_join, tokens_text, Hraw. reflexivity.
Qed.

(** X15: what is captured can be read back.  With a 32-byte key, without
    I/O faults and with a fresh id, the handler of capture-footprint
    accepts parameters that pass its checks and reports the id; for a
    content without unpaired surrogate and without a leading U+FEFF the
    handler of get-footprint then returns, for that id, the content and
    the message count given, the timestamp that the capture reported, and
    the conversation id, the provider and the sanitized tag string as
    text: as they were given when they hold no unpaired surrogate, an
    unpaired surrogate replaced by U+FFFD otherwise. *)
Theorem capture_then_get {P : Platform} {L : PlatformLaws P} (getKey : DB bytes)
  (key : bytes) (g : Entropy) (gitInfo : option GitInfo) (uuid : jsstring)
  (params : CaptureEvidenceParams) (w : World) :
  faults w = [] ->
  (forall w0, getKey w0 = (Ok key, w0)) ->
  length key = 32%nat ->
  capturable params ->
  well_formed (cp_content params) = true ->
  starts_with_bom (cp_content params) = false ->
  uuid ∉ map ev_id (evidences w) ->
  exists captured w1 read,
    capture_footprint getKey g gitInfo uuid params w = (Ok captured, w1)
    /\ cr_id (structuredContent captured) = uuid
    /\ cr_success (structuredContent captured) = true
    /\ get_footprint getKey uuid w1 = (Ok read, w1)
    /\ gr_id (structuredContent read) = uuid
    /\ gr_content (structuredContent read) = cp_content params
    /\ gr_messageCount (structuredContent read) = cp_messageCount params
    /\ gr_timestamp (structuredContent read) = cr_timestamp (structuredContent captured)
    /\ gr_conversationId (structuredContent read) = to_text (cp_conversationId params)
    /\ gr_llmProvider (structuredContent read) = to_text (cp_llmProvider params)
    /\ gr_tags (structuredContent read) = option_map to_text (stored_tags (cp_tags params))
    /\ (text (cp_conversationId params) ->
        gr_conversationId (structuredContent read) = cp_conversationId params)
    /\ (text (cp_llmProvider params) ->
        gr_llmProvider (structuredContent read) = cp_llmProvider params)
    /\ ((forall raw, cp_tags params = Some raw -> text raw) ->
        gr_tags (structuredContent read) = stored_tags (cp_tags params)).
Proof.
  intros Hf Hkey Hlen Hvalid Hwf Hbom Hfresh.
  destruct (capture_footprint_no_fault getKey key g gitInfo uuid params w Hf (Hkey w)
              Hlen Hvalid Hfresh) as (captured & Hrun & Hsc).
  eexists captured, _, _. split; [exact Hrun |].
  rewrite Hsc. cbn [cr_id cr_success cr_timestamp].
  split; [reflexivity |]. split; [reflexivity |].
  unfold get_footprint, wrapToolHandler, bind.
  rewrite findById_no_fault by reflexivity. cbn [evidences].
  set (row := captured_row key g gitInfo uuid params _ _).
  assert (Hfind : List.find (fun r => str_eqb (ev_id r) uuid) (evidences w ++ [row])
                  = Some row)
    by (apply (find_by_id_app_new (evidences w) row); exact Hfresh).
  rewrite Hfind.
  rewrite Hkey. unfold row at 1 2, captured_row, inserted_row.
  cbn [encryptedContent nonce ne_encryptedContent ne_nonce].
  rewrite decrypt_captured by assumption. cbn [ret].
  split; [reflexivity |].
  cbn [structuredContent formatSuccessResponse createToolResponse gr_id gr_content
       gr_messageCount gr_timestamp gr_conversationId gr_llmProvider gr_tags].
  unfold row, captured_row, inserted_row.
  cbn [ev_id timestamp conversationId llmProvider messageCount tags ne_timestamp
       ne_conversationId ne_llmProvider ne_messageCount ne_tags].
  repeat (split; [reflexivity |]).
  split; [intros Hc; apply to_text_id, Hc |].
  split; [intros Hc; apply to_text_id, Hc |].
  intros Htags. apply stored_tags_text, Htags.
Qed.

Lemma capture_then_get_witness :
  exists captured w1 read,
    capture_footprint (H := sample_platform) (ret sample_key) sample_entropy
      (Some sample_git) (js "id-1") sample_capture tagged_world = (Ok captured, w1)
    /\ cr_id (structuredContent captured) = js "id-1"
    /\ cr_success (structuredContent captured) = true
    /\ get_footprint (H := sample_platform) (ret sample_key) (js "id-1") w1 = (Ok read, w1)
    /\ gr_id (structuredContent read) = js "id-1"
    /\ gr_content (structuredContent read) = cp_content sample_capture
    /\ gr_messageCount (structuredContent read) = cp_messageCount sample_capture
    /\ gr_timestamp (structuredContent read) = cr_timestamp (structuredContent captured)
    /\ gr_conversationId (structuredContent read)
       = to_text (cp_conversationId sample_capture)
    /\ gr_llmProvider (structuredContent read) = to_text (cp_llmProvider sample_capture)
    /\ gr_tags (structuredContent read)
       = option_map to_text (stored_tags (cp_tags sample_capture))
    /\ (text (cp_conversationId sample_capture) ->
        gr_conversationId (structuredContent read) = cp_conversationId sample_capture)
    /\ (text (cp_llmProvider sample_capture) ->
        gr_llmProvider (structuredContent read) = cp_llmProvider sample_capture)
    /\ ((forall raw, cp_tags sample_capture = Some raw -> text raw) ->
        gr_tags (structuredContent read) = stored_tags (cp_tags sample_capture)).
Proof.
  apply (capture_then_get (P := sample_platform) (L := sample_laws) (ret sample_key)
           sample_key sample_entropy (Some sample_git) (js "id-1") sample_capture
           tagged_world);
    [reflexivity | intros w0; reflexivity | reflexivity | repeat split; vm_compute; congruence
    | reflexivity | reflexivity | apply (bool_decide_unpack _); vm_compute; exact I].
Defined.

Lemma truthy_or_null o : truthy (or_null o) = truthy o.
Proof. destruct o as [[| c s] |]; reflexivity. Qed.

(** X16: a fresh capture verifies as far as the content goes.  Under the
    conditions of X15 the handler of verify-footprint, called with the id
    of the capture, returns: the content check passes with the hash of the
    content, the encryption check passes, and [verified] holds exactly
    when [getCurrentCommit] gave a commit whose hash and timestamp are not
    empty.  The rows stay as the capture left them. *)
Theorem capture_then_verify {P : Platform} {L : PlatformLaws P} (getKey : DB bytes)
  (key : bytes) (g : Entropy) (gitInfo : option GitInfo) (uuid : jsstring)
  (params : CaptureEvidenceParams) (w : World) :
  faults w = [] ->
  (forall w0, getKey w0 = (Ok key, w0)) ->
  length key = 32%nat ->
  capturable params ->
  well_formed (cp_content params) = true ->
  starts_with_bom (cp_content params) = false ->
  uuid ∉ map ev_id (evidences w) ->
  exists captured w1 report w2,
    capture_footprint getKey g gitInfo uuid params w = (Ok captured, w1)
    /\ verify_footprint getKey uuid w1 = (Ok report, w2)
    /\ evidences w2 = evidences w1
    /\ ci_passed (contentIntegrity (checks (structuredContent report))) = true
    /\ ci_hash (contentIntegrity (checks (structuredContent report)))
       = sha256_hex_string (cp_content params)
    /\ es_passed (encryptionStatus (checks (structuredContent report))) = true
    /\ verified (structuredContent report)
       = match gitInfo with
         | Some info =>
             negb (str_empty (commitHash info)) && negb (str_empty (gi_timestamp info))
         | None => false
         end.
Proof.
  intros Hf Hkey Hlen Hvalid Hwf Hbom Hfresh.
  destruct (capture_footprint_no_fault getKey key g gitInfo uuid params w Hf (Hkey w)
              Hlen Hvalid Hfresh) as (captured & Hrun & Hsc).
  eexists captured, _, _, _. split; [exact Hrun |].
  unfold verify_footprint, wrapToolHandler, bind.
  rewrite findById_no_fault by reflexivity. cbn [evidences].
  set (row := captured_row key g gitInfo uuid params _ _).
  assert (Hfind : List.find (fun r => str_eqb (ev_id r) uuid) (evidences w ++ [row])
                  = Some row)
    by (apply (find_by_id_app_new (evidences w) row); exact Hfresh).
  rewrite Hfind, Hkey. unfold row at 1 2, captured_row, inserted_row.
  cbn [encryptedContent nonce ne_encryptedContent ne_nonce].
  rewrite decrypt_captured by assumption.
  unfold Date_now. cbn [ret evidences faults clock].
  split; [reflexivity |]. cbn [structuredContent createToolResponse checks verified
    contentIntegrity encryptionStatus ci_passed ci_hash es_passed gt_passed evidences].
  split; [reflexivity |].
  unfold row, captured_row, inserted_row.
  cbn [contentHash gitCommitHash gitTimestamp ne_contentHash ne_gitCommitHash
       ne_gitTimestamp].
  unfold str_eqb. rewrite bool_decide_eq_true_2 by reflexivity.
  split; [reflexivity |]. split; [reflexivity |]. split; [reflexivity |].
  rewrite !truthy_or_null. cbn [andb]. rewrite andb_true_r.
  destruct gitInfo as [[[| c commit] [| t stamp]] |]; reflexivity.
Qed.

Lemma capture_then_verify_witness :
  exists captured w1 report w2,
    capture_footprint (H := sample_platform) (ret sample_key) sample_entropy
      (Some sample_git) (js "id-1") sample_capture tagged_world = (Ok captured, w1)
    /\ verify_footprint (H := sample_platform) (ret sample_key) (js "id-1") w1
       = (Ok report, w2)
    /\ evidences w2 = evidences w1
    /\ ci_passed (contentIntegrity (checks (structuredContent report))) = true
    /\ ci_hash (contentIntegrity (checks (structuredContent report)))
       = sha256_hex_string (H := sample_platform) (cp_content sample_capture)
    /\ es_passed (encryptionStatus (checks (structuredContent report))) = true
    /\ verified (structuredContent report)
       = match Some sample_git with
         | Some info =>
             negb (str_empty (commitHash info)) && negb (str_empty (gi_timestamp info))
         | None => false
         end.
Proof.
  apply (capture_then_verify (P := sample_platform) (L := sample_laws) (ret sample_key)
           sample_key sample_entropy (Some sample_git) (js "id-1") sample_capture
           tagged_world);
    [reflexivity | intros w0; reflexivity | reflexivity | repeat split; vm_compute; congruence
    | reflexivity | reflexivity | apply (bool_decide_unpack _); vm_compute; exact I].
Defined.

(* ------------------------------------------------------------------ *)
(** ** The tags of a capture *)

Lemma has_separator_comma_free s : has_separator s = false -> comma_free s.
Proof.
  unfold has_separator, comma_free. induction s as [| c s IH]; [constructor |].
  cbn [existsb]. rewrite orb_false_iff, !orb_false_iff. intros [(_ & Hc) Hs].
  constructor; [| apply IH, Hs]. apply Z.eqb_neq in Hc. exact Hc.
Qed.

Lemma find_has_separator_none l :
  List.find has_separator l = None -> Forall (fun t => has_separator t = false) l.
Proof.
  induction l as [| t l IH]; [constructor |].
  cbn [List.find]. destruct (has_separator t) eqn:Ht; [discriminate |].
  intros H. constructor; [exact Ht | apply IH, H].
Qed.

Lemma filter_nonblank_id (l : list jsstring) :
  Forall (fun t => t <> []) l -> List.filter nonblank l = l.
Proof.
  induction 1 as [| t l Ht _ IH]; [reflexivity |].
  cbn [List.filter]. destruct t; [congruence |]. cbn [str_empty negb]. rewrite IH.
  reflexivity.
Qed.

Lemma stored_tags_shape (given : option jsstring) (stored : jsstring) :
  stored_tags given = Some stored ->
  exists raw,
    given = Some raw
    /\ stored = join [comma] (tokens raw)
    /\ tokens stored = tokens raw
    /\ tokens raw <> []
    /\ Forall (fun t => t <> [] /\ trimmed t /\ has_separator t = false) (tokens raw)
    /\ stored_tags (Some stored) = Some stored.
Proof.
  unfold stored_tags, sanitize_tags. intros Hs.
  destruct given as [[| c s] |]; try discriminate.
  exists (c :: s). split; [reflexivity |].
  destruct (tokens (c :: s)) as [| t l] eqn:Ht; [discriminate |].
  cbn [length Nat.eqb] in Hs.
  destruct (List.find has_separator (t :: l)) eqn:Hfind; [discriminate |].
  pose proof (tokens_nonempty (c :: s)) as Hne.
  pose proof (tokens_trimmed (c :: s)) as Htr.
  pose proof (tokens_comma_free (c :: s)) as Hcf.
  rewrite Ht in Hne, Htr, Hcf.
  assert (Hjoin : join [comma] (t :: l) <> []) by (apply join_nonempty; [discriminate | exact Hne]).
  destruct (join [comma] (t :: l)) as [| j joined] eqn:Hj; [congruence |].
  cbn [or_null] in Hs. injection Hs as <-.
  assert (Htok : tokens (j :: joined) = t :: l).
  { rewrite <- Hj. rewrite tokens_join by (discriminate || assumption).
    apply filter_nonblank_id. exact Hne. }
  split; [reflexivity |]. split; [exact Htok |]. split; [discriminate |]. split.
  - apply find_has_separator_none in Hfind.
    rewrite Forall_forall in *. intros x Hx. auto.
  - rewrite Htok. cbn [length Nat.eqb]. rewrite Hfind, Hj. reflexivity.
Qed.

(** X17: the tag string that a capture stores is in normal form: it is
    the tags of the string given, joined by commas; read back it gives
    the same tags; there is at least one tag, and each is non-empty,
    without blanks around it and without NUL, newline, carriage return or
    comma; and sanitizing the stored string again gives it back. *)
Theorem stored_tags_normal_form (given : option jsstring) (stored : jsstring) :
  stored_tags given = Some stored ->
  exists raw,
    given = Some raw
    /\ stored = join [comma] (tokens raw)
    /\ tokens stored = tokens raw
    /\ tokens raw <> []
    /\ Forall (fun t => t <> [] /\ trimmed t /\ has_separator t = false) (tokens raw)
    /\ stored_tags (Some stored) = Some stored.
Proof. exact (stored_tags_shape given stored). Qed.

Lemma stored_tags_normal_form_witness :
  exists raw,
    cp_tags sample_capture = Some raw
    /\ js "api,draft" = join [comma] (tokens raw)
    /\ tokens (js "api,draft") = tokens raw
    /\ tokens raw <> []
    /\ Forall (fun t => t <> [] /\ trimmed t /\ has_separator t = false) (tokens raw)
    /\ stored_tags (Some (js "api,draft")) = Some (js "api,draft").
Proof.
  apply (stored_tags_normal_form (cp_tags sample_capture) (js "api,draft")).
  vm_compute. reflexivity.
Defined.

Lemma has_separator_nul_free s : has_separator s = false -> nul_free s.
Proof.
  unfold has_separator, nul_free. induction s as [| c s IH]; [constructor |].
  cbn [existsb]. rewrite !orb_false_iff. intros [(((Hc & _) & _) & _) Hs].
  constructor; [| apply IH, Hs]. apply Z.eqb_neq in Hc. exact Hc.
Qed.

Lemma nul_free_join l : Forall nul_free l -> nul_free (join [comma] l).
Proof.
  unfold nul_free. induction 1 as [| t l Ht Hl IH]; [constructor |].
  destruct l as [| t' l]; [exact Ht |].
  rewrite join_cons by discriminate. apply Forall_app. split; [exact Ht |].
  cbn [app]. constructor; [discriminate | exact IH].
Qed.

(** X18: a capture is found under each of its tags.  With a 32-byte key,
    without I/O faults and with a fresh id, after the handler of
    capture-footprint has accepted parameters whose tags hold no unpaired
    surrogate, [search] for any one of these tags (within the limit of
    LIKE) returns the captured record, whose tags are the tags given. *)
Theorem capture_then_search_by_tag {P : Platform} (getKey : DB bytes)
  (key : bytes) (g : Entropy) (gitInfo : option GitInfo) (uuid : jsstring)
  (params : CaptureEvidenceParams) (w : World) (tag : jsstring) :
  faults w = [] ->
  getKey w = (Ok key, w) ->
  length key = 32%nat ->
  capturable params ->
  (forall raw, cp_tags params = Some raw -> text raw) ->
  uuid ∉ map ev_id (evidences w) ->
  tag ∈ tokens_of (cp_tags params) ->
  fits_like tag ->
  exists captured w1 found,
    capture_footprint getKey g gitInfo uuid params w = (Ok captured, w1)
    /\ search (by_tag tag) w1 = (Ok found, w1)
    /\ exists r, r ∈ found /\ ev_id r = uuid
                 /\ tokens_of (tags r) = tokens_of (cp_tags params).
Proof.
  intros Hf Hkey Hlen Hvalid Htext Hfresh Htag _.
  destruct (capture_footprint_no_fault getKey key g gitInfo uuid params w Hf Hkey
              Hlen Hvalid Hfresh) as (captured & Hrun & _).
  eexists captured, _, _. split; [exact Hrun |].
  rewrite search_no_fault by reflexivity. split; [reflexivity |].
  cbn [evidences so_limit so_offset by_tag default]. unfold paginate.
  cbn [Z.ltb Z.compare].
  set (row := captured_row key g gitInfo uuid params _ _).
  assert (Hrow0 : tags row = stored_tags (cp_tags params)).
  { unfold row, captured_row, inserted_row. cbn [tags ne_tags].
    apply stored_tags_text, Htext. }
  destruct (cp_tags params) as [[| c s] |] eqn:Hgiven; cbn [tokens_of str_empty] in Htag;
    try (apply elem_of_nil in Htag; contradiction).
  destruct Hvalid as (_ & _ & _ & Hok).
  assert (Hstored : exists stored, stored_tags (Some (c :: s)) = Some stored).
  { rewrite Hgiven in Hok. unfold stored_tags. unfold sanitize_tags in *.
    destruct (length (tokens (c :: s)) =? 0)%nat eqn:Hlen0; [discriminate |].
    destruct (List.find has_separator (tokens (c :: s))); [discriminate |].
    assert (Hj : join [comma] (tokens (c :: s)) <> []).
    { apply join_nonempty; [| apply tokens_nonempty].
      intros H0. rewrite H0 in Hlen0. discriminate. }
    destruct (join [comma] (tokens (c :: s))); [congruence | eauto]. }
  destruct Hstored as [stored Hstored].
  destruct (stored_tags_shape _ _ Hstored) as (raw & Hraw & Hst & Htok & Hne & Hall & _).
  injection Hraw as <-.
  assert (Hrow : tags row = Some stored) by (rewrite Hrow0; exact Hstored).
  exists row. split; [| split].
  - apply list_elem_of_In.
    apply (Permutation_in _ (Permutation_sym (order_by_timestamp_desc_Permutation _))).
    apply filter_In. split; [apply in_or_app; right; left; reflexivity |].
    rewrite where_clause_by_tag.
    apply (tag_condition_complete tag row (tokens (c :: s))); [congruence | | |].
    + rewrite Forall_forall in Hall. destruct (Hall tag Htag) as (_ & -> & _). exact Htag.
    + apply text_join, tokens_text, Htext. reflexivity.
    + apply nul_free_join. eapply Forall_impl; [exact Hall |].
      intros t Ht. apply has_separator_nul_free, Ht.
  - reflexivity.
  - rewrite Hrow. cbn [tokens_of].
    destruct stored as [| x stored]; [| exact Htok].
    exfalso. symmetry in Hst. revert Hst. apply join_nonempty; [exact Hne |].
    eapply Forall_impl; [exact Hall |]. intros t Ht. apply Ht.
Qed.

Lemma capture_then_search_by_tag_witness :
  exists captured w1 found,
    capture_footprint (H := sample_platform) (ret sample_key) sample_entropy
      (Some sample_git) (js "id-1") sample_capture tagged_world = (Ok captured, w1)
    /\ search (by_tag (js "draft")) w1 = (Ok found, w1)
    /\ exists r, r ∈ found /\ ev_id r = js "id-1"
                 /\ tokens_of (tags r) = tokens_of (cp_tags sample_capture).
Proof.
  apply (capture_then_search_by_tag (P := sample_platform) (ret sample_key) sample_key
           sample_entropy (Some sample_git) (js "id-1") sample_capture tagged_world
           (js "draft"));
    [reflexivity | reflexivity | reflexivity | repeat split; vm_compute; congruence
    | intros raw [= <-]; reflexivity
    | apply (bool_decide_unpack _); vm_compute; exact I
    | apply (bool_decide_unpack _); vm_compute; exact I
    | unfold fits_like; vm_compute; discriminate].
Defined.

(* ------------------------------------------------------------------ *)
(** ** [removeTag] *)

Lemma filter_absent (tag : jsstring) l :
  tag ∉ l -> List.filter (fun t => negb (str_eqb t tag)) l = l.
Proof.
  induction l as [| x l IH]; [reflexivity |].
  intros Hout. apply not_elem_of_cons in Hout as [Hx Hl].
  cbn [List.filter]. unfold str_eqb at 1. rewrite bool_decide_eq_false_2 by congruence.
  cbn [negb]. rewrite IH by exact Hl. reflexivity.
Qed.

Lemma filter_removes (tag : jsstring) l :
  tag ∉ List.filter (fun t => negb (str_eqb t tag)) l.
Proof.
  intros Hin. apply list_elem_of_In, filter_In in Hin as [_ Hin].
  unfold str_eqb in Hin. rewrite bool_decide_eq_true_2 in Hin by reflexivity.
  discriminate.
Qed.

Lemma normal_tags_join (l : list jsstring) :
  l <> [] -> Forall (fun t => t <> []) l -> Forall comma_free l -> Forall trimmed l ->
  joined_tags (Some (join [comma] l)) /\ tokens (join [comma] l) = l.
Proof.
  intros Hne Hnb Hcf Htr.
  assert (Htok : tokens (join [comma] l) = l)
    by (rewrite tokens_join by assumption; apply filter_nonblank_id; exact Hnb).
  split; [| exact Htok]. cbn [joined_tags]. rewrite Htok.
  split; [apply join_nonempty; assumption | reflexivity].
Qed.

Lemma normal_tags_pieces s :
  joined_tags (Some s) -> map trim (split_comma s) = tokens s.
Proof.
  intros [Hne Hs]. rewrite Hs at 1.
  assert (Hl : tokens s <> []).
  { intros H0. rewrite H0 in Hs. cbn in Hs. congruence. }
  rewrite split_comma_join by (exact Hl || apply tokens_comma_free).
  apply map_trim_trimmed, tokens_trimmed.
Qed.

Lemma normal_tags_removed tag s :
  joined_tags (Some s) -> joined_tags (removed_tags tag s).
Proof.
  intros Hn. unfold removed_tags. rewrite (normal_tags_pieces s Hn).
  destruct (List.filter _ (tokens s)) as [| x kept] eqn:Hk; [exact I |].
  cbn [length Nat.ltb Nat.leb]. rewrite <- Hk.
  assert (Hsub : forall t, t ∈ List.filter (fun t => negb (str_eqb t tag)) (tokens s) ->
                           t ∈ tokens s).
  { intros t Ht. apply list_elem_of_In, filter_In in Ht as [Ht _].
    apply list_elem_of_In, Ht. }
  apply normal_tags_join.
  - rewrite Hk. discriminate.
  - apply Forall_forall. intros t Ht. pose proof (tokens_nonempty s) as H.
    rewrite Forall_forall in H. apply H, Hsub, Ht.
  - apply Forall_forall. intros t Ht. pose proof (tokens_comma_free s) as H.
    rewrite Forall_forall in H. apply H, Hsub, Ht.
  - apply Forall_forall. intros t Ht. pose proof (tokens_trimmed s) as H.
    rewrite Forall_forall in H. apply H, Hsub, Ht.
Qed.

Lemma nul_free_trim s : nul_free s -> nul_free (trim s).
Proof.
  unfold nul_free. intros Hs. destruct (trim_middle s) as (p & q & Heq & _).
  rewrite Heq in Hs. apply Forall_app in Hs as [_ Hs]. apply Forall_app in Hs. apply Hs.
Qed.

Lemma nul_free_pieces_of l : nul_free (join [comma] l) -> Forall nul_free l.
Proof.
  unfold nul_free. induction l as [| w l IH]; intros Hj; [constructor |].
  destruct l as [| w' l]; [repeat constructor; exact Hj |].
  rewrite join_cons in Hj by discriminate. apply Forall_app in Hj as [Hw Hrest].
  cbn [app] in Hrest. apply Forall_cons in Hrest as [_ Hrest].
  constructor; [exact Hw | apply IH, Hrest].
Qed.

Lemma nul_free_pieces s : nul_free s -> Forall nul_free (map trim (split_comma s)).
Proof.
  intros Hs. apply Forall_map.
  eapply Forall_impl; [apply nul_free_pieces_of; rewrite join_split_comma; exact Hs |].
  intros x. apply nul_free_trim.
Qed.

(** What [removeTag] writes for a tag string in normal form is in normal
    form. *)
Lemma removed_tags_normal tag s :
  normal_tags (Some s) -> normal_tags (removed_tags tag s).
Proof.
  intros [Hj Hs]. destruct (Hs s eq_refl) as [Htx Hnul].
  split; [apply normal_tags_removed, Hj |].
  unfold removed_tags. destruct (0 <? length _)%nat; [| discriminate].
  intros s' [= <-]. split.
  - apply text_join, text_filter, pieces_text, Htx.
  - apply nul_free_join. apply Forall_forall. intros t Ht.
    apply list_elem_of_In, filter_In in Ht as [Ht _].
    pose proof (nul_free_pieces s Hnul) as Hall. rewrite Forall_forall in Hall.
    apply Hall, list_elem_of_In, Ht.
Qed.



(** X20: after [removeTag] of a tag without blanks around it has
    returned, every row whose tag string was in normal form (the
    comma-joined list of its tags, text without NUL) has a tag string in
    normal form again, with the tags it had except the removed one, which
    it does not carry any more; ids and ciphertexts are untouched. *)
Theorem removeTag_removes {P : Platform} (tag : jsstring) (w w' : World)
  (updatedCount : Z) :
  NoDup (map ev_id (evidences w)) ->
  trimmed tag ->
  removeTag tag w = (Ok updatedCount, w') ->
  Forall2 (fun r r' =>
             ev_id r' = ev_id r
             /\ encryptedContent r' = encryptedContent r
             /\ (normal_tags (tags r) ->
                 normal_tags (tags r')
                 /\ tokens_of (tags r')
                    = List.filter (fun t => negb (str_eqb t tag)) (tokens_of (tags r))
                 /\ tag ∉ tokens_of (tags r')))
    (evidences w) (evidences w').
Proof.
  intros Hnd Htrim Hrun.
  pose proof (retag_outcome (js "Failed to remove tag: ") tag (removed_tags tag) w Hnd)
    as Hout.
  rewrite <- removeTag_retag, Hrun in Hout. destruct Hout as [Hout _].
  eapply Forall2_impl; [exact Hout |]. intros r r' Hr. cbv beta in Hr.
  destruct (tag_condition tag r) eqn:Hsel.
  - destruct Hr as [now ->]. unfold rewrite_row.
    destruct (tags r) as [[| c s] |] eqn:Ht.
    + rewrite Ht. split; [reflexivity |]. split; [reflexivity |].
      intros [[Hne _] _]. congruence.
    + cbn [ev_id encryptedContent tags]. split; [reflexivity |]. split; [reflexivity |].
      intros Hn. rewrite removed_tags_text by (apply (proj2 Hn (c :: s)); reflexivity).
      split; [apply removed_tags_normal, Hn |].
      rewrite tokens_of_removed_tags. cbn [tokens_of str_empty].
      split; [reflexivity | apply filter_removes].
    + rewrite Ht. split; [reflexivity |]. split; [reflexivity |].
      intros _. cbn [tokens_of List.filter].
      split; [split; [exact I | discriminate] |].
      split; [reflexivity | apply not_elem_of_nil].
  - subst r'. split; [reflexivity |]. split; [reflexivity |]. intros Hn.
    assert (Hout' : tag ∉ tokens_of (tags r)).
    { intros Hin. destruct (tags r) as [s |] eqn:Ht; [| inversion Hin].
      cbn [tokens_of] in Hin. destruct (str_empty s); [inversion Hin |].
      destruct Hn as [[_ Hs] Htx]. destruct (Htx s eq_refl) as [Htext Hnul].
      assert (tag_condition tag r = true); [| congruence].
      apply (tag_condition_complete tag r (tokens s)); [congruence | | |].
      - rewrite Htrim. exact Hin.
      - rewrite <- Hs. exact Htext.
      - rewrite <- Hs. exact Hnul. }
    split; [exact Hn |]. split; [| exact Hout'].
    symmetry. apply filter_absent, Hout'.
Qed.

Lemma removeTag_removes_witness :
  exists updatedCount w',
    removeTag (H := sample_platform) (js "api") tagged_world = (Ok updatedCount, w')
    /\ Forall2 (fun r r' =>
                  ev_id r' = ev_id r
                  /\ encryptedContent r' = encryptedContent r
                  /\ (normal_tags (tags r) ->
                      normal_tags (tags r')
                      /\ tokens_of (tags r')
                         = List.filter (fun t => negb (str_eqb t (js "api")))
                             (tokens_of (tags r))
                      /\ js "api" ∉ tokens_of (tags r')))
         (evidences tagged_world) (evidences w').
Proof.
  eexists _, _. split; [vm_compute; reflexivity |].
  apply (removeTag_removes (P := sample_platform) (js "api") tagged_world _ 2);
    [apply tagged_world_key | reflexivity | vm_compute; reflexivity].
Defined.

(* ------------------------------------------------------------------ *)
(** ** [addTags] *)

Lemma fold_set_add_fresh l : forall acc,
  NoDup (acc ++ l) -> fold_left set_add l acc = acc ++ l.
Proof.
  induction l as [| x l IH]; intros acc Hnd; cbn [fold_left].
  - rewrite app_nil_r. reflexivity.
  - assert (Hx : x ∉ acc).
    { apply NoDup_app in Hnd as (_ & Hd & _). intros Hin. apply (Hd x Hin). left. }
    unfold set_add at 2. rewrite bool_decide_eq_false_2 by exact Hx.
    rewrite IH; rewrite <- app_assoc; [reflexivity | exact Hnd].
Qed.

Lemma fold_set_add_known l : forall acc,
  (forall x, x ∈ l -> x ∈ acc) -> fold_left set_add l acc = acc.
Proof.
  induction l as [| x l IH]; intros acc Hin; cbn [fold_left]; [reflexivity |].
  unfold set_add at 2. rewrite bool_decide_eq_true_2 by (apply Hin; left).
  apply IH. intros y Hy. apply Hin. right. exact Hy.
Qed.

Lemma set_of_again (m v : list jsstring) :
  NoDup m -> (forall x, x ∈ v -> x ∈ m) -> set_of (m ++ v) = m.
Proof.
  intros Hnd Hin. unfold set_of. rewrite fold_left_app.
  rewrite (fold_set_add_fresh m []) by exact Hnd. cbn [app].
  apply fold_set_add_known, Hin.
Qed.

Lemma valid_tags_clean given :
  Forall comma_free given ->
  Forall (fun t => t <> [] /\ comma_free t /\ trimmed t) (valid_tags given).
Proof.
  intros Hcf. apply Forall_forall. intros t Ht.
  apply list_elem_of_In, filter_In in Ht as [Ht Hnb].
  apply in_map_iff in Ht as (x & <- & Hx). split; [| split].
  - destruct (trim x); [discriminate | done].
  - apply trim_comma_free. rewrite Forall_forall in Hcf. apply Hcf, list_elem_of_In, Hx.
  - apply trim_idempotent.
Qed.

Lemma tokens_of_clean o :
  Forall (fun t => t <> [] /\ comma_free t /\ trimmed t) (tokens_of o).
Proof.
  destruct o as [s |]; [| constructor]. cbn [tokens_of].
  destruct (str_empty s); [constructor |].
  pose proof (tokens_nonempty s) as H1. pose proof (tokens_comma_free s) as H2.
  pose proof (tokens_trimmed s) as H3. rewrite Forall_forall in *. auto.
Qed.

(** The tags of the string that [addTags] writes. *)
Lemma merged_tags_normal (old : option jsstring) (given : list jsstring) :
  Forall comma_free given -> valid_tags given <> [] ->
  let merged := set_of (tokens_of old ++ valid_tags given) in
  joined_tags (Some (join [comma] merged))
  /\ tokens_of (Some (join [comma] merged)) = merged.
Proof.
  intros Hcf Hvalid merged.
  assert (Hclean : Forall (fun t => t <> [] /\ comma_free t /\ trimmed t) merged).
  { apply Forall_forall. intros t Ht. apply set_of_elem, elem_of_app in Ht as [Ht | Ht].
    - pose proof (tokens_of_clean old) as H. rewrite Forall_forall in H. apply H, Ht.
    - pose proof (valid_tags_clean given Hcf) as H. rewrite Forall_forall in H.
      apply H, Ht. }
  assert (Hne : merged <> []).
  { destruct (valid_tags given) as [| v vs] eqn:Hv; [congruence |].
    intros H0. assert (Hin : v ∈ merged) by (apply set_of_elem, elem_of_app; right; left).
    rewrite H0 in Hin. inversion Hin. }
  destruct (normal_tags_join merged) as [Hn Htok]; try exact Hne;
    try (eapply Forall_impl; [exact Hclean |]; intros t Ht; apply Ht).
  split; [exact Hn |]. cbn [tokens_of].
  destruct Hn as [Hj _]. destruct (join [comma] merged); [congruence |]. exact Htok.
Qed.

(** What [addTags] writes for text is text, and is stored as it is. *)
Lemma merged_tags_text (old : option jsstring) (given : list jsstring) :
  (forall s, old = Some s -> text s) -> Forall text given ->
  text (join [comma] (set_of (tokens_of old ++ valid_tags given))).
Proof.
  intros Hold Hgiven. apply text_join, Forall_forall. intros t Ht.
  apply set_of_elem, elem_of_app in Ht as [Ht | Ht].
  - pose proof (tokens_of_text old Hold) as Hall. rewrite Forall_forall in Hall.
    apply Hall, Ht.
  - apply list_elem_of_In, filter_In in Ht as [Ht _].
    apply in_map_iff in Ht as (x & <- & Hx). apply text_trim.
    rewrite Forall_forall in Hgiven. apply Hgiven, list_elem_of_In, Hx.
Qed.

(** X21: on a table with a primary key whose tag strings are text, when
    [addTags] with comma-free tags that are text returns, a row had the
    id; that row now has a tag string that is text and the comma-joined
    list of its tags, which are its earlier tags followed by the new ones
    (trimmed, the empty ones dropped), each once, in order of first
    occurrence: every earlier tag and every new tag is there; every other
    row is unchanged. *)
Theorem addTags_merges {P : Platform} (id : jsstring) (given : list jsstring)
  (w w' : World) :
  NoDup (map ev_id (evidences w)) ->
  text_tags (evidences w) ->
  Forall comma_free given ->
  Forall text given ->
  addTags id given w = (Ok tt, w') ->
  (id ∈ map ev_id (evidences w))
  /\ Forall2 (fun r r' =>
                if str_eqb (ev_id r) id
                then ev_id r' = id
                     /\ encryptedContent r' = encryptedContent r
                     /\ joined_tags (tags r')
                     /\ tokens_of (tags r')
                        = set_of (tokens_of (tags r) ++ valid_tags given)
                     /\ (forall t, t ∈ tokens_of (tags r) -> t ∈ tokens_of (tags r'))
                     /\ (forall t, t ∈ valid_tags given -> t ∈ tokens_of (tags r'))
                     /\ NoDup (tokens_of (tags r'))
                else r' = r)
       (evidences w) (evidences w')
  /\ text_tags (evidences w').
Proof.
  intros Hnd Htext Hcf Hgiven Hrun.
  destruct (addTags_ok id given w w' Hrun) as (e & now & Hfind & Hrows).
  apply find_by_id_spec in Hfind as [He Hid].
  assert (Hvalid : valid_tags given <> []).
  { revert Hrun. unfold addTags, try_catch, valid_tags.
    destruct (length given =? 0)%nat; [discriminate |].
    destruct (List.filter nonblank (map trim given)); [discriminate |]. discriminate. }
  assert (Hmerged : text (join [comma] (set_of (tokens_of (tags e) ++ valid_tags given)))).
  { apply merged_tags_text; [| exact Hgiven].
    intros s Hs. exact (text_table_row _ e s Htext He Hs). }
  split; [rewrite <- Hid; apply list_elem_of_fmap_2, He |]. split.
  - rewrite Hrows. apply Forall2_fmap_r, Forall_Forall2_diag, Forall_forall.
    intros r Hr. unfold compose, set_tags. cbv beta.
    destruct (str_eqb (ev_id r) id) eqn:Hrid; [| reflexivity].
    apply bool_decide_eq_true in Hrid.
    assert (r = e) by (apply (primary_key (evidences w)); congruence). subst r.
    cbn [ev_id encryptedContent tags option_map].
    fold (valid_tags given). rewrite (to_text_id _ Hmerged).
    destruct (merged_tags_normal (tags e) given Hcf Hvalid) as [Hn Htok].
    rewrite Htok.
    split; [exact Hid |]. split; [reflexivity |]. split; [exact Hn |].
    split; [reflexivity |]. split; [| split].
    + intros t Ht. apply set_of_elem, elem_of_app. left. exact Ht.
    + intros t Ht. apply set_of_elem, elem_of_app. right. exact Ht.
    + apply set_of_NoDup.
  - rewrite Hrows. unfold text_tags in *. apply Forall_map.
    eapply Forall_impl; [exact Htext |]. intros r Hr s. cbv beta.
    unfold set_tags. destruct (str_eqb (ev_id r) id); [| apply Hr].
    cbn [tags option_map]. fold (valid_tags given). intros [= <-].
    destruct (str_eqb (ev_id e) id) eqn:Heid.
    + rewrite (to_text_id _ Hmerged). exact Hmerged.
    + unfold str_eqb in Heid. rewrite bool_decide_eq_true_2 in Heid by exact Hid.
      discriminate.
Qed.

Lemma addTags_merges_witness :
  exists w',
    addTags (H := sample_platform) (js "r1") [js " web "; js "api"] tagged_world
    = (Ok tt, w')
    /\ ((js "r1" ∈ map ev_id (evidences tagged_world))
        /\ Forall2 (fun r r' =>
                      if str_eqb (ev_id r) (js "r1")
                      then ev_id r' = js "r1"
                           /\ encryptedContent r' = encryptedContent r
                           /\ joined_tags (tags r')
                           /\ tokens_of (tags r')
                              = set_of (tokens_of (tags r)
                                        ++ valid_tags [js " web "; js "api"])
                           /\ (forall t, t ∈ tokens_of (tags r) -> t ∈ tokens_of (tags r'))
                           /\ (forall t, t ∈ valid_tags [js " web "; js "api"] ->
                                 t ∈ tokens_of (tags r'))
                           /\ NoDup (tokens_of (tags r'))
                      else r' = r)
             (evidences tagged_world) (evidences w')
        /\ text_tags (evidences w')).
Proof.
  eexists. split; [vm_compute; reflexivity |].
  apply (addTags_merges (P := sample_platform) (js "r1") [js " web "; js "api"]
           tagged_world);
    [apply tagged_world_key
    | apply tagged_world_text
    | repeat constructor; apply (bool_decide_unpack _); vm_compute; exact I
    | repeat constructor
    | vm_compute; reflexivity].
Defined.

Lemma addTags_run {P : Platform} id given w e :
  faults w = [] ->
  List.find (fun r => str_eqb (ev_id r) id) (evidences w) = Some e ->
  valid_tags given <> [] ->
  addTags id given w
  = (Ok tt,
     mk_world
       (map (set_tags id
               (Some (join [comma] (set_of (tokens_of (tags e) ++ valid_tags given))))
               (toISOString (clock w))) (evidences w))
       [] (S (clock w))).
Proof.
  intros Hf He Hvalid. unfold addTags, try_catch, valid_tags in *.
  destruct given as [| t ts]; [contradiction Hvalid; reflexivity |].
  cbn [length Nat.eqb].
  destruct (List.filter nonblank (map trim (t :: ts))) as [| v valid] eqn:Hv;
    [congruence |].
  cbn [length Nat.eqb]. unfold bind at 1.
  rewrite findById_no_fault, He by assumption.
  unfold Date_now, run, bind, statement, update_tags_sql, ret.
  cbn [faults evidences clock]. rewrite Hf. reflexivity.
Qed.

Lemma find_by_id_map_set_tags id t now (rows : list Evidence) e :
  List.find (fun r => str_eqb (ev_id r) id) rows = Some e ->
  List.find (fun r => str_eqb (ev_id r) id) (map (set_tags id t now) rows)
  = Some (set_tags id t now e).
Proof.
  induction rows as [| r rows IH]; [discriminate |].
  cbn [List.find map]. intros He.
  assert (Hid : ev_id (set_tags id t now r) = ev_id r)
    by (unfold set_tags; destruct (str_eqb _ _); reflexivity).
  rewrite Hid. destruct (str_eqb (ev_id r) id); [congruence | apply IH, He].
Qed.

(** X22: [addTags] twice is [addTags] once: on a table whose tag strings
    are text and without I/O faults, when [addTags] with comma-free tags
    that are text has returned, the same call again returns and leaves the
    tag string of every row as the first call left it. *)
Theorem addTags_idempotent {P : Platform} (id : jsstring) (given : list jsstring)
  (w w1 : World) :
  faults w = [] ->
  text_tags (evidences w) ->
  Forall comma_free given ->
  Forall text given ->
  addTags id given w = (Ok tt, w1) ->
  exists w2,
    addTags id given w1 = (Ok tt, w2)
    /\ map tags (evidences w2) = map tags (evidences w1)
    /\ map ev_id (evidences w2) = map ev_id (evidences w1).
Proof.
  intros Hf Htext Hcf Hgiven Hrun.
  destruct (addTags_ok id given w w1 Hrun) as (e & now & Hfind & _).
  assert (Hvalid : valid_tags given <> []).
  { revert Hrun. unfold addTags, try_catch, valid_tags.
    destruct (length given =? 0)%nat; [discriminate |].
    destruct (List.filter nonblank (map trim given)); [discriminate |]. discriminate. }
  rewrite (addTags_run id given w e Hf Hfind Hvalid) in Hrun. injection Hrun as <-.
  set (merged := set_of (tokens_of (tags e) ++ valid_tags given)).
  set (now1 := toISOString (clock w)).
  assert (Hmerged : text (join [comma] merged)).
  { apply merged_tags_text; [| exact Hgiven].
    intros s Hs. apply (text_table_row _ e s Htext); [| exact Hs].
    apply find_by_id_spec in Hfind. apply Hfind. }
  assert (Hfind1 := find_by_id_map_set_tags id (Some (join [comma] merged)) now1 _ _ Hfind).
  eexists. split.
  { apply (addTags_run id given
             (mk_world (map (set_tags id (Some (join [comma] merged)) now1) (evidences w))
                [] (S (clock w))) _ eq_refl Hfind1 Hvalid). }
  cbn [evidences clock].
  destruct (merged_tags_normal (tags e) given Hcf Hvalid) as [_ Htok]. fold merged in Htok.
  assert (Htags : tags (set_tags id (Some (join [comma] merged)) now1 e)
                  = Some (join [comma] merged)).
  { rewrite set_tags_tags.
    - cbn [option_map]. rewrite (to_text_id _ Hmerged). reflexivity.
    - unfold set_tags. apply find_by_id_spec in Hfind as [_ Hid].
      destruct (str_eqb _ _); exact Hid. }
  rewrite Htags, Htok.
  rewrite (set_of_again merged (valid_tags given)).
  - rewrite !map_map. split; apply map_ext; intros r; unfold set_tags;
      destruct (str_eqb (ev_id r) id) eqn:Hr; cbn [tags ev_id option_map];
      try rewrite Hr; cbn [tags ev_id option_map];
      rewrite ?(to_text_id _ Hmerged); reflexivity.
  - apply set_of_NoDup.
  - intros x Hx. apply set_of_elem, elem_of_app. right. exact Hx.
Qed.

Lemma addTags_idempotent_witness :
  exists w1,
    addTags (H := sample_platform) (js "r1") [js " web "; js "api"] tagged_world
    = (Ok tt, w1)
    /\ exists w2,
         addTags (H := sample_platform) (js "r1") [js " web "; js "api"] w1 = (Ok tt, w2)
         /\ map tags (evidences w2) = map tags (evidences w1)
         /\ map ev_id (evidences w2) = map ev_id (evidences w1).
Proof.
  eexists. split; [vm_compute; reflexivity |].
  apply (addTags_idempotent (P := sample_platform) (js "r1") [js " web "; js "api"]
           tagged_world);
    [reflexivity
    | apply tagged_world_text
    | repeat constructor; apply (bool_decide_unpack _); vm_compute; exact I
    | repeat constructor
    | vm_compute; reflexivity].
Defined.

(* ------------------------------------------------------------------ *)
(** ** [search] *)

Lemma filter_true {A} (p : A -> bool) l :
  (forall x, p x = true) -> List.filter p l = l.
Proof.
  intros Hp. induction l as [| x l IH]; [reflexivity |].
  cbn [List.filter]. rewrite Hp, IH. reflexivity.
Qed.

(** X23: when [search] returns, the records found are ordered by
    timestamp, newest first, each is a row of the table, and each lies in
    the date range given (timestamps compared as TEXT values; an empty
    date is no bound).  Without query, limit and offset it finds every
    row in the date range whose tag string, text without NUL, is a
    comma-joined list that holds each tag asked for, trimmed.  It never
    changes a row, and without I/O faults a search with no criterion
    returns what [list] returns for the same limit and offset. *)
Theorem search_filters_and_orders (o : SearchOptions) (w : World) :
  match search o w with
  | (Ok found, w') =>
      StronglySorted newer_first found
      /\ (forall r, r ∈ found ->
            r ∈ evidences w
            /\ (forall d, dateFrom o = Some d -> d <> [] -> str_leb d (timestamp r) = true)
            /\ (forall d, dateTo o = Some d -> d <> [] -> str_leb (timestamp r) d = true))
      /\ (so_limit o = None -> default 0 (so_offset o) <= 0 -> query o = None ->
          forall r, r ∈ evidences w ->
            (forall ts, so_tags o = Some ts ->
               Forall (fun tag => exists l, tags r = Some (join [comma] l) /\ trim tag ∈ l)
                 ts) ->
            (forall s, tags r = Some s -> text s /\ nul_free s) ->
            (forall d, dateFrom o = Some d -> str_leb d (timestamp r) = true) ->
            (forall d, dateTo o = Some d -> str_leb (timestamp r) d = true) ->
            r ∈ found)
      /\ evidences w' = evidences w
  | (Throw _, w') => evidences w' = evidences w
  end
  /\ (faults w = [] ->
      search (mk_search_options None None None None (so_limit o) (so_offset o)) w
      = db_list (mk_list_options (so_limit o) (so_offset o)) w).
Proof.
  split.
  - unfold search, try_catch.
    match goal with |- context [select ?q w] =>
      pose proof (select_outcome q w) as Hsel;
      destruct (select q w) as [[found | m] w']; cbn [rethrow]
    end; [| apply Hsel].
    destruct Hsel as (-> & Hrows & _).
    set (matching := List.filter (where_clause o) (evidences w)).
    set (sorted := order_by_timestamp_desc matching).
    assert (Hsorted : StronglySorted newer_first sorted)
      by apply order_by_timestamp_desc_sorted.
    assert (Hin : forall r, r ∈ sorted <-> r ∈ evidences w /\ where_clause o r = true).
    { intros r. unfold sorted. rewrite (order_by_timestamp_desc_Permutation matching).
      unfold matching. rewrite !list_elem_of_In, filter_In. reflexivity. }
    split; [| split; [| split]].
    + eapply StronglySorted_sublist; [apply paginate_sublist | exact Hsorted].
    + intros r Hr.
      assert (Hr' : r ∈ sorted) by (eapply elem_of_sublist; [exact Hr | apply paginate_sublist]).
      apply Hin in Hr' as [Hrow Hw]. split; [exact Hrow |].
      unfold where_clause in Hw. rewrite !andb_true_iff in Hw.
      destruct Hw as [[[_ _] Hfrom] Hto]. split.
      * intros d Hd Hne. rewrite Hd in Hfrom. destruct d; [congruence | exact Hfrom].
      * intros d Hd Hne. rewrite Hd in Hto. destruct d; [congruence | exact Hto].
    + intros Hlimit Hoffset Hquery r Hr Htags Htext Hfrom Hto.
      rewrite Hlimit, paginate_all by exact Hoffset. apply Hin. split; [exact Hr |].
      unfold where_clause. rewrite Hquery. rewrite !andb_true_iff.
      split; [split; [split; [reflexivity |] |] |].
      * destruct (so_tags o) as [ts |]; [| reflexivity].
        apply forallb_forall. intros tag Htag.
        specialize (Htags ts eq_refl). rewrite Forall_forall in Htags.
        destruct (Htags tag) as (l & Hl & Hmem); [apply list_elem_of_In, Htag |].
        destruct (Htext _ Hl) as [Htx Hnul].
        apply (tag_condition_complete tag r l Hl Hmem Htx Hnul).
      * destruct (dateFrom o) as [d |]; [| reflexivity].
        destruct (str_empty d); [reflexivity | apply Hfrom; reflexivity].
      * destruct (dateTo o) as [d |]; [| reflexivity].
        destruct (str_empty d); [reflexivity | apply Hto; reflexivity].
    + exact Hrows.
  - intros Hf. rewrite search_no_fault, db_list_no_fault by exact Hf.
    cbn [so_limit so_offset lo_limit lo_offset]. rewrite filter_true; [reflexivity |].
    intros r. reflexivity.
Qed.

(* ------------------------------------------------------------------ *)
(** ** get-tag-stats *)

Lemma insert_by_count_Permutation entry sorted :
  Permutation (insert_by_count entry sorted) (entry :: sorted).
Proof.
  induction sorted as [| e rest IH]; cbn [insert_by_count]; [reflexivity |].
  destruct (snd e <? snd entry); [reflexivity |].
  rewrite IH. apply perm_swap.
Qed.

Lemma insert_by_count_sorted entry sorted :
  StronglySorted more_used_first sorted ->
  StronglySorted more_used_first (insert_by_count entry sorted).
Proof.
  induction 1 as [| e rest Hrest IH He]; cbn [insert_by_count].
  - repeat constructor.
  - destruct (snd e <? snd entry) eqn:Hlt.
    + constructor; [constructor; assumption |].
      apply Z.ltb_lt in Hlt. constructor; [unfold more_used_first; lia |].
      eapply Forall_impl; [exact He |]. unfold more_used_first. intros x Hx. lia.
    + apply Z.ltb_ge in Hlt. constructor; [exact IH |].
      rewrite (insert_by_count_Permutation entry rest).
      constructor; [exact Hlt | exact He].
Qed.

Lemma sort_by_count_spec entries :
  Permutation (sort_by_count entries) entries
  /\ StronglySorted more_used_first (sort_by_count entries).
Proof.
  unfold sort_by_count.
  assert (H : forall acc, StronglySorted more_used_first acc ->
            Permutation (fold_left (fun sorted entry => insert_by_count entry sorted)
                           entries acc) (acc ++ entries)
            /\ StronglySorted more_used_first
                 (fold_left (fun sorted entry => insert_by_count entry sorted)
                    entries acc)).
  { induction entries as [| e entries IH]; intros acc Hacc; cbn [fold_left].
    - rewrite app_nil_r. auto.
    - destruct (IH (insert_by_count e acc) (insert_by_count_sorted e acc Hacc))
        as [Hp Hs].
      split; [| exact Hs]. rewrite Hp, insert_by_count_Permutation.
      apply Permutation_middle. }
  apply (H [] (SSorted_nil _)).
Qed.

(** X24: when the handler of get-tag-stats returns, it lists each tag
    that occurs in some row once, with the number of its occurrences, the
    most used first, and [totalTags] is the number of distinct tags; it
    throws only when the statement fails. *)
Theorem get_tag_stats_most_used_first (w : World) :
  match get_tag_stats w with
  | (Ok response, w') =>
      let stats := structuredContent response in
      StronglySorted more_used_first (ts_tags stats)
      /\ NoDup (map fst (ts_tags stats))
      /\ (forall tag, tag ∈ map fst (ts_tags stats) <-> tag ∈ all_tags (evidences w))
      /\ (forall tag count, (tag, count) ∈ ts_tags stats ->
            count = occurrences tag (all_tags (evidences w)) /\ 0 < count)
      /\ totalTags stats = Z.of_nat (length (remove_dups (all_tags (evidences w))))
      /\ evidences w' = evidences w
  | (Throw _, w') => faults w <> [] /\ evidences w' = evidences w
  end.
Proof.
  unfold get_tag_stats, wrapToolHandler, bind.
  pose proof (getTagCounts_tally w) as Hc.
  destruct (getTagCounts w) as [[tagCounts | m] w']; [| exact Hc].
  destruct Hc as (Hnd & Hkeys & Hcount & Hrows).
  destruct (sort_by_count_spec tagCounts) as [Hperm Hsorted].
  cbn [ret structuredContent createToolResponse ts_tags totalTags]. cbv zeta.
  cbn [ts_tags totalTags].
  assert (Hkeys' : Permutation (map fst (sort_by_count tagCounts)) (map fst tagCounts))
    by (apply Permutation_map, Hperm).
  split; [exact Hsorted |]. split; [rewrite Hkeys'; exact Hnd |].
  split; [intros tag; rewrite Hkeys'; apply Hkeys |].
  split; [intros tag count Hin; apply Hcount; rewrite <- Hperm; exact Hin |].
  split; [| exact Hrows].
  f_equal. rewrite (Permutation_length Hperm), <- (length_map fst).
  apply Permutation_length, NoDup_Permutation; [exact Hnd | apply NoDup_remove_dups |].
  intros tag. rewrite Hkeys, elem_of_remove_dups. reflexivity.
Qed.

(* ------------------------------------------------------------------ *)
(** ** delete-footprints *)

(** X25: when the handler of delete-footprints returns, the list of ids
    was not empty, exactly the rows with a listed id are gone,
    [deletedCount] is their number, and [success] says whether there was
    one: ids that no row has are not an error.  For an empty list it
    throws "At least one evidence ID is required" without touching the
    database; whenever it throws, the table is as it was.  Without I/O
    faults it returns for a non-empty list. *)
Theorem delete_footprints_reports (evidenceIds : list jsstring) (w : World) :
  match delete_footprints evidenceIds w with
  | (Ok response, w') =>
      let result := structuredContent response in
      evidenceIds <> []
      /\ evidences w'
         = List.filter (fun r => negb (bool_decide (ev_id r ∈ evidenceIds))) (evidences w)
      /\ deletedCount result
         = Z.of_nat (length (List.filter (fun r => bool_decide (ev_id r ∈ evidenceIds))
                               (evidences w)))
      /\ (dr_success result = true <->
          exists r, r ∈ evidences w /\ ev_id r ∈ evidenceIds)
  | (Throw message, w') =>
      evidences w' = evidences w
      /\ (evidenceIds = [] ->
          w' = w
          /\ message = js "[Tool: delete-footprints] At least one evidence ID is required"
                       ++ js ". Suggested action: Verify the footprint IDs exist.")
  end
  /\ (faults w = [] -> evidenceIds <> [] ->
      exists response w', delete_footprints evidenceIds w = (Ok response, w')).
Proof.
  split.
  - unfold delete_footprints, wrapToolHandler.
    destruct evidenceIds as [| id0 idl]; cbn [length Nat.eqb throw].
    + split; [reflexivity |]. intros _. split; reflexivity.
    + unfold bind.
      destruct (deleteMany_outcome (id0 :: idl) w) as [Hd _].
      destruct (deleteMany (id0 :: idl) w) as [[deleted | m] w'].
      * destruct Hd as (Hrows & Hcount & _).
        cbn [ret structuredContent createToolResponse deletedCount dr_success]. cbv zeta.
        cbn [deletedCount dr_success].
        split; [discriminate |]. split; [exact Hrows |]. split; [exact Hcount |].
        rewrite Hcount, changes_positive, existsb_exists.
        split; intros (r & Hr & Hid); exists r.
        -- split; [apply list_elem_of_In, Hr | apply bool_decide_eq_true in Hid; exact Hid].
        -- split; [apply list_elem_of_In, Hr | apply bool_decide_eq_true; exact Hid].
      * destruct Hd as [Hrows _]. split; [exact Hrows |]. intros [=].
  - intros Hf Hne. unfold delete_footprints, wrapToolHandler.
    destruct evidenceIds as [| id0 idl]; [congruence |]. cbn [length Nat.eqb].
    unfold bind. destruct (deleteMany_outcome (id0 :: idl) w) as (_ & _ & Hok).
    destruct (Hok Hf) as (deleted & w' & ->). cbn [ret]. eauto.
Qed.

(* ------------------------------------------------------------------ *)
(** ** What the handlers check and what they return *)

(** X26: the handler of capture-footprint checks before it acts.  For
    parameters that fail a check (blank content, a message count that is
    not positive, a conversation id with NUL, newline, carriage return or
    comma, tags that are all blank or hold such a character) it throws and
    leaves the database and the clock exactly as they were: no key is
    asked for and nothing is stored.  Whenever it returns, the parameters
    had passed the checks. *)
Theorem capture_footprint_validates {P : Platform} (getKey : DB bytes) (g : Entropy)
  (gitInfo : option GitInfo) (uuid : jsstring) (params : CaptureEvidenceParams)
  (w : World) :
  (~ capturable params ->
   exists message, capture_footprint getKey g gitInfo uuid params w = (Throw message, w))
  /\ (forall response w',
        capture_footprint getKey g gitInfo uuid params w = (Ok response, w') ->
        capturable params).
Proof.
  unfold capturable, capture_footprint, wrapToolHandler.
  destruct (cp_content params) as [| c content] eqn:Hc.
  { cbn [str_empty orb throw]. split; [eauto | discriminate]. }
  cbn [str_empty orb].
  destruct (trim (c :: content)) as [| t trimmed] eqn:Ht.
  { cbn [length Nat.eqb throw]. split; [eauto | discriminate]. }
  cbn [length Nat.eqb].
  destruct (cp_messageCount params <=? 0) eqn:Hcount.
  { cbn [throw]. split; [eauto | discriminate]. }
  destruct (has_separator (cp_conversationId params)) eqn:Hconv.
  { cbn [throw]. split; [eauto | discriminate]. }
  destruct (sanitize_tags (cp_tags params)) as [tags | m] eqn:Htags.
  - split.
    + intros Hno. exfalso. apply Hno. repeat split; [discriminate | lia].
    + intros _ _ _. repeat split; [discriminate | lia].
  - cbn [throw]. split; [eauto | discriminate].
Qed.

(** X27: without I/O faults and with a key source that returns a key, the
    handler of get-footprint throws the not-found error for an id that no
    row has; for the id of a row it returns the text that [decrypt] gives
    for the stored ciphertext, nonce and the key, with the id and tags of
    the row and the git information when both of its parts are there; and
    when [decrypt] throws, it throws that error, wrapped, and returns no
    content. *)
Theorem get_footprint_outcome {P : Platform} (getKey : DB bytes) (key : bytes)
  (id : jsstring) (w : World) :
  faults w = [] ->
  getKey w = (Ok key, w) ->
  match List.find (fun r => str_eqb (ev_id r) id) (evidences w) with
  | None =>
      get_footprint getKey id w
      = (Throw (js "[Tool: get-footprint] Footprint not found: " ++ id
                ++ js ". Suggested action: "
                ++ js "Verify the footprint ID exists and password is correct."), w)
  | Some fp =>
      match decrypt (encryptedContent fp) (nonce fp) key with
      | Ok content =>
          exists response,
            get_footprint getKey id w = (Ok response, w)
            /\ gr_content (structuredContent response) = content
            /\ gr_id (structuredContent response) = id
            /\ gr_tags (structuredContent response) = tags fp
            /\ (is_Some (gr_gitInfo (structuredContent response)) <->
                truthy (gitCommitHash fp) && truthy (gitTimestamp fp) = true)
      | Throw message =>
          get_footprint getKey id w
          = (Throw (js "[Tool: get-footprint] " ++ message ++ js ". Suggested action: "
                    ++ js "Verify the footprint ID exists and password is correct."), w)
      end
  end.
Proof.
  intros Hf Hkey. unfold get_footprint, wrapToolHandler, bind.
  rewrite findById_no_fault by exact Hf.
  destruct (List.find _ (evidences w)) as [fp |] eqn:Hfind.
  - rewrite Hkey. destruct (decrypt _ _ key) as [content | message].
    + cbn [ret]. eexists. split; [reflexivity |].
      cbn [structuredContent formatSuccessResponse createToolResponse gr_content gr_id
           gr_tags gr_gitInfo].
      apply find_by_id_spec in Hfind as [_ Hid].
      split; [reflexivity |]. split; [exact Hid |]. split; [reflexivity |].
      destruct (gitCommitHash fp) as [[| c commit] |];
        destruct (gitTimestamp fp) as [[| t stamp] |]; cbn;
        split; try discriminate; try (intros [x Hx]; discriminate); eauto.
    + cbn [throw]. reflexivity.
  - cbn [throw]. reflexivity.
Qed.

Lemma get_footprint_outcome_witness :
  match List.find (fun r => str_eqb (ev_id r) (js "r1")) (evidences tagged_world) with
  | None =>
      get_footprint (H := sample_platform) (ret sample_key) (js "r1") tagged_world
      = (Throw (js "[Tool: get-footprint] Footprint not found: " ++ js "r1"
                ++ js ". Suggested action: "
                ++ js "Verify the footprint ID exists and password is correct."),
         tagged_world)
  | Some fp =>
      match decrypt (H := sample_platform) (encryptedContent fp) (nonce fp) sample_key with
      | Ok content =>
          exists response,
            get_footprint (H := sample_platform) (ret sample_key) (js "r1") tagged_world
            = (Ok response, tagged_world)
            /\ gr_content (structuredContent response) = content
            /\ gr_id (structuredContent response) = js "r1"
            /\ gr_tags (structuredContent response) = tags fp
            /\ (is_Some (gr_gitInfo (structuredContent response)) <->
                truthy (gitCommitHash fp) && truthy (gitTimestamp fp) = true)
      | Throw message =>
          get_footprint (H := sample_platform) (ret sample_key) (js "r1") tagged_world
          = (Throw (js "[Tool: get-footprint] " ++ message ++ js ". Suggested action: "
                    ++ js "Verify the footprint ID exists and password is correct."),
             tagged_world)
      end
  end.
Proof.
  apply (get_footprint_outcome (P := sample_platform) (ret sample_key) sample_key
           (js "r1") tagged_world); reflexivity.
Defined.



(* ------------------------------------------------------------------ *)
(** ** Exports by id *)

Lemma missing_ids_filter (rows : list Evidence) idl :
  List.filter
    (fun id => negb (bool_decide
                       (is_Some (List.find (fun r => str_eqb (ev_id r) id) rows)))) idl
  = missing_ids rows idl.
Proof.
  unfold missing_ids. apply filter_ext. intros id. f_equal. apply bool_decide_ext.
  split.
  - intros [fp Hfp]. apply find_by_id_spec in Hfp as [Hin <-].
    apply list_elem_of_fmap_2, Hin.
  - intros Hin. apply list_elem_of_fmap in Hin as (r & -> & Hr).
    apply find_by_id_present. eauto.
Qed.

(** X29: without I/O faults, [exportEvidences] with a list of ids of which
    some are not in the table throws, naming exactly the missing ids, in
    the order given and separated by ", ", and leaves the database and the
    clock as they were. *)
Theorem exportEvidences_missing_ids {P : Platform} (v : ExportVariant)
  (idl : list jsstring) (git : option bool) (w : World) :
  faults w = [] ->
  missing_ids (evidences w) idl <> [] ->
  exportEvidences v (mk_export_options (Some idl) git) w
  = (Throw (js "Failed to export " ++ nouns v ++ js ": " ++ noun v
            ++ js " IDs not found: "
            ++ join (js ", ") (missing_ids (evidences w) idl)), w).
Proof.
  intros Hf Hmissing. unfold exportEvidences, try_catch. cbn [ids includeGitInfo].
  unfold bind at 1. unfold bind at 1.
  rewrite filterM_not_found by exact Hf. rewrite missing_ids_filter.
  destruct (missing_ids (evidences w) idl) as [| id0 rest] eqn:Hm; [congruence |].
  cbn [length Nat.ltb Nat.leb throw rethrow]. rewrite <- !app_assoc. reflexivity.
Qed.

Lemma exportEvidences_missing_ids_witness :
  exportEvidences (H := sample_platform) FootprintExport
    (mk_export_options (Some [js "r1"; js "nope"; js "gone"]) None) tagged_world
  = (Throw (js "Failed to export " ++ nouns FootprintExport ++ js ": "
            ++ noun FootprintExport ++ js " IDs not found: "
            ++ join (js ", ")
                 (missing_ids (evidences tagged_world) [js "r1"; js "nope"; js "gone"])),
     tagged_world).
Proof.
  apply (exportEvidences_missing_ids (P := sample_platform) FootprintExport
           [js "r1"; js "nope"; js "gone"] None tagged_world);
    [reflexivity | vm_compute; discriminate].
Defined.

(** X30: without I/O faults, [exportEvidences] with an empty list of ids
    (not an omitted one) returns an archive without records, whatever the
    table holds: the count is 0 and the archive holds [manifest.json],
    which says 0, and [checksum.txt], which lists no file, and nothing
    else. *)
Theorem exportEvidences_empty_ids {P : Platform} (v : ExportVariant)
  (git : option bool) (w : World) :
  faults w = [] ->
  exists result w' zip,
    exportEvidences v (mk_export_options (Some []) git) w = (Ok result, w')
    /\ footprintCount result = 0
    /\ zipData result = zip_generate zip
    /\ dom zip = {[js "manifest.json"; js "checksum.txt"]}
    /\ zip !! js "manifest.json"
       = Some (Text (JSON_stringify
                       (manifest v (toISOString (clock w)) 0 (default false git))))
    /\ zip !! js "checksum.txt" = Some (Text (checksumContent []))
    /\ evidences w' = evidences w.
Proof.
  intros Hf.
  pose proof (exportEvidences_no_fault v (mk_export_options (Some []) git) w Hf) as Hrun.
  cbv zeta in Hrun. unfold exported in Hrun. cbn [ids includeGitInfo] in Hrun.
  change (records_of (evidences w) []) with (@nil Evidence) in Hrun.
  change (payload_bytes []) with 0 in Hrun. cbn [Z.ltb Z.compare Z.mul MAX_EXPORT_SIZE_MB] in Hrun.
  rewrite Hrun by (intros idl [= <-]; constructor).
  eexists _, _, _. split; [reflexivity |]. cbn [footprintCount zipData length].
  split; [reflexivity |]. split; [reflexivity |].
  destruct (build_zip_spec v (default false git) (toISOString (clock w)) [] [])
    as (Hmanifest & Hsum & _ & Hdom & _); [constructor | auto |].
  cbn [flat_map map length] in *.
  split; [rewrite Hdom; cbn [list_to_set]; apply (right_id_L ∅ (∪)) |].
  split; [exact Hmanifest |]. split; [exact Hsum | reflexivity].
Qed.

Lemma exportEvidences_empty_ids_witness :
  exists result w' zip,
    exportEvidences (H := sample_platform) FootprintExport
      (mk_export_options (Some []) None) tagged_world = (Ok result, w')
    /\ footprintCount result = 0
    /\ zipData result = zip_generate (Platform := sample_platform) zip
    /\ dom zip = {[js "manifest.json"; js "checksum.txt"]}
    /\ zip !! js "manifest.json"
       = Some (Text (JSON_stringify (Platform := sample_platform)
                       (manifest FootprintExport
                          (toISOString (Platform := sample_platform)
                             (clock tagged_world)) 0 (default false None))))
    /\ zip !! js "checksum.txt" = Some (Text (checksumContent []))
    /\ evidences w' = evidences tagged_world.
Proof.
  apply (exportEvidences_empty_ids (P := sample_platform) FootprintExport None
           tagged_world); reflexivity.
Defined.
